(** * call: a typed fetch client with retries, handlers and progress

    A shallow embedding of the request orchestration of [createCall] (the
    module that imports [./core/helper.js]; its text follows [buildUrl] in
    [src/core/url.ts]), of its helpers ([src/core/helper.ts]), of the types
    ([src/core/types.ts]) and of the URL assembly ([buildUrl]), followed by
    the properties of the specification that are settled against it.

    Conventions of the embedding.
    - A JavaScript [number] is an extended rational: finite values are exact
      rationals, to which the two infinities and NaN are added.  A product
      and a power of two overflow to an infinity where binary64 does; the
      rounding of finite results is not represented.
    - A JavaScript object used as a dictionary is a [gmap string _]; a numeric
      property key is the decimal rendering of the number.
    - A string is a string of bytes (Latin-1).  The [Headers] class follows
      the Fetch standard: names are lower-cased, values are stripped of
      leading and trailing HTTP whitespace, and an illegal name or value
      throws a [TypeError].
    - User callbacks: the delay function is a total function; the response
      mapper, the progress callback and the hooks of the progress channel
      return or throw.  Calls to handlers, to the progress callback and to
      the hooks are recorded as events of the call's trace; the orchestrator
      swallows whatever a handler throws, so that a handler is represented
      by its identity alone.
    - Abort signals and timers are not represented: an aborted transport call
      is a rejected transport call.
    - [while (true)] is a fixpoint on a fuel argument; the loop is shown to
      return for every fuel above a bound that depends on no input. *)

From Stdlib Require Import QArith Qround ZArith Lia List Ascii String.
From Stdlib Require Strings.Byte.
From stdpp Require Import gmap strings pretty.
Import ListNotations.

Local Open Scope string_scope.
Local Open Scope list_scope.

(** ** JavaScript numbers *)

Module JsNumber.

Inductive number : Type :=
| Fin (q : Q)
| PInf
| NInf
| NaN.

Definition of_Z (z : Z) : number := Fin (inject_Z z).
Definition of_nat (n : nat) : number := of_Z (Z.of_nat n).

Definition Qltb (a b : Q) : bool := negb (Qle_bool b a).

(** [a < b] *)
Definition ltb (a b : number) : bool :=
  match a, b with
  | NaN, _ | _, NaN => false
  | Fin x, Fin y => Qltb x y
  | NInf, NInf => false
  | NInf, _ => true
  | _, PInf => match a with PInf => false | _ => true end
  | _, _ => false
  end.

(** [a <= b] *)
Definition leb (a b : number) : bool :=
  match a, b with
  | NaN, _ | _, NaN => false
  | Fin x, Fin y => Qle_bool x y
  | NInf, _ => true
  | _, PInf => true
  | _, _ => false
  end.

(** [a >= b] *)
Definition geb (a b : number) : bool := leb b a.

(** [Math.min(a, b)] *)
Definition Math_min (a b : number) : number :=
  match a, b with
  | NaN, _ | _, NaN => NaN
  | _, _ => if leb a b then a else b
  end.

(** [Math.max(a, b)] *)
Definition Math_max (a b : number) : number :=
  match a, b with
  | NaN, _ | _, NaN => NaN
  | _, _ => if leb a b then b else a
  end.

(** [Math.floor(a)] *)
Definition Math_floor (a : number) : number :=
  match a with
  | Fin q => of_Z (Qfloor q)
  | _ => a
  end.

Definition Qsign (q : Q) : comparison := (Qnum q ?= 0)%Z.

(** The least magnitude that binary64 rounds to an infinity: half an ulp
    above the largest finite value, [2^1024 - 2^970]. *)
Definition overflow_bound : Z := (2 ^ 1024 - 2 ^ 970)%Z.

(** The value of an exact result: an infinity from [overflow_bound] on. *)
Definition of_Q (q : Q) : number :=
  if Qle_bool (inject_Z overflow_bound) q then PInf
  else if Qle_bool q (inject_Z (- overflow_bound)) then NInf
  else Fin q.

(** [a * b] *)
Definition mul (a b : number) : number :=
  match a, b with
  | NaN, _ | _, NaN => NaN
  | Fin x, Fin y => of_Q (x * y)
  | Fin x, PInf | PInf, Fin x =>
      match Qsign x with Eq => NaN | Gt => PInf | Lt => NInf end
  | Fin x, NInf | NInf, Fin x =>
      match Qsign x with Eq => NaN | Gt => NInf | Lt => PInf end
  | PInf, PInf | NInf, NInf => PInf
  | PInf, NInf | NInf, PInf => NInf
  end.

(** [a - b] *)
Definition sub (a b : number) : number :=
  match a, b with
  | NaN, _ | _, NaN => NaN
  | Fin x, Fin y => Fin (x - y)
  | PInf, PInf | NInf, NInf => NaN
  | PInf, _ | _, NInf => PInf
  | NInf, _ | _, PInf => NInf
  end.

(** [a / b] for a finite dividend, as the progress accounting uses it. *)
Definition div (a b : number) : number :=
  match a, b with
  | NaN, _ | _, NaN => NaN
  | Fin x, Fin y =>
      match Qsign y with
      | Eq => match Qsign x with Eq => NaN | Gt => PInf | Lt => NInf end
      | _ => Fin (x / y)
      end
  | Fin _, _ => Fin 0%Q
  | PInf, Fin y => match Qsign y with Lt => NInf | _ => PInf end
  | NInf, Fin y => match Qsign y with Lt => PInf | _ => NInf end
  | _, _ => NaN
  end.

(** [Math.pow(2, n)] for a natural exponent: exact up to [2^1023], an
    infinity from [2^1024] on. *)
Definition pow2 (n : nat) : number :=
  if (n <? 1024)%nat then of_Z (2 ^ Z.of_nat n) else PInf.

(** [Number.isFinite(a)] *)
Definition isFinite (a : number) : bool :=
  match a with Fin _ => true | _ => false end.

(** Truthiness of a number: [0] and [NaN] are falsy. *)
Definition truthy (a : number) : bool :=
  match a with
  | Fin q => negb (Qeq_bool q 0%Q)
  | NaN => false
  | _ => true
  end.

(** [a | 0], that is ToInt32: truncation towards zero, then reduction
    modulo 2^32 into the signed 32-bit range. *)
Definition ToInt32 (a : number) : Z :=
  match a with
  | Fin q =>
      let t := Z.quot (Qnum q) (Zpos (Qden q)) in
      let m := (t mod 2 ^ 32)%Z in
      if (m <? 2 ^ 31)%Z then m else (m - 2 ^ 32)%Z
  | _ => 0%Z
  end.


End JsNumber.
Export JsNumber.

(** ** Strings, headers and bodies of the platform *)

Module Js.

Definition bytes := list Byte.byte.

Definition lower_ascii (c : ascii) : ascii :=
  let n := nat_of_ascii c in
  if (65 <=? n)%nat && (n <=? 90)%nat then ascii_of_nat (n + 32) else c.

(** ASCII lower-casing, as the [Headers] class normalises names. *)
Fixpoint toLowerCase (s : string) : string :=
  match s with
  | EmptyString => EmptyString
  | String c s' => String (lower_ascii c) (toLowerCase s')
  end.

Definition is_digit (c : ascii) : bool :=
  let n := nat_of_ascii c in (48 <=? n)%nat && (n <=? 57)%nat.

Fixpoint all_digits (s : string) : bool :=
  match s with
  | EmptyString => true
  | String c s' => is_digit c && all_digits s'
  end.

(** [/^\d+$/.test(s)] *)
Definition only_digits (s : string) : bool :=
  match s with
  | EmptyString => false
  | _ => all_digits s
  end.

Fixpoint digits_value (acc : N) (s : string) : N :=
  match s with
  | EmptyString => acc
  | String c s' => digits_value (10 * acc + (N_of_ascii c - 48))%N s'
  end.

(** [Number(s)] for a string of decimal digits. *)
Definition Number_of_digits (s : string) : number :=
  of_Z (Z.of_N (digits_value 0%N s)).

Fixpoint includes_sub (needle s : string) : bool :=
  String.prefix needle s ||
  match s with
  | EmptyString => false
  | String _ s' => includes_sub needle s'
  end.

Definition startsWith (p s : string) : bool := String.prefix p s.

Definition slice1 (s : string) : string :=
  match s with
  | EmptyString => EmptyString
  | String _ s' => s'
  end.

Fixpoint endsWith_slash (s : string) : bool :=
  match s with
  | EmptyString => false
  | String c EmptyString => Ascii.eqb c "/"%char
  | String _ s' => endsWith_slash s'
  end.

(** A thrown value: the name and the message of the error. *)
Record JsError := { err_name : string; err_message : string }.

(** A computation that returns or throws. *)
Inductive result (A : Type) :=
| Ok (a : A)
| Throw (e : JsError).
Arguments Ok {A} a.
Arguments Throw {A} e.

(** The [Headers] class: a dictionary keyed by lower-cased names. *)
Definition Headers_get (h : gmap string string) (name : string) : option string :=
  h !! toLowerCase name.

Definition Headers_has (h : gmap string string) (name : string) : bool :=
  match Headers_get h name with Some _ => true | None => false end.

(** A header name is a non-empty token. *)
Definition is_token_char (c : ascii) : bool :=
  let n := nat_of_ascii c in
  ((48 <=? n)%nat && (n <=? 57)%nat)
  || ((65 <=? n)%nat && (n <=? 90)%nat)
  || ((97 <=? n)%nat && (n <=? 122)%nat)
  || existsb (Nat.eqb n) [33; 35; 36; 37; 38; 39; 42; 43; 45; 46; 94; 95; 96;
                          124; 126]%nat.

Fixpoint all_token_chars (s : string) : bool :=
  match s with
  | EmptyString => true
  | String c s' => is_token_char c && all_token_chars s'
  end.

Definition is_header_name (s : string) : bool :=
  match s with
  | EmptyString => false
  | _ => all_token_chars s
  end.

(** HTTP whitespace: tab, line feed, carriage return, space. *)
Definition is_http_whitespace (c : ascii) : bool :=
  existsb (Nat.eqb (nat_of_ascii c)) [9; 10; 13; 32]%nat.

Fixpoint strip_leading (s : string) : string :=
  match s with
  | EmptyString => EmptyString
  | String c s' => if is_http_whitespace c then strip_leading s' else s
  end.

Fixpoint strip_trailing (s : string) : string :=
  match s with
  | EmptyString => EmptyString
  | String c s' =>
      match strip_trailing s' with
      | EmptyString =>
          if is_http_whitespace c then EmptyString else String c EmptyString
      | t => String c t
      end
  end.

(** The normalisation of a header value: leading and trailing HTTP
    whitespace is removed. *)
Definition normalize_value (s : string) : string :=
  strip_trailing (strip_leading s).

(** A (normalised) header value holds no NUL, line feed or carriage
    return.  (It is also a byte string: [set] throws on a character beyond
    U+00FF, which a string of bytes does not hold.) *)
Fixpoint is_header_value (s : string) : bool :=
  match s with
  | EmptyString => true
  | String c s' =>
      negb (existsb (Nat.eqb (nat_of_ascii c)) [0; 10; 13]%nat)
      && is_header_value s'
  end.

(** What [set] and [append] throw on an illegal name or value (the text of
    the message is the platform's). *)
Definition illegal_header : JsError :=
  {| err_name := "TypeError"; err_message := "Invalid header name or value" |}.

(** [headers.set(name, value)] *)
Definition Headers_set (h : gmap string string) (name value : string)
  : result (gmap string string) :=
  let value := normalize_value value in
  if is_header_name name && is_header_value value
  then Ok (<[toLowerCase name := value]> h)
  else Throw illegal_header.

(** [headers.append(name, value)] *)
Definition Headers_append (h : gmap string string) (name value : string)
  : result (gmap string string) :=
  let value := normalize_value value in
  if is_header_name name && is_header_value value
  then
    match Headers_get h name with
    | Some old => Ok (<[toLowerCase name := old +:+ ", " +:+ value]> h)
    | None => Ok (<[toLowerCase name := value]> h)
    end
  else Throw illegal_header.

(** [for (const [k, v] of Object.entries(record)) headers.set(k, v)] *)
Fixpoint Headers_set_all (h : gmap string string) (r : list (string * string))
  : result (gmap string string) :=
  match r with
  | [] => Ok h
  | (k, v) :: rest =>
      match Headers_set h k v with
      | Ok h' => Headers_set_all h' rest
      | Throw e => Throw e
      end
  end.

Fixpoint Headers_append_all (h : gmap string string) (r : list (string * string))
  : result (gmap string string) :=
  match r with
  | [] => Ok h
  | (k, v) :: rest =>
      match Headers_append h k v with
      | Ok h' => Headers_append_all h' rest
      | Throw e => Throw e
      end
  end.

(** [new Headers(record)] *)
Definition Headers_of_record (r : list (string * string))
  : result (gmap string string) :=
  Headers_append_all ∅ r.

(** The [type] of [new Blob(parts, options)]: the type given, in lower
    case, and the empty string when none is given or when it holds a
    character outside the range U+0020 to U+007E. *)
Fixpoint all_printable (s : string) : bool :=
  match s with
  | EmptyString => true
  | String c s' =>
      let n := nat_of_ascii c in
      (32 <=? n)%nat && (n <=? 126)%nat && all_printable s'
  end.

Definition Blob_type (options : option string) : string :=
  match options with
  | Some type => if all_printable type then toLowerCase type else EmptyString
  | None => EmptyString
  end.

(** How a readable byte stream ends: it is closed, or a read rejects. *)
Inductive stream_end := Closed | Errored (reason : JsError).

(** A readable byte stream as its reader observes it: the chunks that
    [read()] delivers, how the stream ends after them, and whether a reader
    already holds the lock ([getReader()] then throws). *)
Record ReadableStream := {
  rs_chunks : list bytes;
  rs_end : stream_end;
  rs_locked : bool;
}.

(** A [Response] of the transport. *)
Record Response := {
  res_status : nat;
  res_ok : bool;
  res_statusText : string;
  res_headers : gmap string string;
  res_redirected : bool;
  res_body : option ReadableStream;
}.

#[warnings="-register-all"] Inductive json :=
| JNull
| JBool (b : bool)
| JNumber (n : number)
| JString (s : string)
| JArray (items : list json)
| JObject (fields : list (string * json)).

Fixpoint json_field (key : string) (fields : list (string * json)) : option json :=
  match fields with
  | [] => None
  | (k, v) :: rest => if String.eqb k key then Some v else json_field key rest
  end.

(** What a body parses into ([data] in the source). *)
Inductive Payload :=
| PUndefined
| PJson (j : json)
| PText (s : string)
| PBlob (parts : list bytes) (type : string)
| PArrayBuffer (b : bytes)
| PFormData (entries : list (string * string))
| PResponse (r : Response)
| PStream (body : option ReadableStream).

(** Primitives of the runtime that the code calls and that are taken as
    given: JSON, dates, text decoding, number rendering and the [URL]
    class. *)
Record Platform := {
  Date_parse : string -> number;
  Number_of_string : string -> number;
  String_of_number : number -> string;
  String_of_json : json -> string;
  JSON_parse : string -> option json;
  JSON_stringify : json -> string;
  (** [decoder.decode(chunk, {stream: true})] on the pending bytes of the
      decoder: the decoded text and the bytes left pending. *)
  TextDecoder_decode : bytes -> bytes -> string * bytes;
  (** [decoder.decode()]: flush of the pending bytes. *)
  TextDecoder_flush : bytes -> string;
  FormData_parse : bytes -> option string -> option (list (string * string));
  (** The MIME type that the platform extracts from the value of the
      content-type header, serialised; the empty string when there is no
      such header or its value is not a MIME type. *)
  MIME_type_of : option string -> string;
  URL : Type;
  (** [new URL(input, base)]; [None] when the constructor throws. *)
  URL_new : string -> option string -> option URL;
  URL_pathname : URL -> string;
  URL_set_pathname : URL -> string -> URL;
  URL_searchParams_set : URL -> string -> string -> URL;
  URL_toString : URL -> string;
  window_location_origin : option string;
}.

End Js.
Export Js.

(** ** src/core/types.ts *)

Module Types.

Inductive HttpMethod := GET | POST | PUT | DELETE | PATCH | OPTIONS | HEAD.

Definition HttpMethod_eqb (a b : HttpMethod) : bool :=
match a, b with
| GET, GET | POST, POST | PUT, PUT | DELETE, DELETE
| PATCH, PATCH | OPTIONS, OPTIONS | HEAD, HEAD => true
| _, _ => false
end.

(** The hooks of the global progress channel; each hook is optional, and
    a hook that is called returns or throws. *)
Record ProgressAPI := {
  progress_start : option (result unit);
  progress_set : option (option number -> result unit);
  progress_done : option (result unit);
}.

Inductive ReturnFieldsEnum :=
| F_content | F_status | F_statusText | F_headers | F_url
| F_ok | F_redirected | F_method | F_error.

Definition ReturnFieldsEnum_eqb (a b : ReturnFieldsEnum) : bool :=
match a, b with
| F_content, F_content | F_status, F_status | F_statusText, F_statusText
| F_headers, F_headers | F_url, F_url | F_ok, F_ok
| F_redirected, F_redirected | F_method, F_method | F_error, F_error => true
| _, _ => false
end.

Definition returnFields : list ReturnFieldsEnum :=
[F_content; F_status; F_statusText; F_headers; F_url; F_ok; F_redirected;
 F_method; F_error].

Definition StatusCodeByName : list (string * nat) :=
[ ("continue", 100); ("switchingProtocols", 101); ("processing", 102);
  ("earlyHints", 103);
  ("ok", 200); ("created", 201); ("accepted", 202);
  ("nonAuthoritativeInformation", 203); ("noContent", 204);
  ("resetContent", 205); ("partialContent", 206); ("multiStatus", 207);
  ("alreadyReported", 208); ("transformationApplied", 214); ("imUsed", 226);
  ("multipleChoices", 300); ("movedPermanently", 301); ("found", 302);
  ("seeOther", 303); ("notModified", 304); ("useProxy", 305);
  ("temporaryRedirect", 307); ("permanentRedirect", 308);
  ("badRequest", 400); ("unauthorized", 401); ("paymentRequired", 402);
  ("forbidden", 403); ("notFound", 404); ("methodNotAllowed", 405);
  ("notAcceptable", 406); ("proxyAuthenticationRequired", 407);
  ("requestTimeout", 408); ("conflict", 409); ("gone", 410);
  ("lengthRequired", 411); ("preconditionFailed", 412);
  ("payloadTooLarge", 413); ("uriTooLong", 414);
  ("unsupportedMediaType", 415); ("rangeNotSatisfiable", 416);
  ("expectationFailed", 417); ("imATeapot", 418);
  ("misdirectedRequest", 421); ("unprocessableEntity", 422); ("locked", 423);
  ("failedDependency", 424); ("tooEarly", 425); ("upgradeRequired", 426);
  ("preconditionRequired", 428); ("tooManyRequests", 429);
  ("requestHeaderFieldsTooLarge", 431); ("noResponse", 444);
  ("blockedByWindowsParentControls", 450);
  ("unavailableForLegalReasons", 451); ("sslCertificateError", 495);
  ("sslCertificateRequired", 496); ("httpRequestSentToHttpsPort", 497);
  ("tokenExpiredInvalid", 498); ("clientClosedRequest", 499);
  ("internalServerError", 500); ("notImplemented", 501); ("badGateway", 502);
  ("serviceUnavailable", 503); ("gatewayTimeout", 504);
  ("httpVersionNotSupported", 505); ("variantAlsoNegotiates", 506);
  ("insufficientStorage", 507); ("loopDetected", 508);
  ("bandwidthLimitExceeded", 509); ("notExtended", 510);
  ("networkAuthenticationRequired", 511); ("webServerIsDown", 521);
  ("connectionTimedOut", 522); ("originIsUnreachable", 523);
  ("sslHandshakeFailed", 525); ("siteFrozen", 530);
  ("networkConnectTimeoutError", 599) ].

(** [string | (() => string | Promise<string | undefined>)]: a token
    function is represented by what its call yields. *)
Inductive TokenCall :=
| TokenReturns (t : option string)
| TokenThrows (e : JsError).

Inductive Token :=
| TokenString (s : string)
| TokenFunction (call : TokenCall).

(** A handler callback, known by its identity. *)
Definition handler := nat.

(** [OnStatus]: the handlers by selector (status code, status name, range
    wildcard, ['network-error'], ['parsing-error']) and the [once] flag. *)
Record OnStatus := {
  once : option bool;
  handlers : gmap string handler;
}.

Inductive DelaySpec :=
| DelayNumber (d : number)
| DelayFunction (f : nat -> number).

Inductive RetryDecision :=
| DBoolean (b : bool)
| DObject (attempts : number) (delay : option DelaySpec).

Record RetryConfig := {
  onNetworkError : option RetryDecision;
  onParsingError : option RetryDecision;
  onStatus : option (gmap string RetryDecision);
  rc_maxDelay : option number;
  rc_backoffBase : option number;
  rc_respectRetryAfterHeader : option bool;
  rc_maxOverallTime : option number;
  rc_methods : option (list HttpMethod);
}.

Inductive RetryCall :=
| RetryCallDecision (d : RetryDecision)
| RetryCallWrapper (decision : RetryDecision)
    (respectRetryAfterHeader : option bool)
    (maxDelay : option number) (maxOverallTime : option number).

Record CallConfig := {
  cfg_baseUrl : option string;
  cfg_headers : option (list (string * string));
  cfg_defaultOrigin : option string;
  cfg_progress : option ProgressAPI;
  cfg_suppressError : option bool;
  cfg_returnFields : option (list ReturnFieldsEnum);
  cfg_credentials : option string;
  cfg_token : option Token;
  cfg_on : option OnStatus;
  cfg_retry : option RetryConfig;
}.

Record ProgressInfo := {
  loaded : nat;
  total : option number;
  percent : option number;
}.

Inductive ParseAs :=
| as_response | as_json | as_text | as_blob | as_arrayBuffer | as_formData
| as_stream.

Inductive ParamValue :=
| ParamString (s : string)
| ParamNumber (n : number)
| ParamBoolean (b : bool)
| ParamNull
| ParamUndefined.

(** [BodyInit]: a string, a [ReadableStream] of the platform, or another
    replayable source (Blob, FormData, ArrayBuffer, URLSearchParams). *)
Inductive BodyInit :=
| BodyString (s : string)
| BodyReadableStream (rs : ReadableStream)
| BodyOther (label : string).

Record RequestOptions := {
  opt_method : option HttpMethod;
  opt_headers : option (list (string * string));
  opt_params : option (list (string * ParamValue));
  opt_json : option json;
  opt_body : option BodyInit;
  opt_parseAs : option ParseAs;
  opt_mapResponse : option (Payload -> Response -> result Payload);
  opt_onProgress : option (ProgressInfo -> result unit);
  opt_useProgressApi : option bool;
  opt_suppressError : option bool;
  opt_returnFields : option (list ReturnFieldsEnum);
  opt_credentials : option string;
  opt_token : option Token;
  opt_on : option OnStatus;
  opt_retry : option RetryCall;
}.

Inductive ErrorCause :=
| CauseError (e : JsError)
| CauseCode (code : string).

Record ErrorInfo := {
  error_message : string;
  error_cause : option ErrorCause;
}.

(** [CallResult]: every field is optional, since the result is filtered by
    [returnFields]. *)
Record CallResult := {
  content : option Payload;
  status : option nat;
  statusText : option string;
  headers : option (gmap string string);
  url : option string;
  ok : option bool;
  redirected : option bool;
  method : option HttpMethod;
  error : option ErrorInfo;
}.

(** src/core/errors.ts: [CallError], built by
    [new CallError(message, init)]. *)
Record CallError := {
  ce_message : string;
  ce_status : option nat;
  ce_data : option Payload;
  ce_url : option string;
  ce_method : option HttpMethod;
  ce_response : option Response;
  ce_cause : option JsError;
}.

End Types.
Export Types.

(** ** Observable effects of a call *)

Module Trace.

(** The second argument of the transport ([signal] left out). *)
Record RequestInit := {
  init_method : HttpMethod;
  init_headers : gmap string string;
  init_body : option BodyInit;
  init_credentials : option string;
}.

(** What a call does to the outside world, in order.  The attempt number
    carried by an event is the value of the loop counter when it happens. *)
Inductive event :=
| EvFetch (attempt : nat) (url : string) (init : RequestInit)
| EvStatusHandler (attempt : nat) (h : handler) (status : nat) (url : string)
    (method : HttpMethod) (response : Response) (data : Payload)
| EvNetworkHandler (attempt : nat) (h : handler) (url : string)
    (method : HttpMethod) (error : JsError)
| EvParsingHandler (attempt : nat) (h : handler) (url : string)
    (method : HttpMethod) (response : Response) (error : JsError)
| EvRetry (attempt : nat) (d : number)
| EvProgressStart
| EvProgressSet (p : option number)
| EvProgressDone
| EvOnProgress (info : ProgressInfo).

Definition is_fetch (e : event) : bool :=
match e with EvFetch _ _ _ => true | _ => false end.

Definition is_retry (e : event) : bool :=
match e with EvRetry _ _ => true | _ => false end.

Definition is_done (e : event) : bool :=
match e with EvProgressDone => true | _ => false end.

Definition is_start (e : event) : bool :=
match e with EvProgressStart => true | _ => false end.

(** Is the event an invocation of handler [h]? *)
Definition is_handler_call (h : handler) (e : event) : bool :=
match e with
| EvStatusHandler _ h' _ _ _ _ _
| EvNetworkHandler _ h' _ _ _
| EvParsingHandler _ h' _ _ _ _ => Nat.eqb h h'
| _ => false
end.

Definition is_any_handler_call (e : event) : bool :=
match e with
| EvStatusHandler _ _ _ _ _ _ _
| EvNetworkHandler _ _ _ _ _
| EvParsingHandler _ _ _ _ _ _ => true
| _ => false
end.

(** The attempt during which a handler invocation happened. *)
Definition handler_attempt (e : event) : option nat :=
match e with
| EvStatusHandler a _ _ _ _ _ _
| EvNetworkHandler a _ _ _ _
| EvParsingHandler a _ _ _ _ _ => Some a
| _ => None
end.

Definition count (p : event -> bool) (tr : list event) : nat :=
length (List.filter p tr).

End Trace.
Export Trace.

(** ** The [Response] body methods of the platform *)

Module Fetch.

Definition body_unusable : JsError :=
{| err_name := "TypeError"; err_message := "Body is unusable" |}.

Definition stream_is_locked : JsError :=
{| err_name := "TypeError"; err_message := "ReadableStream is locked" |}.

(** The bytes of a body read in one go: a missing body is empty, a locked
    stream cannot be read, an errored stream rejects. *)
Definition Response_bytes (res : Response) : result bytes :=
match res_body res with
| None => Ok []
| Some rs =>
    if rs_locked rs then Throw body_unusable
    else match rs_end rs with
         | Closed => Ok (concat (rs_chunks rs))
         | Errored e => Throw e
         end
end.

Definition utf8_decode (P : Platform) (b : bytes) : string :=
let '(s, pending) := TextDecoder_decode P [] b in
s +:+ TextDecoder_flush P pending.

(** [res.text()] *)
Definition Response_text (P : Platform) (res : Response) : result string :=
match Response_bytes res with
| Ok b => Ok (utf8_decode P b)
| Throw e => Throw e
end.

(** [res.blob()]: the type of the blob is the MIME type of the response,
    as the platform extracts and serialises it. *)
Definition Response_blob (P : Platform) (res : Response) : result Payload :=
match Response_bytes res with
| Ok b =>
    Ok (PBlob [b] (MIME_type_of P (Headers_get (res_headers res) "content-type")))
| Throw e => Throw e
end.

(** [res.arrayBuffer()] *)
Definition Response_arrayBuffer (res : Response) : result Payload :=
match Response_bytes res with
| Ok b => Ok (PArrayBuffer b)
| Throw e => Throw e
end.

Definition not_form_data : JsError :=
{| err_name := "TypeError"; err_message := "Could not parse content as FormData" |}.

(** [res.formData()] *)
Definition Response_formData (P : Platform) (res : Response) : result Payload :=
match Response_bytes res with
| Ok b =>
    match FormData_parse P b (Headers_get (res_headers res) "content-type") with
    | Some fd => Ok (PFormData fd)
    | None => Throw not_form_data
    end
| Throw e => Throw e
end.

Definition json_syntax_error : JsError :=
{| err_name := "SyntaxError"; err_message := "Unexpected token in JSON" |}.

(** [JSON.parse(t)], which throws a [SyntaxError] on malformed text. *)
Definition JSON_parse_or_throw (P : Platform) (t : string) : result Payload :=
match JSON_parse P t with
| Some j => Ok (PJson j)
| None => Throw json_syntax_error
end.

End Fetch.
Export Fetch.

(** ** src/core/helper.ts *)

Module Helper.

(** [local[key]] on a handler object.  Under its selector keys a handler
    object holds callbacks (type [OnHandlers]), so that the test
    [typeof local[key] === 'function'] is the presence of the key. *)
Definition on_get (m : OnStatus) (key : string) : option handler :=
handlers m !! key.

Definition pickSpecial (key : string) (local global : OnStatus) : option handler :=
match on_get local key with
| Some h => Some h
| None => on_get global key
end.

Definition statusToWildcard (status : nat) : string :=
pretty (status / 100)%nat +:+ "xx".

(** [a ?? b] *)
Definition nullish {A} (a b : option A) : option A :=
match a with
| Some x => Some x
| None => b
end.

Definition truthy_string (s : string) : bool :=
match s with EmptyString => false | _ => true end.

(** [name ? m[name] : undefined] *)
Definition by_name {A} (m : gmap string A) (name : option string) : option A :=
match name with
| Some n => if truthy_string n then m !! n else None
| None => None
end.

Definition pickStatusHandler (status : nat) (local global : OnStatus)
  (codeToName : gmap nat string) : option handler :=
let name := codeToName !! status in
let h1 := nullish (on_get local (pretty status)) (by_name (handlers local) name) in
match h1 with
| Some h => Some h
| None =>
    let h2 := nullish (on_get global (pretty status)) (by_name (handlers global) name) in
    match h2 with
    | Some h => Some h
    | None =>
        let wildcard := statusToWildcard status in
        match on_get local wildcard with
        | Some h => Some h
        | None => on_get global wildcard
        end
    end
end.

(** A result field is known by its name; [fieldsToReturn.includes(k)]. *)
Definition includes_field (l : list ReturnFieldsEnum) (f : ReturnFieldsEnum) : bool :=
existsb (ReturnFieldsEnum_eqb f) l.

Definition keep {A} (l : list ReturnFieldsEnum) (f : ReturnFieldsEnum)
  (v : option A) : option A :=
if includes_field l f then v else None.

(** [opts.returnFields?.length ? opts.returnFields : config.returnFields] *)
Definition fieldsToReturn (opts : RequestOptions) (config : CallConfig)
  : option (list ReturnFieldsEnum) :=
match opt_returnFields opts with
| Some (f :: fs) => Some (f :: fs)
| _ => cfg_returnFields config
end.

Definition filterFields (obj : CallResult) (opts : RequestOptions)
  (config : CallConfig) : CallResult :=
match fieldsToReturn opts config with
| None => obj
| Some l =>
    {| content := keep l F_content (content obj);
       status := keep l F_status (status obj);
       statusText := keep l F_statusText (statusText obj);
       headers := keep l F_headers (headers obj);
       url := keep l F_url (url obj);
       ok := keep l F_ok (ok obj);
       redirected := keep l F_redirected (redirected obj);
       method := keep l F_method (method obj);
       error := keep l F_error (error obj) |}
end.

(** The IIFE that inverts [StatusCodeByName]. *)
Definition codeToName : gmap nat string :=
fold_left (fun m kv => <[kv.2 := kv.1]> m) StatusCodeByName ∅.

Definition decisionFromStatus (status : nat) (configRetry : RetryConfig)
  : option RetryDecision :=
match onStatus configRetry with
| None => None
| Some map =>
    match map !! pretty status with
    | Some decisionNumber => Some decisionNumber
    | None =>
        match by_name map (codeToName !! status) with
        | Some decisionName => Some decisionName
        | None => map !! statusToWildcard status
        end
    end
end.

Record AllowAndDelay := {
  allow : bool;
  delay : option number;
}.

Definition allowAndDelayFromDecision (decision : option RetryDecision)
  (attempt : nat) : AllowAndDelay :=
match decision with
| Some (DBoolean b) =>
    {| allow := b && (attempt <? 1)%nat; delay := None |}
| Some (DObject attempts d) =>
    let max := Z.max 0 (ToInt32 attempts) in
    if (Z.of_nat attempt <? max)%Z then
      match d with
      | Some (DelayNumber n) => {| allow := true; delay := Some n |}
      | Some (DelayFunction f) =>
          let v := f attempt in
          if isFinite v && geb v (of_Z 0)
          then {| allow := true; delay := Some v |}
          else {| allow := true; delay := None |}
      | None => {| allow := true; delay := None |}
      end
    else {| allow := false; delay := None |}
| None => {| allow := false; delay := None |}
end.

(** What [computeDelay] reads from its surroundings: the clock and the
    random source. *)
Record Ambient := {
  Date_now : Z;
  Math_random : Q;
}.

Record DelayArgs := {
  da_attempt : nat;
  da_maxDelay : number;
  da_respectRetryAfterHeader : bool;
  da_backoffBase : number;
  da_response : option Response;
  da_delay : option number;
}.

(** The retry-after branch: [Some ms] when the header gives a finite wait. *)
Definition retryAfterMs (P : Platform) (now : Z) (a : DelayArgs) : option number :=
if da_respectRetryAfterHeader a then
  match da_response a with
  | Some response =>
      match Headers_get (res_headers response) "retry-after" with
      | Some ra =>
          if truthy_string ra then
            let ms :=
              if only_digits ra then mul (Number_of_digits ra) (of_Z 1000)
              else Math_max (of_Z 0) (sub (Date_parse P ra) (of_Z now)) in
            if isFinite ms then Some ms else None
          else None
      | None => None
      end
  | None => None
  end
else None.

Definition computeDelay (P : Platform) (env : Ambient) (a : DelayArgs) : number :=
match da_delay a with
| Some delay => Math_max (of_Z 0) (Math_min (da_maxDelay a) delay)
| None =>
    match retryAfterMs P (Date_now env) a with
    | Some ms => Math_min (da_maxDelay a) ms
    | None =>
        let ms :=
          Math_floor (mul (Fin (Math_random env))
                          (mul (da_backoffBase a) (pow2 (da_attempt a)))) in
        Math_min (da_maxDelay a) ms
    end
end.

End Helper.
Export Helper.

(** *** The body readers of helper.ts *)

Module Reader.

Definition fallbackParse (P : Platform) (res : Response) (parseAs : option ParseAs)
  : result Payload :=
match parseAs with
| Some as_json =>
    match Response_text P res with
    | Ok t => if truthy_string t then JSON_parse_or_throw P t else Ok PUndefined
    | Throw e => Throw e
    end
| Some as_text =>
    match Response_text P res with Ok t => Ok (PText t) | Throw e => Throw e end
| Some as_blob => Response_blob P res
| Some as_arrayBuffer => Response_arrayBuffer res
| Some as_formData => Response_formData P res
| Some as_response => Ok (PResponse res)
| Some as_stream => Ok (PStream (res_body res))
| None =>
    match Response_text P res with Ok t => Ok (PText t) | Throw e => Throw e end
end.

(** [total ? Math.min(1, loaded / total) : null] *)
Definition percent_of (total : option number) (loaded : nat) : option number :=
match total with
| Some t =>
    if truthy t then Some (Math_min (of_Z 1) (div (of_nat loaded) t)) else None
| None => None
end.

(** A computation of the reader: the calls to the progress callback and
    to the hooks that it makes, in order, and what it returns or throws. *)
Definition traced (A : Type) : Type := (list event * result A)%type.

Definition ret {A} (a : A) : traced A := ([], Ok a).

(** [m; k]: the statements [k] run unless [m] throws. *)
Definition andThen {A B} (m : traced A) (k : traced B) : traced B :=
match m.2 with
| Ok _ => (m.1 ++ k.1, k.2)
| Throw e => (m.1, Throw e)
end.

Infix ">>" := andThen (at level 61, left associativity).

(** [try { body } finally { cleanup }]: the cleanup runs however the body
    ends, and what it throws replaces the completion of the body. *)
Definition try_finally {A} (body : traced A) (cleanup : traced unit) : traced A :=
(body.1 ++ cleanup.1,
 match cleanup.2 with
 | Ok _ => body.2
 | Throw e => Throw e
 end).

(** A call to a callback: the call happens, and the callback returns or
    throws. *)
Definition invoke (e : event) (r : result unit) : traced unit := ([e], r).

(** [progressAPI?.set?.(p)] *)
Definition call_set (progressAPI : option ProgressAPI) (p : option number)
  : traced unit :=
match progressAPI with
| Some api =>
    match progress_set api with
    | Some set => invoke (EvProgressSet p) (set p)
    | None => ret tt
    end
| None => ret tt
end.

(** [progressAPI?.start?.()] *)
Definition call_start (progressAPI : option ProgressAPI) : traced unit :=
match progressAPI with
| Some api =>
    match progress_start api with
    | Some start => invoke EvProgressStart start
    | None => ret tt
    end
| None => ret tt
end.

(** [opts.onProgress?.({loaded, total, percent})] *)
Definition call_onProgress (opts : RequestOptions) (info : ProgressInfo)
  : traced unit :=
match opt_onProgress opts with
| Some onProgress => invoke (EvOnProgress info) (onProgress info)
| None => ret tt
end.

(** The notifications of one chunk: [opts.onProgress?.(...)], then the
    percent forwarded to the progress channel. *)
Definition notify (opts : RequestOptions) (useProgressApi : bool)
  (progressAPI : option ProgressAPI) (total : option number) (loaded : nat)
  : traced unit :=
let percent := percent_of total loaded in
call_onProgress opts {| loaded := loaded; total := total; percent := percent |}
>> (if useProgressApi then call_set progressAPI percent else ret tt).

(** The [for (;;)] loop over [reader.read()], common to the three target
    representations: the notifications, chunk after chunk, up to the first
    one that throws. *)
Fixpoint pump (opts : RequestOptions) (useProgressApi : bool)
  (progressAPI : option ProgressAPI) (total : option number)
  (chunks : list bytes) (loaded : nat) : traced unit :=
match chunks with
| [] => ret tt
| value :: rest =>
    let loaded' := (loaded + length value)%nat in
    notify opts useProgressApi progressAPI total loaded'
    >> pump opts useProgressApi progressAPI total rest loaded'
end.

(** [textAcc += decoder.decode(value, {stream: true})], chunk after chunk,
    closed by the flush [textAcc += decoder.decode()]. *)
Fixpoint decodeChunks (P : Platform) (chunks : list bytes) (pending : bytes)
  (textAcc : string) : string :=
match chunks with
| [] => textAcc +:+ TextDecoder_flush P pending
| value :: rest =>
    let '(s, pending') := TextDecoder_decode P pending value in
    decodeChunks P rest pending' (textAcc +:+ s)
end.

(** The [finally] block. *)
Definition finally_done (useProgressApi : bool) (progressAPI : option ProgressAPI)
  : traced unit :=
if useProgressApi then
  match progressAPI with
  | Some api =>
      match progress_done api with
      | Some done => invoke EvProgressDone done
      | None => ret tt
      end
  | None => ret tt
  end
else ret tt.

(** The body of the [try] block once every chunk has been read. *)
Definition assemble (P : Platform) (res : Response) (parseAs : option ParseAs)
  (chunks : list bytes) : result Payload :=
match parseAs with
| Some as_arrayBuffer => Ok (PArrayBuffer (concat chunks))
| Some as_blob =>
    let type := Headers_get (res_headers res) "content-type" in
    Ok (PBlob chunks
          (Blob_type
             match type with
             | Some t => if truthy_string t then Some t else None
             | None => None
             end))
| _ =>
    let textAcc := decodeChunks P chunks [] EmptyString in
    match parseAs with
    | Some as_json =>
        if truthy_string textAcc then JSON_parse_or_throw P textAcc
        else Ok PUndefined
    | _ => Ok (PText textAcc)
    end
end.

(** The statements before the [try]: the [start] hook and the
    indeterminate signal, which may throw, then [rs.getReader()], which
    throws on a locked stream.  Inside the [try]: the chunks are read and
    notified, a read that rejects throws, and the value is assembled. *)
Definition parseWithReader (P : Platform) (res : Response)
  (parseAs : option ParseAs) (opts : RequestOptions) (useProgressApi : bool)
  (progressAPI : option ProgressAPI) : list event * result Payload :=
match res_body res with
| None => ([], fallbackParse P res parseAs)
| Some rs =>
    let total :=
      match Headers_get (res_headers res) "content-length" with
      | Some totalHeader =>
          if truthy_string totalHeader
          then Some (Number_of_string P totalHeader) else None
      | None => None
      end in
    let started : traced unit :=
      if useProgressApi then
        call_start progressAPI
        >> (if match total with Some t => truthy t | None => false end
            then ret tt else call_set progressAPI None)
      else ret tt in
    let getReader : traced unit :=
      if rs_locked rs then ([], Throw stream_is_locked) else ret tt in
    started >> getReader
    >> try_finally
         (pump opts useProgressApi progressAPI total (rs_chunks rs) 0
          >> ([], match rs_end rs with
                  | Errored e => Throw e
                  | Closed => assemble P res parseAs (rs_chunks rs)
                  end))
         (finally_done useProgressApi progressAPI)
end.

End Reader.
Export Reader.

(** ** src/core/url.ts *)

Module Url.

Section WithPlatform.
Variable P : Platform.

Definition invalid_url : JsError :=
{| err_name := "TypeError"; err_message := "Invalid URL" |}.

Definition ensureTrailingSlash (base : string) : result (URL P) :=
match URL_new P base None with
| None => Throw invalid_url
| Some u =>
    if endsWith_slash (URL_pathname P u) then Ok u
    else Ok (URL_set_pathname P u (URL_pathname P u +:+ "/"))
end.

Definition isAbsoluteUrl (input : string) : bool :=
match URL_new P input None with Some _ => true | None => false end.

(** [String(v)] of a query parameter; [None] for [null] and [undefined],
    which are skipped. *)
Definition param_string (v : ParamValue) : option string :=
match v with
| ParamString s => Some s
| ParamNumber n => Some (String_of_number P n)
| ParamBoolean true => Some "true"
| ParamBoolean false => Some "false"
| ParamNull | ParamUndefined => None
end.

Definition set_params (u : URL P) (params : option (list (string * ParamValue)))
  : URL P :=
match params with
| None => u
| Some entries =>
    fold_left
      (fun u kv =>
         match param_string kv.2 with
         | Some s => URL_searchParams_set P u kv.1 s
         | None => u
         end)
      entries u
end.

Definition no_origin : JsError :=
{| err_name := "Error";
   err_message := "Relative URL provided but no baseUrl or defaultOrigin configured, and no window.location.origin available." |}.

Definition buildUrl (baseUrl : option string) (path : string)
  (params : option (list (string * ParamValue))) (defaultOrigin : option string)
  : result (URL P) :=
if isAbsoluteUrl path then
  match URL_new P path None with
  | Some url => Ok (set_params url params)
  | None => Throw invalid_url
  end
else
  let origin := nullish baseUrl (nullish defaultOrigin (window_location_origin P)) in
  match origin with
  | None => Throw no_origin
  | Some o =>
      if truthy_string o then
        match ensureTrailingSlash o with
        | Throw e => Throw e
        | Ok base =>
            let cleanPath := if startsWith "/" path then slice1 path else path in
            match URL_new P cleanPath (Some (URL_toString P base)) with
            | Some url => Ok (set_params url params)
            | None => Throw invalid_url
            end
        end
      else Throw no_origin
  end.

End WithPlatform.

End Url.
Export Url.

(** ** src/index.ts *)

Module Index.

Definition DEFAULT_METHOD : HttpMethod := GET.
Definition DEFAULT_BACKOFF_BASE : number := of_Z 250.
Definition DEFAULT_MAX_DELAY : number := of_Z 30000.
Definition DEFAULT_RESPECT_RETRY_AFTER_HEADER : bool := true.
Definition DEFAULT_RETRY_METHODS : list HttpMethod := [GET; OPTIONS; HEAD].

(** The surroundings of one logical call: the transport (its [n]-th
    invocation, counted from 0), the clock read before the loop and at the
    top of every attempt, and what [computeDelay] reads after an attempt. *)
Record World := {
  fetchImplementation : nat -> string -> RequestInit -> result Response;
  startedAt : Z;
  clock : nat -> Z;
  ambient : nat -> Ambient;
}.

(** The instance that [createCall] returns: its configuration and the
    [internalToken] slot of the closure. *)
Record Call := {
  config : CallConfig;
  internalToken : option string;
}.

Definition createCall (config : CallConfig) : Call :=
{| config := config;
   internalToken :=
     match cfg_token config with
     | Some (TokenString s) => Some s
     | _ => None
     end |}.

(** [token.set], [token.get], [token.clear] *)
Definition token_set (t : option string) (c : Call) : Call :=
{| config := config c; internalToken := t |}.

Definition token_get (c : Call) : option string := internalToken c.

Definition token_clear (c : Call) : Call :=
{| config := config c; internalToken := None |}.

(** How a call settles: it resolves to a result, rejects with a
    [CallError], or rejects with another error. *)
Inductive Settled :=
| Resolved (r : CallResult)
| Rejected (e : CallError)
| RejectedWith (e : JsError).

(** One iteration of the loop either [continue]s or leaves the function. *)
Inductive Iteration :=
| Again (evs : list event)
| Leave (evs : list event) (s : Settled).

Definition EMPTY_ON : OnStatus := {| once := None; handlers := ∅ |}.

Definition EMPTY_RETRY : RetryConfig :=
{| onNetworkError := None; onParsingError := None; onStatus := None;
   rc_maxDelay := None; rc_backoffBase := None;
   rc_respectRetryAfterHeader := None; rc_maxOverallTime := None;
   rc_methods := None |}.

Definition resolve_token_value (t : Token) : result (option string) :=
match t with
| TokenString s => Ok (Some s)
| TokenFunction (TokenReturns r) => Ok r
| TokenFunction (TokenThrows e) => Throw e
end.

Section Request.
Variable P : Platform.
Variable W : World.
Variable self : Call.
Variable url : string.
Variable opts : RequestOptions.

Definition method : HttpMethod :=
match opt_method opts with Some m => m | None => DEFAULT_METHOD end.

Definition resolveToken : result (option string) :=
match opt_token opts with
| Some callToken => resolve_token_value callToken
| None =>
    match internalToken self with
    | Some t => Ok (Some t)
    | None =>
        match cfg_token (config self) with
        | Some t => resolve_token_value t
        | None => Ok None
        end
    end
end.

(** [new Headers(config.headers ?? {})], then [headers.set(k, v)] for the
    entries of [opts.headers]: an illegal name or value throws, outside
    every [catch]. *)
Definition new_headers : result (gmap string string) :=
match
  Headers_of_record
    (match cfg_headers (config self) with Some r => r | None => [] end)
with
| Throw e => Throw e
| Ok headers =>
    match opt_headers opts with
    | Some entries => Headers_set_all headers entries
    | None => Ok headers
    end
end.

(** The headers once they are built. *)
Definition merged_headers : gmap string string :=
match new_headers with
| Ok headers => headers
| Throw _ => ∅
end.

(** The bearer token, unless an authorization header is already there.
    The [try] block holds the resolution of the token and the [set]: what
    either of them throws is swallowed, and the headers stay as they are. *)
Definition authorized_headers : gmap string string :=
let headers := merged_headers in
if Headers_has headers "authorization" then headers
else
  match resolveToken with
  | Ok (Some t) =>
      if truthy_string t then
        match Headers_set headers "authorization" ("Bearer " +:+ t) with
        | Ok headers' => headers'
        | Throw _ => headers
        end
      else headers
  | Ok None => headers
  | Throw _ => headers
  end.

(** [const finalUrl = buildUrl(...)], which is reached once the headers
    are built: what the [Headers] constructor or a [set] throws leaves
    [request] before. *)
Definition finalUrl : result (URL P) :=
match new_headers with
| Throw e => Throw e
| Ok _ =>
    buildUrl P (cfg_baseUrl (config self)) url (opt_params opts)
      (cfg_defaultOrigin (config self))
end.

(** Headers and body as they stand when the loop begins.  (The content
    type is a legal name with a legal value: this [set] does not throw.) *)
Definition baseHeaders : gmap string string :=
match opt_json opts with
| Some _ =>
    if Headers_has authorized_headers "content-type" then authorized_headers
    else
      match Headers_set authorized_headers "content-type" "application/json" with
      | Ok headers => headers
      | Throw _ => authorized_headers
      end
| None => authorized_headers
end.

Definition baseBody : option BodyInit :=
match opt_json opts with
| Some j => Some (BodyString (JSON_stringify P j))
| None => opt_body opts
end.

Definition suppress : bool :=
match nullish (opt_suppressError opts) (cfg_suppressError (config self)) with
| Some b => b
| None => false
end.

Definition localOn : OnStatus :=
match opt_on opts with Some o => o | None => EMPTY_ON end.

Definition globalOn : OnStatus :=
match cfg_on (config self) with Some o => o | None => EMPTY_ON end.

Definition effectiveOnce : bool :=
match nullish (once localOn) (once globalOn) with
| Some b => b
| None => false
end.

Definition configRetry : RetryConfig :=
match cfg_retry (config self) with Some r => r | None => EMPTY_RETRY end.

Definition callDecision : option RetryDecision :=
match opt_retry opts with
| Some (RetryCallWrapper d _ _ _) => Some d
| Some (RetryCallDecision d) => Some d
| None => None
end.

Definition backoffBase : number :=
match rc_backoffBase configRetry with Some b => b | None => DEFAULT_BACKOFF_BASE end.

Definition configMaxDelay : number :=
match rc_maxDelay configRetry with Some d => d | None => DEFAULT_MAX_DELAY end.

Definition respectRetryAfterHeader : bool :=
match opt_retry opts with
| Some (RetryCallWrapper _ (Some b) _ _) => b
| _ =>
    match rc_respectRetryAfterHeader configRetry with
    | Some b => b
    | None => DEFAULT_RESPECT_RETRY_AFTER_HEADER
    end
end.

Definition maxDelay : number :=
match opt_retry opts with
| Some (RetryCallWrapper _ _ (Some d) _) => d
| _ => configMaxDelay
end.

Definition maxOverallTime : option number :=
match opt_retry opts with
| Some (RetryCallWrapper _ _ _ (Some t)) => Some t
| _ => rc_maxOverallTime configRetry
end.

Definition retryMethods : list HttpMethod :=
match rc_methods configRetry with Some l => l | None => DEFAULT_RETRY_METHODS end.

Definition methodAllowed : bool := existsb (HttpMethod_eqb method) retryMethods.

Definition isStreamBody : bool :=
match baseBody with Some (BodyReadableStream _) => true | _ => false end.

Definition canReplayBody : bool := negb isStreamBody.


(** *** The attempt loop *)

Variable finalUrlString : string.

Definition credentials : option string :=
nullish (opt_credentials opts) (cfg_credentials (config self)).

Definition init : RequestInit :=
{| init_method := method; init_headers := baseHeaders; init_body := baseBody;
   init_credentials := credentials |}.

(** [!maxOverallTime || (Date.now() - startedAt) < maxOverallTime] *)
Definition withinBudget (attempt : nat) : bool :=
match maxOverallTime with
| None => true
| Some m => negb (truthy m) || ltb (of_Z (clock W attempt - startedAt W)) m
end.

Definition within (attempt : nat) : bool :=
methodAllowed && canReplayBody && withinBudget attempt.

(** The parse target: the explicit one, else by the content type. *)
Definition parseAs (res : Response) : ParseAs :=
match opt_parseAs opts with
| Some p => p
| None =>
    let contentType :=
      match Headers_get (res_headers res) "content-type" with
      | Some c => c
      | None => EmptyString
      end in
    if includes_sub "application/json" contentType then as_json else as_text
end.

Definition useProgressApi : bool :=
match opt_useProgressApi opts with Some b => b | None => false end.

Definition wantsProgress : bool :=
match opt_onProgress opts with Some _ => true | None => false end
|| useProgressApi.

Definition parseBody (res : Response) : list event * result Payload :=
match parseAs res with
| as_response | as_stream => ([], fallbackParse P res (Some (parseAs res)))
| p =>
    if wantsProgress
    then parseWithReader P res (Some p) opts useProgressApi
           (cfg_progress (config self))
    else ([], fallbackParse P res (Some p))
end.

Definition delayFor (attempt : nat) (response : option Response)
  (delay : option number) : number :=
computeDelay P (ambient W attempt)
  {| da_attempt := attempt; da_maxDelay := maxDelay;
     da_respectRetryAfterHeader := respectRetryAfterHeader;
     da_backoffBase := backoffBase; da_response := response;
     da_delay := delay |}.

(** [h && (!effectiveOnce || !willRetryNext)] *)
Definition fires (willRetryNext : bool) : bool :=
negb effectiveOnce || negb willRetryNext.

(** [opts.mapResponse ? opts.mapResponse(data, res) : data]; the mapper is
    a callback, and may throw. *)
Definition mapped (data : Payload) (res : Response) : result Payload :=
match opt_mapResponse opts with
| Some f => f data res
| None => Ok data
end.

Definition onNetworkFailure (attempt : nat) (err : JsError) : Iteration :=
let decision := nullish callDecision (onNetworkError configRetry) in
let ad := allowAndDelayFromDecision decision attempt in
let willRetryNext := within attempt && allow ad in
let fired :=
  match pickSpecial "network-error" localOn globalOn with
  | Some h =>
      if fires willRetryNext
      then [EvNetworkHandler attempt h finalUrlString method err] else []
  | None => []
  end in
if willRetryNext then
  Again (fired ++ [EvRetry attempt (delayFor attempt None (delay ad))])
else if suppress then
  Leave fired
    (Resolved
       (filterFields
          {| content := Some PUndefined; status := Some 0%nat;
             statusText := Some "Network/Abort error";
             headers := Some ∅; Types.url := Some finalUrlString;
             ok := Some false; redirected := Some false;
             Types.method := Some method;
             error := Some {| error_message := "Network/Abort error";
                              error_cause := Some (CauseError err) |} |}
          opts (config self)))
else
  Leave fired
    (Rejected
       {| ce_message := "Network/Abort error"; ce_status := None;
          ce_data := None; ce_url := Some finalUrlString;
          ce_method := Some method; ce_response := None;
          ce_cause := Some err |}).

Definition onParseFailure (attempt : nat) (res : Response) (err : JsError)
  : Iteration :=
let decision := nullish callDecision (onParsingError configRetry) in
let ad := allowAndDelayFromDecision decision attempt in
let willRetryNext := within attempt && allow ad in
let fired :=
  match pickSpecial "parsing-error" localOn globalOn with
  | Some h =>
      if fires willRetryNext
      then [EvParsingHandler attempt h finalUrlString method res err] else []
  | None => []
  end in
if willRetryNext then
  Again (fired ++ [EvRetry attempt (delayFor attempt (Some res) (delay ad))])
else if suppress then
  Leave fired
    (Resolved
       (filterFields
          {| content := Some PUndefined; status := Some (res_status res);
             statusText :=
               Some (if truthy_string (res_statusText res)
                     then res_statusText res else "Response parse error");
             headers := Some (res_headers res); Types.url := Some finalUrlString;
             ok := Some false; redirected := Some (res_redirected res);
             Types.method := Some method;
             error := Some {| error_message := "Response parse error";
                              error_cause := Some (CauseError err) |} |}
          opts (config self)))
else
  Leave fired
    (Rejected
       {| ce_message := "Response parse error"; ce_status := None;
          ce_data := None; ce_url := Some finalUrlString;
          ce_method := Some method; ce_response := Some res;
          ce_cause := Some err |}).

(** [data && typeof data === 'object' && 'code' in data
     ? String(data.code) : undefined] *)
Definition error_code (data : Payload) : option string :=
match data with
| PJson (JObject fields) =>
    match json_field "code" fields with
    | Some v => Some (String_of_json P v)
    | None => None
    end
| _ => None
end.

Definition failure_message (res : Response) : string :=
"Request failed with " +:+ pretty (res_status res)
+:+ (if truthy_string (res_statusText res)
     then " " +:+ res_statusText res else EmptyString).

Definition handlerCall (attempt : nat) (h : handler) (res : Response)
  (data : Payload) : event :=
EvStatusHandler attempt h (res_status res) finalUrlString method res data.

(** The success path.  The mapper runs after the handler, outside every
    [catch]: what it throws rejects the call. *)
Definition onSuccess (attempt : nat) (res : Response) (data : Payload)
  : Iteration :=
let handler := pickStatusHandler (res_status res) localOn globalOn codeToName in
let fired :=
  match handler with
  | Some h => [handlerCall attempt h res data]
  | None => []
  end in
match mapped data res with
| Throw e => Leave fired (RejectedWith e)
| Ok content =>
    Leave fired
      (Resolved
         (filterFields
            {| Types.content := Some content; status := Some (res_status res);
               statusText := Some (res_statusText res);
               headers := Some (res_headers res);
               Types.url := Some finalUrlString;
               ok := Some (res_ok res); redirected := Some (res_redirected res);
               Types.method := Some method;
               error := None |}
            opts (config self)))
end.

Definition onStatusFailure (attempt : nat) (res : Response) (data : Payload)
  : Iteration :=
let handler := pickStatusHandler (res_status res) localOn globalOn codeToName in
let decision :=
  nullish callDecision (decisionFromStatus (res_status res) configRetry) in
let ad := allowAndDelayFromDecision decision attempt in
let willRetryNext := within attempt && allow ad in
let fired :=
  match handler with
  | Some h => if fires willRetryNext then [handlerCall attempt h res data] else []
  | None => []
  end in
if willRetryNext then
  Again (fired ++ [EvRetry attempt (delayFor attempt (Some res) (delay ad))])
else
  let message := failure_message res in
  if suppress then
    match mapped data res with
    | Throw e => Leave fired (RejectedWith e)
    | Ok content =>
        Leave fired
          (Resolved
             (filterFields
                {| Types.content := Some content;
                   status := Some (res_status res);
                   statusText := Some (res_statusText res);
                   headers := Some (res_headers res);
                   Types.url := Some finalUrlString;
                   ok := Some false; redirected := Some (res_redirected res);
                   Types.method := Some method;
                   error := Some {| error_message := message;
                                    error_cause :=
                                      match error_code data with
                                      | Some code => Some (CauseCode code)
                                      | None => None
                                      end |} |}
                opts (config self)))
    end
  else
    Leave fired
      (Rejected
         {| ce_message := message; ce_status := Some (res_status res);
            ce_data := Some data; ce_url := Some url;
            ce_method := Some method; ce_response := Some res;
            ce_cause := None |}).

Definition prepend (evs : list event) (it : Iteration) : Iteration :=
match it with
| Again evs' => Again (evs ++ evs')
| Leave evs' s => Leave (evs ++ evs') s
end.

(** The body of [while (true)] for the current value of [attempt]. *)
Definition attemptOnce (attempt : nat) : Iteration :=
prepend [EvFetch attempt finalUrlString init]
  match fetchImplementation W attempt finalUrlString init with
  | Throw err => onNetworkFailure attempt err
  | Ok res =>
      let '(reads, parsed) := parseBody res in
      prepend reads
        match parsed with
        | Throw err => onParseFailure attempt res err
        | Ok data =>
            if res_ok res then onSuccess attempt res data
            else onStatusFailure attempt res data
        end
  end.

(** [while (true)], with [attempt++; continue] as the recursive call. *)
Fixpoint attemptLoop (fuel : nat) (attempt : nat) : option (list event * Settled) :=
match fuel with
| O => None
| S fuel' =>
    match attemptOnce attempt with
    | Leave evs s => Some (evs, s)
    | Again evs =>
        match attemptLoop fuel' (S attempt) with
        | Some (evs', s) => Some (evs ++ evs', s)
        | None => None
        end
    end
end.

End Request.

(** [request(url, opts)]: the headers are built and the final URL is
    assembled first, and a failure of either rejects the call before any
    attempt. *)
Definition request (P : Platform) (W : World) (self : Call) (url : string)
  (opts : RequestOptions) (fuel : nat) : option (list event * Settled) :=
match finalUrl P self url opts with
| Throw e => Some ([], RejectedWith e)
| Ok u => attemptLoop P W self url opts (URL_toString P u) fuel 0
end.

End Index.
Export Index.

(** ** A small platform, for running the embedding on examples

    Text is ASCII, JSON knows its three literals, and a URL has the form
    [scheme://host/path?k=v&...] with nothing to escape. *)

Module TestPlatform.

Record url := {
  u_origin : string;
  u_path : string;
  u_query : list (string * string);
}.

(** [s] cut at the first occurrence of [sep]. *)
Definition cut (sep s : string) : string * option string :=
match String.index 0 sep s with
| Some i =>
    (String.substring 0 i s,
     Some (String.substring (i + String.length sep)
             (String.length s - i - String.length sep) s))
| None => (s, None)
end.

Fixpoint split_on (fuel : nat) (sep s : string) : list string :=
match fuel with
| O => [s]
| S fuel' =>
    match cut sep s with
    | (a, Some b) => a :: split_on fuel' sep b
    | (a, None) => [a]
    end
end.

Definition parse_query (q : string) : list (string * string) :=
map (fun kv => match cut "=" kv with (k, Some v) => (k, v) | (k, None) => (k, EmptyString) end)
    (split_on (String.length q) "&" q).

Definition is_alpha (c : ascii) : bool :=
let n := nat_of_ascii (lower_ascii c) in (97 <=? n)%nat && (n <=? 122)%nat.

Fixpoint all_alpha (s : string) : bool :=
match s with
| EmptyString => true
| String c s' => is_alpha c && all_alpha s'
end.

Definition path_and_query (s : string) : string * list (string * string) :=
match cut "?" s with
| (p, Some q) => (p, parse_query q)
| (p, None) => (p, [])
end.

Definition parse_absolute (input : string) : option url :=
match cut "://" input with
| (scheme, Some rest) =>
    if truthy_string scheme && all_alpha scheme then
      let '(hostpath, query) := path_and_query rest in
      match cut "/" hostpath with
      | (host, Some p) =>
          Some {| u_origin := scheme +:+ "://" +:+ host; u_path := "/" +:+ p;
                  u_query := query |}
      | (host, None) =>
          Some {| u_origin := scheme +:+ "://" +:+ host; u_path := "/";
                  u_query := query |}
      end
    else None
| (_, None) => None
end.

(** The directory of a path: everything up to its last slash. *)
Fixpoint dirname (s : string) : string :=
match s with
| EmptyString => EmptyString
| String c s' =>
    if includes_sub "/" s' then String c (dirname s')
    else if Ascii.eqb c "/"%char then "/" else EmptyString
end.

Definition url_new (input : string) (base : option string) : option url :=
match parse_absolute input with
| Some u => Some u
| None =>
    match base with
    | None => None
    | Some b =>
        match parse_absolute b with
        | None => None
        | Some bu =>
            let '(p, query) := path_and_query input in
            Some {| u_origin := u_origin bu;
                    u_path := if startsWith "/" p then p
                              else dirname (u_path bu) +:+ p;
                    u_query := query |}
        end
    end
end.

Fixpoint set_first (k v : string) (q : list (string * string))
  : list (string * string) :=
match q with
| [] => [(k, v)]
| (k', v') :: rest =>
    if String.eqb k k'
    then (k, v) :: List.filter (fun kv => negb (String.eqb k kv.1)) rest
    else (k', v') :: set_first k v rest
end.

Fixpoint join_query (q : list (string * string)) : string :=
match q with
| [] => EmptyString
| [(k, v)] => k +:+ "=" +:+ v
| (k, v) :: rest => k +:+ "=" +:+ v +:+ "&" +:+ join_query rest
end.

Definition url_toString (u : url) : string :=
u_origin u +:+ u_path u
+:+ match u_query u with [] => EmptyString | q => "?" +:+ join_query q end.

Definition ascii_text (b : bytes) : string :=
String.string_of_list_byte b.

Definition json_literal (s : string) : option json :=
if String.eqb s "null" then Some JNull
else if String.eqb s "true" then Some (JBool true)
else if String.eqb s "false" then Some (JBool false)
else None.

Definition json_text (j : json) : string :=
match j with
| JNull => "null"
| JBool true => "true"
| JBool false => "false"
| JString s => s
| _ => "[object Object]"
end.

Definition integer_text (n : number) : string :=
match n with
| Fin q => pretty (Qfloor q)
| PInf => "Infinity"
| NInf => "-Infinity"
| NaN => "NaN"
end.

Definition decimal_number (s : string) : number :=
if only_digits s then Number_of_digits s else NaN.

Definition platform : Platform :=
{| Date_parse := fun _ => NaN;
   Number_of_string := decimal_number;
   String_of_number := integer_text;
   String_of_json := json_text;
   JSON_parse := json_literal;
   JSON_stringify := json_text;
   TextDecoder_decode := fun pending chunk => (ascii_text (pending ++ chunk), []);
   TextDecoder_flush := ascii_text;
   FormData_parse := fun _ _ => None;
   MIME_type_of :=
     fun type => match type with Some t => toLowerCase t | None => EmptyString end;
   URL := url;
   URL_new := url_new;
   URL_pathname := u_path;
   URL_set_pathname :=
     fun u p => {| u_origin := u_origin u; u_path := p; u_query := u_query u |};
   URL_searchParams_set :=
     fun u k v =>
       {| u_origin := u_origin u; u_path := u_path u;
          u_query := set_first k v (u_query u) |};
   URL_toString := url_toString;
   window_location_origin := None |}.

End TestPlatform.

(** ** Notions of the specification, and example inputs *)

Module Spec.

(** The first tier that holds a handler. *)
Fixpoint first_some {A} (tiers : list (option A)) : option A :=
match tiers with
| [] => None
| Some a :: _ => Some a
| None :: rest => first_some rest
end.

(** [m[name]] for the symbolic name of the status, if it has one. *)
Definition named {A} (m : gmap string A) (status : nat) : option A :=
match codeToName !! status with
| Some name => m !! name
| None => None
end.

(** The six tiers of the handler resolver, in the order of the
    specification: per-request numeric code, per-request symbolic name,
    global numeric code, global symbolic name, per-request range wildcard,
    global range wildcard. *)
Definition six_tiers (status : nat) (local global : OnStatus)
  : list (option handler) :=
[ handlers local !! pretty status;
  named (handlers local) status;
  handlers global !! pretty status;
  named (handlers global) status;
  handlers local !! statusToWildcard status;
  handlers global !! statusToWildcard status ].

(** The outcome of an attempt (the [CallOutcome] of the specification). *)
Inductive Outcome :=
| Success (res : Response) (data : Payload)
| NetworkFailure (err : JsError)
| ParseFailure (res : Response) (err : JsError)
| StatusFailure (res : Response) (data : Payload).

Definition is_failure (o : Outcome) : bool :=
match o with Success _ _ => false | _ => true end.

Section Call.
Variable P : Platform.
Variable W : World.
Variable self : Call.
Variable url : string.
Variable opts : RequestOptions.
Variable finalUrlString : string.

(** How the attempt numbered [attempt] turns out. *)
Definition outcome (attempt : nat) : Outcome :=
match fetchImplementation W attempt finalUrlString (init P self opts) with
| Throw err => NetworkFailure err
| Ok res =>
    match (parseBody P self opts res).2 with
    | Throw err => ParseFailure res err
    | Ok data => if res_ok res then Success res data else StatusFailure res data
    end
end.

(** The retry decision that governs an outcome: the per-call decision if
    there is one, else the decision of the configuration for the channel. *)
Definition decisionFor (o : Outcome) : option RetryDecision :=
match o with
| Success _ _ => None
| NetworkFailure _ =>
    nullish (callDecision opts) (onNetworkError (configRetry self))
| ParseFailure _ _ =>
    nullish (callDecision opts) (onParsingError (configRetry self))
| StatusFailure res _ =>
    nullish (callDecision opts)
      (decisionFromStatus (res_status res) (configRetry self))
end.

(** What the loop does with an outcome. *)
Definition react (attempt : nat) (o : Outcome) : Iteration :=
match o with
| Success res data => onSuccess self opts finalUrlString attempt res data
| NetworkFailure err => onNetworkFailure P W self opts finalUrlString attempt err
| ParseFailure res err =>
    onParseFailure P W self opts finalUrlString attempt res err
| StatusFailure res data =>
    onStatusFailure P W self url opts finalUrlString attempt res data
end.

(** Is a retry granted after the attempt numbered [attempt]? *)
Definition willRetryNext (attempt : nat) : bool :=
within P W self opts attempt
&& allow (allowAndDelayFromDecision (decisionFor (outcome attempt)) attempt).

End Call.

(** The transport invocations of a trace, and the attempts at which a retry
    was granted. *)
Definition transport_calls (tr : list event) : nat := count is_fetch tr.

Definition retry_attempts (tr : list event) : list nat :=
omap (fun e => match e with EvRetry a _ => Some a | _ => None end) tr.

Definition handler_calls (tr : list event) : list event :=
List.filter is_any_handler_call tr.

Definition fetch_init (e : event) : option (string * RequestInit) :=
match e with EvFetch _ u i => Some (u, i) | _ => None end.

(** What the transport was given, invocation after invocation. *)
Definition transport_inputs (tr : list event) : list (string * RequestInit) :=
omap fetch_init tr.

(** *** Example inputs *)

Definition noConfig : CallConfig :=
{| cfg_baseUrl := None; cfg_headers := None; cfg_defaultOrigin := None;
   cfg_progress := None; cfg_suppressError := None; cfg_returnFields := None;
   cfg_credentials := None; cfg_token := None; cfg_on := None;
   cfg_retry := None |}.

Definition noOptions : RequestOptions :=
{| opt_method := None; opt_headers := None; opt_params := None;
   opt_json := None; opt_body := None; opt_parseAs := None;
   opt_mapResponse := None; opt_onProgress := None;
   opt_useProgressApi := None; opt_suppressError := None;
   opt_returnFields := None; opt_credentials := None; opt_token := None;
   opt_on := None; opt_retry := None |}.

(** A body-less response with the given status; [ok] is derived from the
    status as the [Response] class does. *)
Definition respond (st : nat) : Response :=
{| res_status := st; res_ok := (200 <=? st)%nat && (st <=? 299)%nat;
   res_statusText := EmptyString; res_headers := ∅; res_redirected := false;
   res_body := None |}.

Definition quiet : Ambient := {| Date_now := 0; Math_random := 0 |}.

(** A world whose transport answers its [n]-th invocation with [f n]. *)
Definition world (f : nat -> result Response) : World :=
{| fetchImplementation := fun n _ _ => f n; startedAt := 0;
   clock := fun _ => 0%Z; ambient := fun _ => quiet |}.

Definition statusPolicy (key : string) (d : RetryDecision) : RetryConfig :=
{| onNetworkError := None; onParsingError := None;
   onStatus := Some {[ key := d ]};
   rc_maxDelay := None; rc_backoffBase := None;
   rc_respectRetryAfterHeader := None; rc_maxOverallTime := None;
   rc_methods := None |}.

(** A status registered under its code and under its wildcard, per request
    and globally. *)
Definition bothLocal : OnStatus :=
{| once := None; handlers := {[ "500" := 1%nat; "5xx" := 2%nat ]} |}.

Definition bothGlobal : OnStatus :=
{| once := None; handlers := {[ "500" := 3%nat; "5xx" := 4%nat ]} |}.

Definition delayArgs (attempt : nat) (maxDelay backoffBase : number)
  (delay : option number) : DelayArgs :=
{| da_attempt := attempt; da_maxDelay := maxDelay;
   da_respectRetryAfterHeader := true; da_backoffBase := backoffBase;
   da_response := None; da_delay := delay |}.

Definition halfway : Ambient := {| Date_now := 0; Math_random := 1 # 2 |}.

(** An event that is neither a transport invocation, nor a granted retry,
    nor a handler invocation. *)
Definition quiet_event (e : event) : Prop :=
is_fetch e = false /\ is_retry e = false /\ is_any_handler_call e = false.

(** The shape of what an outcome adds to the trace: a retry is granted and
    recorded last, or the loop is left; nothing else is a transport
    invocation or a granted retry. *)
Inductive reaction (a : nat) : bool -> Iteration -> Prop :=
| reaction_again fired d :
    Forall (fun e => is_fetch e = false /\ is_retry e = false) fired ->
    reaction a true (Again (fired ++ [EvRetry a d]))
| reaction_leave fired s :
    Forall (fun e => is_fetch e = false /\ is_retry e = false) fired ->
    reaction a false (Leave fired s).

Definition settled_of (it : Iteration) : option Settled :=
match it with
| Leave _ s => Some s
| Again _ => None
end.

Definition events_of (it : Iteration) : list event :=
match it with
| Leave evs _ => evs
| Again evs => evs
end.

(** Does the settlement of a call carry the status [st]? *)
Definition carries_status (s : Settled) (st : nat) : Prop :=
match s with
| Resolved r => status r = Some st
| Rejected e => ce_status e = Some st
| RejectedWith _ => False
end.

(** Scenario A: the policy [{500: {attempts: 2}}], everything else left
    at its default; the options only choose whether errors are
    suppressed. *)
Definition scenarioA : CallConfig :=
{| cfg_baseUrl := None; cfg_headers := None; cfg_defaultOrigin := None;
   cfg_progress := None; cfg_suppressError := None; cfg_returnFields := None;
   cfg_credentials := None; cfg_token := None; cfg_on := None;
   cfg_retry := Some (statusPolicy "500" (DObject (of_nat 2) None)) |}.

Definition suppressing (b : option bool) : RequestOptions :=
{| opt_method := None; opt_headers := None; opt_params := None;
   opt_json := None; opt_body := None; opt_parseAs := None;
   opt_mapResponse := None; opt_onProgress := None;
   opt_useProgressApi := None; opt_suppressError := b;
   opt_returnFields := None; opt_credentials := None; opt_token := None;
   opt_on := None; opt_retry := None |}.

(** Scenario B: the policy [{500: true}], a handler (numbered 1) registered
    for status 500 and the [once] flag set; method GET, no body. *)
Definition scenarioB : CallConfig :=
{| cfg_baseUrl := None; cfg_headers := None; cfg_defaultOrigin := None;
   cfg_progress := None; cfg_suppressError := None; cfg_returnFields := None;
   cfg_credentials := None; cfg_token := None;
   cfg_on := Some {| once := Some true; handlers := {[ "500" := 1%nat ]} |};
   cfg_retry := Some (statusPolicy "500" (DBoolean true)) |}.

(** A transport that answers 500 first and 200 afterwards. *)
Definition failsOnce : World :=
world (fun n => match n with O => Ok (respond 500) | _ => Ok (respond 200) end).

(** The README configuration of the terminal-attempt firing: one retry on
    500, a handler (numbered 1) for 500, and [once]. *)
Definition onceConfig : CallConfig :=
{| cfg_baseUrl := None; cfg_headers := None; cfg_defaultOrigin := None;
   cfg_progress := None; cfg_suppressError := None; cfg_returnFields := None;
   cfg_credentials := None; cfg_token := None;
   cfg_on := Some {| once := Some true; handlers := {[ "500" := 1%nat ]} |};
   cfg_retry := Some (statusPolicy "500" (DObject (of_nat 1) None)) |}.



(** The streamed response of the test-suite whose JSON is malformed. *)
Definition invalidJson : Response :=
{| res_status := 200; res_ok := true; res_statusText := EmptyString;
   res_headers :=
     {[ "content-type" := "application/json"; "content-length" := "12" ]};
   res_redirected := false;
   res_body :=
     Some {| rs_chunks := [String.list_byte_of_string "invalid";
                           String.list_byte_of_string "-json"];
             rs_end := Closed; rs_locked := false |} |}.

(** A response whose body stream is locked: a reader was acquired on it
    before it reached the client. *)
Definition lockedBody : Response :=
{| res_status := 200; res_ok := true; res_statusText := EmptyString;
   res_headers := {[ "content-type" := "text/plain" ]};
   res_redirected := false;
   res_body :=
     Some {| rs_chunks := [String.list_byte_of_string "hello"];
             rs_end := Closed; rs_locked := true |} |}.

Definition allHooks : ProgressAPI :=
{| progress_start := Some (Ok tt); progress_set := Some (fun _ => Ok tt);
   progress_done := Some (Ok tt) |}.

(** *** How a failure is reported *)












(** The quick start of the README: a base URL and two retries on 500;
    the request carries a query parameter. *)
Definition quickStart : CallConfig :=
{| cfg_baseUrl := Some "https://api.example.com"; cfg_headers := None;
   cfg_defaultOrigin := None; cfg_progress := None; cfg_suppressError := None;
   cfg_returnFields := None; cfg_credentials := None; cfg_token := None;
   cfg_on := None;
   cfg_retry := Some (statusPolicy "500" (DObject (of_nat 2) None)) |}.

Definition shoes : RequestOptions :=
{| opt_method := None; opt_headers := None;
   opt_params := Some [("q", ParamString "shoes")];
   opt_json := None; opt_body := None; opt_parseAs := None;
   opt_mapResponse := None; opt_onProgress := None;
   opt_useProgressApi := None; opt_suppressError := None;
   opt_returnFields := None; opt_credentials := None; opt_token := None;
   opt_on := None; opt_retry := None |}.

(** A token that holds a line feed. *)
Definition twoLines : string := String "a" (String "010" (String "b" EmptyString)).

(** A client configured with a string token. *)
Definition withToken (t : string) : CallConfig :=
{| cfg_baseUrl := None; cfg_headers := None; cfg_defaultOrigin := None;
   cfg_progress := None; cfg_suppressError := None; cfg_returnFields := None;
   cfg_credentials := None; cfg_token := Some (TokenString t); cfg_on := None;
   cfg_retry := None |}.

(** The [authorization] header that the transport was given, invocation
    after invocation. *)
Definition authorizations (tr : list event) : list (option string) :=
map (fun ui => Headers_get (init_headers ui.2) "authorization")
    (transport_inputs tr).

(** *** Inputs of the repository's test-suite *)

Definition built (P : Platform) (r : result (URL P)) : option string :=
match r with
| Ok u => Some (URL_toString P u)
| Throw _ => None
end.

(** [new Response(body, {status, headers})] with the body in chunks. *)
Definition streamed (st : nat) (hdrs : list (string * string))
  (chunks : list string) : Response :=
{| res_status := st; res_ok := (200 <=? st)%nat && (st <=? 299)%nat;
   res_statusText := EmptyString;
   res_headers :=
     match Headers_of_record hdrs with Ok h => h | Throw _ => ∅ end;
   res_redirected := false;
   res_body :=
     Some {| rs_chunks := map String.list_byte_of_string chunks;
             rs_end := Closed; rs_locked := false |} |}.

Definition always (res : Response) : World := world (fun _ => Ok res).

Definition progressConfig : CallConfig :=
{| cfg_baseUrl := None; cfg_headers := None; cfg_defaultOrigin := None;
   cfg_progress := Some allHooks; cfg_suppressError := None;
   cfg_returnFields := None; cfg_credentials := None; cfg_token := None;
   cfg_on := None; cfg_retry := None |}.

Definition textWithProgress : RequestOptions :=
{| opt_method := Some GET; opt_headers := None; opt_params := None;
   opt_json := None; opt_body := None; opt_parseAs := Some as_text;
   opt_mapResponse := None; opt_onProgress := Some (fun _ => Ok tt);
   opt_useProgressApi := Some true; opt_suppressError := None;
   opt_returnFields := None; opt_credentials := None; opt_token := None;
   opt_on := None; opt_retry := None |}.

Definition loaded_values (tr : list event) : list nat :=
omap (fun e => match e with EvOnProgress i => Some (loaded i) | _ => None end) tr.

Definition last_percent (tr : list event) : option number :=
last (omap (fun e => match e with EvOnProgress i => percent i | _ => None end) tr).

Definition resolved_content (r : option (list event * Settled)) : option Payload :=
match r with
| Some (_, Resolved res) => content res
| _ => None
end.

Definition rejected_message (r : option (list event * Settled)) : option string :=
match r with
| Some (_, Rejected e) => Some (ce_message e)
| _ => None
end.

End Spec.
Export Spec.

(** ** The rest of the client, and further notions *)

Module More.

(** [get], [post], [put], [patch], [delete] of the instance:
    [request(url, {...opts, method})]. *)
Definition with_method (m : HttpMethod) (opts : RequestOptions) : RequestOptions :=
{| opt_method := Some m; opt_headers := opt_headers opts;
   opt_params := opt_params opts; opt_json := opt_json opts;
   opt_body := opt_body opts; opt_parseAs := opt_parseAs opts;
   opt_mapResponse := opt_mapResponse opts;
   opt_onProgress := opt_onProgress opts;
   opt_useProgressApi := opt_useProgressApi opts;
   opt_suppressError := opt_suppressError opts;
   opt_returnFields := opt_returnFields opts;
   opt_credentials := opt_credentials opts; opt_token := opt_token opts;
   opt_on := opt_on opts; opt_retry := opt_retry opts |}.

Definition Call_get (P : Platform) (W : World) (self : Call) (url : string)
  (opts : RequestOptions) (fuel : nat) : option (list event * Settled) :=
request P W self url (with_method GET opts) fuel.

Definition Call_post (P : Platform) (W : World) (self : Call) (url : string)
  (opts : RequestOptions) (fuel : nat) : option (list event * Settled) :=
request P W self url (with_method POST opts) fuel.

Definition Call_put (P : Platform) (W : World) (self : Call) (url : string)
  (opts : RequestOptions) (fuel : nat) : option (list event * Settled) :=
request P W self url (with_method PUT opts) fuel.

Definition Call_patch (P : Platform) (W : World) (self : Call) (url : string)
  (opts : RequestOptions) (fuel : nat) : option (list event * Settled) :=
request P W self url (with_method PATCH opts) fuel.

Definition Call_delete (P : Platform) (W : World) (self : Call) (url : string)
  (opts : RequestOptions) (fuel : nat) : option (list event * Settled) :=
request P W self url (with_method DELETE opts) fuel.

(** The arguments of [computeDelay] with the response left out. *)
Definition without_response (a : DelayArgs) : DelayArgs :=
{| da_attempt := da_attempt a; da_maxDelay := da_maxDelay a;
   da_respectRetryAfterHeader := da_respectRetryAfterHeader a;
   da_backoffBase := da_backoffBase a; da_response := None;
   da_delay := da_delay a |}.

(** The [retry-after] header of the response handed to [computeDelay]. *)
Definition retry_after_header (a : DelayArgs) : option string :=
match da_response a with
| Some response => Headers_get (res_headers response) "retry-after"
| None => None
end.

(** A response that carries a [retry-after] header. *)
Definition retryLater (value : string) : Response :=
{| res_status := 503; res_ok := false; res_statusText := EmptyString;
   res_headers := {[ "retry-after" := value ]}; res_redirected := false;
   res_body := None |}.

Definition delayArgsFor (response : Response) (respect : bool)
  (delay : option number) : DelayArgs :=
{| da_attempt := 0; da_maxDelay := of_Z 30000;
   da_respectRetryAfterHeader := respect; da_backoffBase := of_Z 250;
   da_response := Some response; da_delay := delay |}.

(** The test platform with a [Date.parse] that understands one date, one
    second after the epoch. *)
Definition datedPlatform : Platform :=
{| Date_parse :=
     fun s => if String.eqb s "Thu, 01 Jan 1970 00:00:01 GMT" then of_Z 1000 else NaN;
   Number_of_string := Number_of_string TestPlatform.platform;
   String_of_number := String_of_number TestPlatform.platform;
   String_of_json := String_of_json TestPlatform.platform;
   JSON_parse := JSON_parse TestPlatform.platform;
   JSON_stringify := JSON_stringify TestPlatform.platform;
   TextDecoder_decode := TextDecoder_decode TestPlatform.platform;
   TextDecoder_flush := TextDecoder_flush TestPlatform.platform;
   FormData_parse := FormData_parse TestPlatform.platform;
   MIME_type_of := MIME_type_of TestPlatform.platform;
   URL := TestPlatform.url;
   URL_new := TestPlatform.url_new;
   URL_pathname := TestPlatform.u_path;
   URL_set_pathname := URL_set_pathname TestPlatform.platform;
   URL_searchParams_set := URL_searchParams_set TestPlatform.platform;
   URL_toString := TestPlatform.url_toString;
   window_location_origin := None |}.

(** The result object without any field. *)
Definition emptyResult : CallResult :=
{| content := None; status := None; statusText := None; headers := None;
   Types.url := None; ok := None; redirected := None; Types.method := None;
   error := None |}.

(** Options that select the given result fields. *)
Definition selecting (fields : option (list ReturnFieldsEnum)) : RequestOptions :=
{| opt_method := None; opt_headers := None; opt_params := None;
   opt_json := None; opt_body := None; opt_parseAs := None;
   opt_mapResponse := None; opt_onProgress := None;
   opt_useProgressApi := None; opt_suppressError := None;
   opt_returnFields := fields; opt_credentials := None; opt_token := None;
   opt_on := None; opt_retry := None |}.

(** A configuration that selects no result field. *)
Definition noFields : CallConfig :=
{| cfg_baseUrl := None; cfg_headers := None; cfg_defaultOrigin := None;
   cfg_progress := None; cfg_suppressError := None;
   cfg_returnFields := Some []; cfg_credentials := None; cfg_token := None;
   cfg_on := None; cfg_retry := None |}.

Definition fullResult : CallResult :=
{| content := Some (PText "body"); status := Some 200%nat;
   statusText := Some "OK"; headers := Some ∅;
   Types.url := Some "https://api.test/x"; ok := Some true;
   redirected := Some false; Types.method := Some GET; error := None |}.

(** The progress callback of the options returns whenever it is called. *)
Definition onProgress_returns (opts : RequestOptions) : Prop :=
forall onProgress info,
  opt_onProgress opts = Some onProgress -> onProgress info = Ok tt.

(** The [start] and [set] hooks of the progress channel return whenever
    they are called. *)
Definition hooks_return (progressAPI : option ProgressAPI) : Prop :=
forall api, progressAPI = Some api ->
  (forall start, progress_start api = Some start -> start = Ok tt)
  /\ (forall set p, progress_set api = Some set -> set p = Ok tt).

(** The [done] hook of the progress channel returns when it is called. *)
Definition done_returns (progressAPI : option ProgressAPI) : Prop :=
forall api done,
  progressAPI = Some api -> progress_done api = Some done -> done = Ok tt.

(** The [ProgressInfo] objects handed to [opts.onProgress], in order. *)
Definition onProgress_infos (tr : list event) : list ProgressInfo :=
omap (fun e => match e with EvOnProgress i => Some i | _ => None end) tr.

Definition with_parseAs (p : ParseAs) (opts : RequestOptions) : RequestOptions :=
{| opt_method := opt_method opts; opt_headers := opt_headers opts;
   opt_params := opt_params opts; opt_json := opt_json opts;
   opt_body := opt_body opts; opt_parseAs := Some p;
   opt_mapResponse := opt_mapResponse opts;
   opt_onProgress := opt_onProgress opts;
   opt_useProgressApi := opt_useProgressApi opts;
   opt_suppressError := opt_suppressError opts;
   opt_returnFields := opt_returnFields opts;
   opt_credentials := opt_credentials opts; opt_token := opt_token opts;
   opt_on := opt_on opts; opt_retry := opt_retry opts |}.

(** [v !== undefined && v !== null] *)
Definition is_present (v : ParamValue) : bool :=
match v with
| ParamNull | ParamUndefined => false
| _ => true
end.

Definition present_params (params : option (list (string * ParamValue)))
  : option (list (string * ParamValue)) :=
option_map (List.filter (fun kv => is_present kv.2)) params.

(** Options that carry a token and nothing else. *)
Definition tokenOptions (t : option Token) : RequestOptions :=
{| opt_method := None; opt_headers := None; opt_params := None;
   opt_json := None; opt_body := None; opt_parseAs := None;
   opt_mapResponse := None; opt_onProgress := None;
   opt_useProgressApi := None; opt_suppressError := None;
   opt_returnFields := None; opt_credentials := None; opt_token := t;
   opt_on := None; opt_retry := None |}.

(** A configuration with headers and nothing else. *)
Definition headerConfig (hdrs : list (string * string)) : CallConfig :=
{| cfg_baseUrl := None; cfg_headers := Some hdrs; cfg_defaultOrigin := None;
   cfg_progress := None; cfg_suppressError := None; cfg_returnFields := None;
   cfg_credentials := None; cfg_token := Some (TokenString "config-token");
   cfg_on := None; cfg_retry := None |}.

(** Options with headers, a JSON value and a body. *)
Definition sending (hdrs : option (list (string * string))) (j : option json)
  (b : option BodyInit) : RequestOptions :=
{| opt_method := Some POST; opt_headers := hdrs; opt_params := None;
   opt_json := j; opt_body := b; opt_parseAs := None;
   opt_mapResponse := None; opt_onProgress := None;
   opt_useProgressApi := None; opt_suppressError := None;
   opt_returnFields := None; opt_credentials := None; opt_token := None;
   opt_on := None; opt_retry := None |}.

Definition provider_failed : JsError :=
{| err_name := "Error"; err_message := "no token" |}.

(** A transport that always answers with [res], under a clock that
    advances by [step] milliseconds from one attempt to the next. *)
Definition ticking (step : Z) (res : Response) : World :=
{| fetchImplementation := fun _ _ _ => Ok res;
   startedAt := 0;
   clock := fun k => (step * Z.of_nat k)%Z;
   ambient := fun _ => quiet |}.

(** [attempts] retries on every 5xx, within an overall time budget. *)
Definition budgeted (attempts : nat) (budget : number) : CallConfig :=
{| cfg_baseUrl := None; cfg_headers := None; cfg_defaultOrigin := None;
   cfg_progress := None; cfg_suppressError := Some true;
   cfg_returnFields := None; cfg_credentials := None; cfg_token := None;
   cfg_on := Some {| once := None; handlers := {[ "5xx" := 7%nat ]} |};
   cfg_retry :=
     Some {| onNetworkError := None; onParsingError := None;
             onStatus := Some {[ "5xx" := DObject (of_nat attempts) None ]};
             rc_maxDelay := None; rc_backoffBase := None;
             rc_respectRetryAfterHeader := None;
             rc_maxOverallTime := Some budget;
             rc_methods := None |} |}.

(** A call to one of the hooks of the progress channel. *)
Definition is_progress_hook (e : event) : bool :=
match e with
| EvProgressStart | EvProgressSet _ | EvProgressDone => true
| _ => false
end.

Definition is_onProgress (e : event) : bool :=
match e with EvOnProgress _ => true | _ => false end.

End More.
Export More.

(** * Properties *)

(** ** The embedding on the repository's tests *)

(** tests of [buildUrl] *)
Example buildUrl_joins_base_with_trailing_slash :
  built TestPlatform.platform
    (buildUrl TestPlatform.platform (Some "https://example.com/de/") "users/1"
       None None)
  = Some "https://example.com/de/users/1".
Proof. reflexivity. Qed.

Example buildUrl_joins_base_without_trailing_slash :
  built TestPlatform.platform
    (buildUrl TestPlatform.platform (Some "https://example.com/de") "users/2"
       None None)
  = Some "https://example.com/de/users/2".
Proof. reflexivity. Qed.

Example buildUrl_strips_leading_slash :
  built TestPlatform.platform
    (buildUrl TestPlatform.platform (Some "https://example.com/de/") "/users/3"
       None None)
  = Some "https://example.com/de/users/3".
Proof. reflexivity. Qed.

Example buildUrl_appends_params_and_skips_null :
  built TestPlatform.platform
    (buildUrl TestPlatform.platform (Some "https://example.com/api/") "items"
       (Some [("q", ParamString "test"); ("limit", ParamNumber (of_Z 10));
              ("active", ParamBoolean true); ("skip", ParamNull);
              ("none", ParamUndefined)])
       None)
  = Some "https://example.com/api/items?q=test&limit=10&active=true".
Proof. reflexivity. Qed.

Example buildUrl_merges_query_of_path :
  built TestPlatform.platform
    (buildUrl TestPlatform.platform (Some "https://example.com/api/")
       "items?offset=20"
       (Some [("a", ParamNumber (of_Z 1)); ("b", ParamNumber (of_Z 2))]) None)
  = Some "https://example.com/api/items?offset=20&a=1&b=2".
Proof. reflexivity. Qed.

Example buildUrl_keeps_absolute_url :
  built TestPlatform.platform
    (buildUrl TestPlatform.platform None "https://api.other.com/x"
       (Some [("a", ParamNumber (of_Z 1)); ("b", ParamNumber (of_Z 2))]) None)
  = Some "https://api.other.com/x?a=1&b=2".
Proof. reflexivity. Qed.

Example buildUrl_uses_defaultOrigin :
  built TestPlatform.platform
    (buildUrl TestPlatform.platform None "users/1" None
       (Some "https://env.example.com/api/"))
  = Some "https://env.example.com/api/users/1".
Proof. reflexivity. Qed.

Example buildUrl_throws_without_origin :
  buildUrl TestPlatform.platform None "users/1" None None = Throw no_origin.
Proof. reflexivity. Qed.

(** parsing tests *)
Example default_parsing_is_text :
  resolved_content
    (request TestPlatform.platform
       (always (streamed 200 [("Content-Type", "text/plain")] ["hello"]))
       (createCall noConfig) "https://api.test/text" noOptions 2)
  = Some (PText "hello").
Proof. reflexivity. Qed.

Example invalid_json_is_a_parse_error :
  rejected_message
    (request TestPlatform.platform
       (always (streamed 200 [("Content-Type", "application/json")]
                  ["invalid-json"]))
       (createCall noConfig) "http://api.test/bad-json" noOptions 2)
  = Some "Response parse error".
Proof. reflexivity. Qed.

(** streaming test: text with a content length, both progress paths *)
Example streamed_text_reports_progress :
  match
    request TestPlatform.platform
      (always (streamed 200 [("Content-Type", "text/plain");
                             ("Content-Length", "11")] ["hello "; "world"]))
      (createCall progressConfig) "https://api.test/stream-text"
      textWithProgress 2
  with
  | Some (tr, Resolved r) =>
      content r = Some (PText "hello world")
      /\ count is_start tr = 1%nat
      /\ count (fun e => match e with EvProgressSet _ => true | _ => false end) tr
         = 2%nat
      /\ count is_done tr = 1%nat
      /\ loaded_values tr = [6; 11]%nat
      /\ last_percent tr = Some (of_Z 1)
  | _ => False
  end.
Proof. vm_compute. repeat split; reflexivity. Qed.

(** ** Numbers *)






(** ToInt32 of a natural number never exceeds it, and small naturals are
    left alone. *)
Lemma ToInt32_of_nat_le (n : nat) : (ToInt32 (of_nat n) <= Z.of_nat n)%Z.
Proof.
  unfold ToInt32, of_nat, of_Z. cbn [inject_Z Qnum Qden].
  rewrite Z.quot_1_r.
  pose proof (Z.mod_le (Z.of_nat n) (2 ^ 32)) as H.
  pose proof (Z.mod_pos_bound (Z.of_nat n) (2 ^ 32)) as H'.
  destruct (_ <? _)%Z; lia.
Qed.

Lemma ToInt32_of_nat_small (n : nat) :
  (Z.of_nat n < 2 ^ 31)%Z -> ToInt32 (of_nat n) = Z.of_nat n.
Proof.
  intros H. unfold ToInt32, of_nat, of_Z. cbn [inject_Z Qnum Qden].
  rewrite Z.quot_1_r. rewrite Z.mod_small by lia.
  destruct (Z.ltb_spec (Z.of_nat n) (2 ^ 31)); lia.
Qed.

Lemma ToInt32_lt (x : number) : (ToInt32 x < 2 ^ 31)%Z.
Proof.
  destruct x as [q| | |]; cbn [ToInt32]; try lia.
  pose proof (Z.mod_pos_bound (Z.quot (Qnum q) (Z.pos (Qden q))) (2 ^ 32)) as H.
  destruct (Z.ltb_spec ((Z.quot (Qnum q) (Z.pos (Qden q))) mod 2 ^ 32) (2 ^ 31)); lia.
Qed.

(** ** Overflow *)

Lemma overflow_bound_pos : (0 < inject_Z overflow_bound)%Q.
Proof. change 0%Q with (inject_Z 0). rewrite <- Zlt_Qlt. reflexivity. Qed.

(** A result is finite exactly when it lies strictly between the two
    bounds, and it is then the exact value. *)
Lemma of_Q_finite (q : Q) :
  isFinite (of_Q q) = true ->
  of_Q q = Fin q
  /\ (q < inject_Z overflow_bound)%Q /\ (inject_Z (- overflow_bound) < q)%Q.
Proof.
  unfold of_Q.
  destruct (Qle_bool (inject_Z overflow_bound) q) eqn:E1; [discriminate|].
  destruct (Qle_bool q (inject_Z (- overflow_bound))) eqn:E2; [discriminate|].
  intros _. split; [reflexivity|]. split; apply Qnot_le_lt; intros H;
    apply Qle_bool_iff in H; congruence.
Qed.

Lemma of_Q_small (q : Q) :
  (inject_Z (- overflow_bound) < q)%Q -> (q < inject_Z overflow_bound)%Q ->
  of_Q q = Fin q.
Proof.
  intros Hlo Hhi. unfold of_Q.
  destruct (Qle_bool (inject_Z overflow_bound) q) eqn:E1.
  { apply Qle_bool_iff in E1. exfalso. now apply (Qlt_not_le _ _ Hhi). }
  destruct (Qle_bool q (inject_Z (- overflow_bound))) eqn:E2.
  { apply Qle_bool_iff in E2. exfalso. now apply (Qlt_not_le _ _ Hlo). }
  reflexivity.
Qed.

Lemma of_Q_nonneg_small (q : Q) :
  (0 <= q)%Q -> (q < inject_Z overflow_bound)%Q -> of_Q q = Fin q.
Proof.
  intros H0 Hhi. apply of_Q_small; [|exact Hhi].
  eapply Qlt_le_trans; [|exact H0].
  change 0%Q with (inject_Z 0). rewrite <- Zlt_Qlt. reflexivity.
Qed.

(** The cap of the backoff, when it is finite: the exact product, for an
    attempt below 1024. *)
Lemma backoff_cap_finite (b : Q) (k : nat) :
  isFinite (mul (Fin b) (pow2 k)) = true ->
  mul (Fin b) (pow2 k) = Fin (b * inject_Z (2 ^ Z.of_nat k))
  /\ (b * inject_Z (2 ^ Z.of_nat k) < inject_Z overflow_bound)%Q.
Proof.
  unfold pow2. destruct (k <? 1024)%nat.
  - unfold of_Z. cbn [mul]. intros H. apply of_Q_finite in H as (E & Hhi & _).
    split; assumption.
  - cbn [mul]. destruct (Qsign b); discriminate.
Qed.

Lemma jitter_finite (r X : Q) :
  (0 <= r)%Q -> (r <= 1)%Q -> (0 <= X)%Q -> (X < inject_Z overflow_bound)%Q ->
  mul (Fin r) (Fin X) = Fin (r * X).
Proof.
  intros Hr0 Hr1 HX Hhi. cbn [mul]. apply of_Q_nonneg_small.
  - now apply Qmult_le_0_compat.
  - eapply Qle_lt_trans; [|exact Hhi].
    rewrite <- (Qmult_1_l X) at 2. now apply Qmult_le_compat_r.
Qed.

(** ** The delay calculator *)






(** ** The handler resolver *)

Lemma codeToName_names_truthy :
  map_Forall (fun (_ : nat) (n : string) => truthy_string n = true) codeToName.
Proof.
  apply map_Forall_to_list. vm_compute. repeat constructor.
Qed.

Lemma by_name_named {A} (m : gmap string A) (status : nat) :
  by_name m (codeToName !! status) = named m status.
Proof.
  unfold by_name, named.
  destruct (codeToName !! status) as [n|] eqn:E; [|reflexivity].
  apply codeToName_names_truthy in E. simpl in E. now rewrite E.
Qed.

(** C3.  [pickStatusHandler] returns the handler of the first of the six
    tiers (per-request code, per-request name, global code, global name,
    per-request wildcard, global wildcard) that holds one; in particular a
    handler registered per request under the numeric code is the one chosen,
    whatever is registered under the wildcard or globally. *)
Theorem pickStatusHandler_six_tiers (status : nat) (local global : OnStatus) :
  pickStatusHandler status local global codeToName
  = first_some (six_tiers status local global)
  /\ (forall h, handlers local !! pretty status = Some h ->
        pickStatusHandler status local global codeToName = Some h).
Proof.
  assert (E : pickStatusHandler status local global codeToName
              = first_some (six_tiers status local global)).
  { unfold pickStatusHandler, six_tiers, on_get, nullish.
    rewrite !by_name_named. cbn [first_some].
    destruct (handlers local !! pretty status); [reflexivity|].
    destruct (named (handlers local) status); [reflexivity|].
    destruct (handlers global !! pretty status); [reflexivity|].
    destruct (named (handlers global) status); [reflexivity|].
    destruct (handlers local !! statusToWildcard status); [reflexivity|].
    destruct (handlers global !! statusToWildcard status); reflexivity. }
  split; [exact E|].
  intros h Hh. rewrite E. unfold six_tiers. cbn [first_some]. now rewrite Hh.
Qed.

Lemma pickStatusHandler_six_tiers_witness :
  handlers bothLocal !! statusToWildcard 500 = Some 2%nat
  /\ handlers bothGlobal !! pretty 500%nat = Some 3%nat
  /\ handlers bothGlobal !! statusToWildcard 500 = Some 4%nat
  /\ pickStatusHandler 500 bothLocal bothGlobal codeToName = Some 1%nat.
Proof.
  split; [reflexivity|]. split; [reflexivity|]. split; [reflexivity|].
  apply (proj2 (pickStatusHandler_six_tiers 500 bothLocal bothGlobal) 1%nat).
  reflexivity.
Defined.

(** ** The body readers *)

Lemma andThen_Forall {A B} (Q : event -> Prop) (m : traced A) (k : traced B) :
  Forall Q m.1 -> Forall Q k.1 -> Forall Q (m >> k).1.
Proof.
  intros Hm Hk. unfold andThen. destruct m.2; cbn [fst]; [|exact Hm].
  now apply Forall_app.
Qed.

Lemma try_finally_Forall {A} (Q : event -> Prop) (m : traced A)
  (k : traced unit) :
  Forall Q m.1 -> Forall Q k.1 -> Forall Q (try_finally m k).1.
Proof. intros Hm Hk. cbn [try_finally fst]. now apply Forall_app. Qed.

(** What the reader leaves in the trace are calls to the callbacks that it
    has been given: a property of those calls is a property of its trace. *)
Lemma call_set_Forall (Q : event -> Prop) (api : option ProgressAPI)
  (p : option number) :
  (forall a f, api = Some a -> progress_set a = Some f -> Q (EvProgressSet p)) ->
  Forall Q (call_set api p).1.
Proof.
  intros Qset. unfold call_set. destruct api as [a|]; [|constructor].
  destruct (progress_set a) as [f|] eqn:Ef; [|constructor].
  repeat constructor. now apply (Qset a f).
Qed.

Lemma notify_Forall (Q : event -> Prop) (opts : RequestOptions) (u : bool)
  (api : option ProgressAPI) (t : option number) (l : nat) :
  (forall f i, opt_onProgress opts = Some f ->
     total i = t -> percent i = percent_of t (loaded i) -> Q (EvOnProgress i)) ->
  (forall a f p, u = true -> api = Some a -> progress_set a = Some f ->
     Q (EvProgressSet p)) ->
  Forall Q (notify opts u api t l).1.
Proof.
  intros Qon Qset. unfold notify. apply andThen_Forall.
  - unfold call_onProgress. destruct (opt_onProgress opts) as [f|] eqn:Ef;
      [|constructor].
    repeat constructor. now apply (Qon f).
  - destruct u; [|constructor]. apply call_set_Forall. intros a f. now apply Qset.
Qed.

Lemma pump_Forall (Q : event -> Prop) (opts : RequestOptions) (u : bool)
  (api : option ProgressAPI) (t : option number) (chunks : list bytes)
  (l : nat) :
  (forall f i, opt_onProgress opts = Some f ->
     total i = t -> percent i = percent_of t (loaded i) -> Q (EvOnProgress i)) ->
  (forall a f p, u = true -> api = Some a -> progress_set a = Some f ->
     Q (EvProgressSet p)) ->
  Forall Q (pump opts u api t chunks l).1.
Proof.
  intros Qon Qset. revert l.
  induction chunks as [|c chunks IH]; intros l; cbn [pump].
  - constructor.
  - apply andThen_Forall; [now apply notify_Forall | apply IH].
Qed.

Lemma parseWithReader_Forall (Q : event -> Prop) (P : Platform)
  (res : Response) (parseAs : option ParseAs) (opts : RequestOptions)
  (u : bool) (api : option ProgressAPI) :
  (forall f i, opt_onProgress opts = Some f ->
     percent i
     = percent_of
         match Headers_get (res_headers res) "content-length" with
         | Some h =>
             if truthy_string h then Some (Number_of_string P h) else None
         | None => None
         end
         (loaded i) ->
     Q (EvOnProgress i)) ->
  (forall a f p, u = true -> api = Some a -> progress_set a = Some f ->
     Q (EvProgressSet p)) ->
  (forall a r, u = true -> api = Some a -> progress_start a = Some r ->
     Q EvProgressStart) ->
  (forall a r, u = true -> api = Some a -> progress_done a = Some r ->
     Q EvProgressDone) ->
  Forall Q (parseWithReader P res parseAs opts u api).1.
Proof.
  intros Qon Qset Qstart Qdone. unfold parseWithReader.
  destruct (res_body res) as [rs|]; [|constructor].
  set (t := match Headers_get (res_headers res) "content-length" with
            | Some h => _ | None => _ end) in *.
  repeat apply andThen_Forall.
  - destruct u eqn:Hu; [|constructor]. apply andThen_Forall.
    + unfold call_start. destruct api as [a|] eqn:Ea; [|constructor].
      destruct (progress_start a) as [r|] eqn:Er; [|constructor].
      repeat constructor. now apply (Qstart a r).
    + destruct (match t with Some t0 => truthy t0 | None => false end);
        [constructor|].
      apply call_set_Forall. intros a f. now apply Qset.
  - destruct (rs_locked rs); constructor.
  - apply try_finally_Forall.
    + apply andThen_Forall; [|constructor].
      apply pump_Forall; [|exact Qset].
      intros f i Hf _ Hp. now apply (Qon f).
    + unfold finally_done. destruct u eqn:Hu; [|constructor].
      destruct api as [a|] eqn:Ea; [|constructor].
      destruct (progress_done a) as [r|] eqn:Er; [|constructor].
      repeat constructor. now apply (Qdone a r).
Qed.

Lemma parseWithReader_quiet P res parseAs opts u api :
  Forall quiet_event (parseWithReader P res parseAs opts u api).1.
Proof. apply parseWithReader_Forall; intros; repeat split. Qed.

Lemma parseBody_quiet P self opts res :
  Forall quiet_event (parseBody P self opts res).1.
Proof.
  unfold parseBody.
  destruct (parseAs opts res); try constructor;
    (destruct (wantsProgress opts); [apply parseWithReader_quiet | constructor]).
Qed.

(** ** One iteration of the loop *)

Section Iteration.
Variable P : Platform.
Variable W : World.
Variable self : Call.
Variable url : string.
Variable opts : RequestOptions.
Variable fu : string.

Local Abbreviation attemptOnce := (attemptOnce P W self url opts fu).
Local Abbreviation attemptLoop := (attemptLoop P W self url opts fu).
Local Abbreviation outcome := (outcome P W self opts fu).
Local Abbreviation react := (react P W self url opts fu).
Local Abbreviation willRetryNext := (willRetryNext P W self opts fu).

Lemma attemptOnce_react (a : nat) :
  exists reads, Forall quiet_event reads
    /\ attemptOnce a = prepend (EvFetch a fu (init P self opts) :: reads) (react a (outcome a)).
Proof.
  unfold Index.attemptOnce, Spec.outcome.
  destruct (fetchImplementation W a fu (init P self opts)) as [res|err].
  - pose proof (parseBody_quiet P self opts res) as Hq.
    destruct (parseBody P self opts res) as [reads parsed]. cbn [fst snd] in *.
    exists reads. split; [exact Hq|].
    destruct parsed as [data|err]; cbn [Spec.react].
    + destruct (res_ok res); cbn [Spec.react];
        (destruct (onSuccess _ _ _ _ _ _) || destruct (onStatusFailure _ _ _ _ _ _ _ _ _));
        reflexivity.
    + destruct (onParseFailure _ _ _ _ _ _ _ _); reflexivity.
  - exists []. split; [constructor|]. reflexivity.
Qed.

Lemma react_reaction (a : nat) : reaction a (willRetryNext a) (react a (outcome a)).
Proof.
  unfold Spec.willRetryNext.
  destruct (outcome a) as [res data|err|res err|res data]; cbn [Spec.react decisionFor].
  - unfold onSuccess. cbn [allowAndDelayFromDecision allow]. rewrite andb_false_r.
    destruct (mapped opts data res); constructor;
      destruct (pickStatusHandler _ _ _ _); repeat constructor.
  - unfold onNetworkFailure.
    destruct (within P W self opts a && allow _) eqn:E.
    + constructor. destruct (pickSpecial _ _ _); [|constructor].
      destruct (fires _ _ _); repeat constructor.
    + destruct (suppress self opts); constructor;
        (destruct (pickSpecial _ _ _); [|constructor]);
        destruct (fires _ _ _); repeat constructor.
  - unfold onParseFailure.
    destruct (within P W self opts a && allow _) eqn:E.
    + constructor. destruct (pickSpecial _ _ _); [|constructor].
      destruct (fires _ _ _); repeat constructor.
    + destruct (suppress self opts); constructor;
        (destruct (pickSpecial _ _ _); [|constructor]);
        destruct (fires _ _ _); repeat constructor.
  - unfold onStatusFailure.
    destruct (within P W self opts a && allow _) eqn:E.
    + constructor. destruct (pickStatusHandler _ _ _ _); [|constructor].
      destruct (fires _ _ _); repeat constructor.
    + destruct (suppress self opts); [destruct (mapped opts data res)|];
        constructor;
        (destruct (pickStatusHandler _ _ _ _); [|constructor]);
        destruct (fires _ _ _); repeat constructor.
Qed.


Lemma count_app (p : event -> bool) (l1 l2 : list event) :
  count p (l1 ++ l2) = (count p l1 + count p l2)%nat.
Proof. unfold count. rewrite List.filter_app. apply length_app. Qed.

Lemma count_none (p : event -> bool) (l : list event) :
  Forall (fun e => p e = false) l -> count p l = 0%nat.
Proof.
  unfold count. induction 1 as [|e l He _ IH]; [reflexivity|].
  cbn [List.filter]. rewrite He. exact IH.
Qed.

Lemma retry_attempts_none (l : list event) :
  Forall (fun e => is_retry e = false) l -> retry_attempts l = [].
Proof.
  unfold retry_attempts. induction 1 as [|e l He _ IH]; [reflexivity|].
  cbn [omap list_omap]. destruct e; try discriminate; exact IH.
Qed.

Lemma retry_attempts_app (l1 l2 : list event) :
  retry_attempts (l1 ++ l2) = retry_attempts l1 ++ retry_attempts l2.
Proof. unfold retry_attempts. apply omap_app. Qed.

(** What one iteration contributes: one transport invocation, and either
    a granted retry at the current attempt or the settlement of the call. *)
Lemma attemptOnce_summary (a : nat) :
  transport_calls (events_of (attemptOnce a)) = 1%nat
  /\ (if willRetryNext a
      then retry_attempts (events_of (attemptOnce a)) = [a]
           /\ settled_of (attemptOnce a) = None
      else retry_attempts (events_of (attemptOnce a)) = []
           /\ settled_of (attemptOnce a) = settled_of (react a (outcome a))
           /\ settled_of (attemptOnce a) <> None).
Proof.
  destruct (attemptOnce_react a) as (reads & Hq & ->).
  pose proof (react_reaction a) as Hr.
  assert (Hreads : transport_calls reads = 0%nat /\ retry_attempts reads = []).
  { split; [apply count_none | apply retry_attempts_none];
      eapply Forall_impl; try exact Hq; intros e (? & ? & ?); assumption. }
  destruct Hreads as [Hf Hrt].
  destruct Hr as [fired d Hfired | fired s Hfired].
  all: assert (Hfired' : transport_calls fired = 0%nat /\ retry_attempts fired = [])
    by (split; [apply count_none | apply retry_attempts_none];
        eapply Forall_impl; try exact Hfired; intros e (? & ?); assumption).
  all: destruct Hfired' as [Hf' Hrt']; cbn [prepend events_of settled_of].
  all: change (EvFetch a fu (init P self opts) :: reads)
         with ([EvFetch a fu (init P self opts)] ++ reads).
  all: unfold transport_calls in *;
    rewrite ?count_app, ?retry_attempts_app, ?Hf, ?Hrt, ?Hf', ?Hrt'.
  - repeat split; reflexivity.
  - repeat split; try reflexivity. discriminate.
Qed.

Lemma attemptLoop_run (fuel a : nat) (tr : list event) (s : Settled) :
  attemptLoop fuel a = Some (tr, s) ->
  exists n, (n < fuel)%nat
    /\ (forall k, (k < n)%nat -> willRetryNext (a + k) = true)
    /\ willRetryNext (a + n) = false
    /\ transport_calls tr = S n
    /\ retry_attempts tr = seq a n
    /\ settled_of (react (a + n) (outcome (a + n))) = Some s
    /\ tr = flat_map (fun k => events_of (attemptOnce k)) (seq a (S n)).
Proof.
  revert a tr s. induction fuel as [|fuel IH]; intros a tr s; [discriminate|].
  cbn [Index.attemptLoop].
  pose proof (attemptOnce_summary a) as [Hf Hw].
  destruct (attemptOnce a) as [evs|evs s'] eqn:E; cbn [events_of settled_of] in *.
  - destruct (willRetryNext a) eqn:Ew; [|destruct Hw as (_ & _ & Hw); congruence].
    destruct Hw as [Hrt _].
    destruct (attemptLoop fuel (S a)) as [[evs' s'']|] eqn:E'; [|discriminate].
    intros [= <- <-]. apply IH in E' as (n & Hn & Hk & Hstop & Hc & Hr & Hs & Ht).
    exists (S n). replace (a + S n)%nat with (S a + n)%nat by lia.
    repeat split; try assumption.
    + lia.
    + intros [|k] Hlt; [now rewrite Nat.add_0_r|].
      replace (a + S k)%nat with (S a + k)%nat by lia. apply Hk. lia.
    + unfold transport_calls in *. rewrite count_app, Hf, Hc. reflexivity.
    + rewrite retry_attempts_app, Hrt, Hr. reflexivity.
    + rewrite Ht. cbn [seq flat_map]. rewrite E. reflexivity.
  - destruct (willRetryNext a) eqn:Ew; [destruct Hw as [_ Hw]; discriminate|].
    destruct Hw as (Hrt & Hs & _). intros [= <- <-].
    exists 0%nat. rewrite Nat.add_0_r.
    repeat split; try assumption; try lia.
    + now rewrite <- Hs.
    + cbn [seq flat_map]. rewrite E. cbn [events_of]. now rewrite app_nil_r.
Qed.

Lemma attemptLoop_returns (fuel a n : nat) :
  (forall k, (k < n)%nat -> willRetryNext (a + k) = true) ->
  willRetryNext (a + n) = false -> (n < fuel)%nat ->
  exists tr s, attemptLoop fuel a = Some (tr, s).
Proof.
  revert a n. induction fuel as [|fuel IH]; intros a n Hk Hstop Hlt; [lia|].
  cbn [Index.attemptLoop].
  pose proof (attemptOnce_summary a) as [_ Hw].
  destruct (attemptOnce a) as [evs|evs s'] eqn:E; cbn [events_of settled_of] in *;
    [|eauto].
  destruct n as [|n].
  - rewrite Nat.add_0_r in Hstop. rewrite Hstop in Hw.
    destruct Hw as (_ & _ & Hw). congruence.
  - destruct (IH (S a) n) as (tr & s & ->); [| |lia|eauto].
    + intros k Hk'. replace (S a + k)%nat with (a + S k)%nat by lia. apply Hk. lia.
    + now replace (S a + n)%nat with (a + S n)%nat by lia.
Qed.


(** *** When the loop stops *)

Lemma allow_bound (decision : option RetryDecision) (a : nat) :
  allow (allowAndDelayFromDecision decision a) = true -> (Z.of_nat a < 2 ^ 31)%Z.
Proof.
  destruct decision as [[b|x d]|]; cbn [allowAndDelayFromDecision allow].
  - intros H. apply andb_prop in H as [_ H]. apply Nat.ltb_lt in H. lia.
  - pose proof (ToInt32_lt x) as Hx.
    destruct (Z.ltb_spec (Z.of_nat a) (Z.max 0 (ToInt32 x))) as [H|H].
    + intros _. lia.
    + discriminate.
  - discriminate.
Qed.

Lemma allow_object (N : nat) (d : option DelaySpec) (a : nat) :
  allow (allowAndDelayFromDecision (Some (DObject (of_nat N) d)) a) = true ->
  (a < N)%nat.
Proof.
  cbn [allowAndDelayFromDecision]. pose proof (ToInt32_of_nat_le N) as HN.
  destruct (Z.ltb_spec (Z.of_nat a) (Z.max 0 (ToInt32 (of_nat N)))) as [H|H].
  - intros _. lia.
  - discriminate.
Qed.

Lemma allow_object_small (N : nat) (d : option DelaySpec) (a : nat) :
  (Z.of_nat N < 2 ^ 31)%Z ->
  allow (allowAndDelayFromDecision (Some (DObject (of_nat N) d)) a) = (a <? N)%nat.
Proof.
  intros HN. cbn [allowAndDelayFromDecision]. rewrite (ToInt32_of_nat_small N HN).
  destruct (Z.ltb_spec (Z.of_nat a) (Z.max 0 (Z.of_nat N))) as [H|H];
    destruct (Nat.ltb_spec a N) as [H'|H']; try lia.
  - destruct d as [[n|f]|]; try reflexivity.
    destruct (isFinite _ && geb _ _); reflexivity.
  - reflexivity.
Qed.

Lemma first_stop (w : nat -> bool) (B : nat) :
  w B = false ->
  exists n, (n <= B)%nat /\ (forall k, (k < n)%nat -> w k = true) /\ w n = false.
Proof.
  induction B as [|B IH] in w |- *; intros HB.
  - exists 0%nat. repeat split; [lia | intros; lia | exact HB].
  - destruct (w 0%nat) eqn:E0.
    + destruct (IH (fun k => w (S k)) HB) as (n & Hn & Hk & Hs).
      exists (S n). repeat split; [lia | | exact Hs].
      intros [|k] Hlt; [exact E0 | apply Hk; lia].
    + exists 0%nat. repeat split; [lia | intros; lia | exact E0].
Qed.

Lemma stop_unique (w : nat -> bool) (n m : nat) :
  (forall k, (k < n)%nat -> w k = true) -> w n = false ->
  (forall k, (k < m)%nat -> w k = true) -> w m = false -> n = m.
Proof.
  intros Hn Sn Hm Sm.
  destruct (Nat.lt_trichotomy n m) as [H|[H|H]]; [|exact H|].
  - rewrite (Hm n H) in Sn. discriminate.
  - rewrite (Hn m H) in Sm. discriminate.
Qed.

Lemma willRetryNext_bound (a : nat) :
  willRetryNext a = true -> (Z.of_nat a < 2 ^ 31)%Z.
Proof.
  unfold Spec.willRetryNext. intros H. apply andb_prop in H as [_ H].
  now apply allow_bound in H.
Qed.

Lemma willRetryNext_success (a : nat) res data :
  outcome a = Success res data -> willRetryNext a = false.
Proof.
  unfold Spec.willRetryNext. intros ->. cbn. apply andb_false_r.
Qed.

(** The loop returns, whatever the inputs, once the fuel exceeds [2^31]. *)
Lemma attemptLoop_total (fuel : nat) :
  (2 ^ 31 < Z.of_nat fuel)%Z -> exists tr s, attemptLoop fuel 0 = Some (tr, s).
Proof.
  intros Hfuel.
  destruct (first_stop willRetryNext (Z.to_nat (2 ^ 31))) as (n & Hn & Hk & Hs).
  - destruct (willRetryNext (Z.to_nat (2 ^ 31))) eqn:E; [|reflexivity].
    apply willRetryNext_bound in E. lia.
  - apply (attemptLoop_returns fuel 0 n); [exact Hk | exact Hs | lia].
Qed.

End Iteration.

(** A call returns, whatever its inputs, once the fuel exceeds [2^31]. *)
Theorem request_returns (P : Platform) (W : World) (self : Call) (url : string)
  (opts : RequestOptions) (fuel : nat) :
  (2 ^ 31 < Z.of_nat fuel)%Z ->
  exists tr s, request P W self url opts fuel = Some (tr, s).
Proof.
  intros Hfuel. unfold request.
  destruct (finalUrl P self url opts) as [u|e]; [|eauto].
  now apply attemptLoop_total.
Qed.

Lemma request_eventually_returns (P : Platform) (W : World) (self : Call)
  (url : string) (opts : RequestOptions) :
  exists fuel0, forall fuel, (fuel0 <= fuel)%nat ->
    exists tr s, request P W self url opts fuel = Some (tr, s).
Proof.
  exists (S (Z.to_nat (2 ^ 31))). intros fuel Hfuel.
  apply request_returns. lia.
Qed.

(** More fuel does not change what a call returns. *)
Lemma attemptLoop_fuel P W self (url : string) opts fu (fuel fuel' a : nat) r :
  (fuel <= fuel')%nat ->
  attemptLoop P W self url opts fu fuel a = Some r ->
  attemptLoop P W self url opts fu fuel' a = Some r.
Proof.
  revert fuel' a r. induction fuel as [|fuel IH]; intros fuel' a r Hle; [discriminate|].
  destruct fuel' as [|fuel']; [lia|]. cbn [attemptLoop].
  destruct (attemptOnce P W self url opts fu a) as [evs|evs s]; [|auto].
  destruct (attemptLoop P W self url opts fu fuel (S a)) as [[evs' s']|] eqn:E;
    [|discriminate].
  rewrite (IH fuel' (S a) _ ltac:(lia) E). auto.
Qed.

Lemma request_fuel P W self (url : string) opts (fuel fuel' : nat) r :
  (fuel <= fuel')%nat ->
  request P W self url opts fuel = Some r ->
  request P W self url opts fuel' = Some r.
Proof.
  unfold request. destruct (finalUrl P self url opts); [|auto].
  apply attemptLoop_fuel.
Qed.

(** ** The retry policy *)

Lemma willRetryNext_decision P W self opts fu (N a : nat) (d : option DelaySpec) :
  decisionFor self opts (outcome P W self opts fu a) = Some (DObject (of_nat N) d) ->
  willRetryNext P W self opts fu a = true -> (a < N)%nat.
Proof.
  unfold willRetryNext. intros -> H. apply andb_prop in H as [_ H].
  now apply allow_object in H.
Qed.

Lemma seq_below (n N : nat) : (n <= N)%nat -> Forall (fun a => (a < N)%nat) (seq 0 n).
Proof.
  intros H. apply List.Forall_forall. intros x Hx. apply in_seq in Hx. lia.
Qed.

(** With the policy of scenario A, a response with status 500 that is not
    [ok] is retried at attempts 0 and 1 and at no later one. *)
Lemma scenarioA_willRetryNext P W suppressError fu (a : nat) res data :
  outcome P W (createCall scenarioA) (suppressing suppressError) fu a
    = StatusFailure res data ->
  res_status res = 500%nat ->
  willRetryNext P W (createCall scenarioA) (suppressing suppressError) fu a
    = (a <? 2)%nat.
Proof.
  intros Ho Hs. unfold willRetryNext. rewrite Ho. cbn [decisionFor]. rewrite Hs.
  change (within P W (createCall scenarioA) (suppressing suppressError) a) with true.
  change (nullish _ _) with (Some (DObject (of_nat 2) None)).
  rewrite allow_object_small by (cbn; lia). reflexivity.
Qed.

(** When every attempt fails under a decision [{attempts: N}] and nothing
    gates the retry, the loop goes through the attempts [0] to [N]. *)
Lemma all_attempts_made P W self (url : string) opts (u : URL P) (N fuel : nat) :
  finalUrl P self url opts = Ok u ->
  (Z.of_nat N < 2 ^ 31)%Z ->
  methodAllowed self opts = true ->
  canReplayBody P opts = true ->
  (forall k, withinBudget W self opts k = true) ->
  (forall k, exists d,
      decisionFor self opts (outcome P W self opts (URL_toString P u) k)
      = Some (DObject (of_nat N) d)) ->
  (N < fuel)%nat ->
  exists tr s, request P W self url opts fuel = Some (tr, s)
    /\ transport_calls tr = (N + 1)%nat
    /\ retry_attempts tr = seq 0 N.
Proof.
  intros Hu HN Hm Hb Hbud Hdec Hfuel. unfold request. rewrite Hu.
  set (fu := URL_toString P u) in *.
  assert (Hw : forall k, willRetryNext P W self opts fu k = (k <? N)%nat).
  { intros k. destruct (Hdec k) as [d Hd]. unfold willRetryNext, within.
    rewrite Hd, Hm, Hb, Hbud. cbn [andb]. now apply allow_object_small. }
  assert (Hk : forall k, (k < N)%nat -> willRetryNext P W self opts fu (0 + k) = true).
  { intros k Hlt. rewrite Hw. now apply Nat.ltb_lt. }
  assert (Hs : willRetryNext P W self opts fu (0 + N) = false).
  { rewrite Hw. apply Nat.ltb_irrefl. }
  destruct (attemptLoop_returns P W self url opts fu fuel 0 N Hk Hs Hfuel)
    as (tr & s & E).
  exists tr, s. split; [exact E|].
  apply attemptLoop_run in E as (n & _ & Hk' & Hs' & Hc & Hr & _).
  assert (n = N) as ->
    by exact (stop_unique (fun k => willRetryNext P W self opts fu (0 + k))
                n N Hk' Hs' Hk Hs).
  split; [lia | exact Hr].
Qed.

(** C1.  When every failing attempt of a call is governed by a decision
    [{attempts: N}], the call makes at most [N + 1] transport invocations
    before it settles, and a retry is only ever granted at an attempt
    counter below [N] (at most [N - 1]); the bound needs none of the gating
    assumptions.  Under them (the method is retry-eligible, the body is
    replayable, the time budget is never exhausted), when every attempt fails
    under that decision and [N] is below [2^31], the bound is reached:
    exactly [N + 1] transport invocations, with retries granted at the
    attempts [0] to [N - 1].  In scenario A (policy
    [{500: {attempts: 2}}], default method GET, no body, no time budget, a
    transport that answers 500 on every attempt) exactly 3 transport
    invocations are made and the result, or the error when errors are not
    suppressed, carries status 500. *)
Theorem attempts_bounded_by_decision :
  (forall P W self (url : string) opts u (N fuel : nat),
      finalUrl P self url opts = Ok u ->
      (forall k, is_failure (outcome P W self opts (URL_toString P u) k) = true ->
         exists d, decisionFor self opts (outcome P W self opts (URL_toString P u) k)
                   = Some (DObject (of_nat N) d)) ->
      (N < fuel)%nat ->
      exists tr s, request P W self url opts fuel = Some (tr, s)
        /\ (transport_calls tr <= N + 1)%nat
        /\ Forall (fun a => (a < N)%nat) (retry_attempts tr))
  /\ (forall P W self (url : string) opts u (N fuel : nat),
        finalUrl P self url opts = Ok u ->
        (Z.of_nat N < 2 ^ 31)%Z ->
        methodAllowed self opts = true ->
        canReplayBody P opts = true ->
        (forall k, withinBudget W self opts k = true) ->
        (forall k, exists d,
            decisionFor self opts (outcome P W self opts (URL_toString P u) k)
            = Some (DObject (of_nat N) d)) ->
        (N < fuel)%nat ->
        exists tr s, request P W self url opts fuel = Some (tr, s)
          /\ transport_calls tr = (N + 1)%nat
          /\ retry_attempts tr = seq 0 N)
  /\ (forall P W (url : string) u suppressError (fuel : nat),
        finalUrl P (createCall scenarioA) url (suppressing suppressError) = Ok u ->
        (forall k, exists res data,
            fetchImplementation W k (URL_toString P u)
              (init P (createCall scenarioA) (suppressing suppressError)) = Ok res
            /\ res_status res = 500%nat /\ res_ok res = false
            /\ (parseBody P (createCall scenarioA) (suppressing suppressError) res).2
               = Ok data) ->
        (2 < fuel)%nat ->
        exists tr s,
          request P W (createCall scenarioA) url (suppressing suppressError) fuel
            = Some (tr, s)
          /\ transport_calls tr = 3%nat /\ carries_status s 500).
Proof.
  split; [|split].
  - intros P W self url opts u N fuel Hu Hdec Hfuel. unfold request. rewrite Hu.
    set (fu := URL_toString P u) in *.
    assert (HN : willRetryNext P W self opts fu N = false).
    { destruct (willRetryNext P W self opts fu N) eqn:E; [|reflexivity].
      destruct (is_failure (outcome P W self opts fu N)) eqn:F.
      - destruct (Hdec N F) as [d Hd].
        pose proof (willRetryNext_decision P W self opts fu N N d Hd E). lia.
      - destruct (outcome P W self opts fu N) eqn:O; try discriminate.
        rewrite (willRetryNext_success P W self opts fu N _ _ O) in E. discriminate. }
    destruct (first_stop _ N HN) as (n & Hn & Hk & Hs).
    destruct (attemptLoop_returns P W self url opts fu fuel 0 n Hk Hs) as (tr & s & E);
      [lia|].
    exists tr, s. split; [exact E|].
    apply attemptLoop_run in E as (n' & _ & Hk' & Hs' & Hc & Hr & _).
    assert (n' = n) as ->
      by exact (stop_unique (willRetryNext P W self opts fu) n' n Hk' Hs' Hk Hs).
    rewrite Hc, Hr. split; [lia | now apply seq_below].
  - intros P W self url opts u N fuel Hu HN Hm Hb Hbud Hdec Hfuel.
    now apply (all_attempts_made P W self url opts u N fuel).
  - intros P W url u suppressError fuel Hu Hall Hfuel. unfold request. rewrite Hu.
    set (self := createCall scenarioA) in *.
    set (opts := suppressing suppressError) in *.
    set (fu := URL_toString P u) in *.
    assert (Ho : forall k, exists res data,
               outcome P W self opts fu k = StatusFailure res data
               /\ res_status res = 500%nat).
    { intros k. destruct (Hall k) as (res & data & Hf & Hst & Hok & Hp).
      exists res, data. unfold outcome. rewrite Hf, Hp, Hok. auto. }
    assert (Hw : forall k, willRetryNext P W self opts fu k = (k <? 2)%nat).
    { intros k. destruct (Ho k) as (res & data & Hk & Hst).
      eapply scenarioA_willRetryNext; eauto. }
    destruct (attemptLoop_returns P W self url opts fu fuel 0 2) as (tr & s & E).
    { intros [|[|k]] Hk; rewrite Hw; try reflexivity; lia. }
    { rewrite Hw. reflexivity. }
    { lia. }
    exists tr, s. split; [exact E|].
    apply attemptLoop_run in E as (n & _ & Hk & Hs & Hc & _ & Hset & _).
    assert (n = 2%nat) as ->.
    { apply (stop_unique (willRetryNext P W self opts fu) n 2 Hk Hs).
      - intros [|[|k]] Hlt; rewrite Hw; try reflexivity; lia.
      - rewrite Hw. reflexivity. }
    split; [exact Hc|].
    destruct (Ho 2%nat) as (res & data & Ho2 & Hst).
    cbn [Nat.add] in Hset. rewrite Ho2 in Hset. cbn [react] in Hset.
    pose proof (Hw 2%nat) as Hw2. unfold willRetryNext in Hw2.
    rewrite Ho2 in Hw2. cbn [decisionFor] in Hw2.
    unfold onStatusFailure in Hset. rewrite Hw2 in Hset.
    destruct (suppress self opts); cbn [settled_of] in Hset;
      injection Hset as <-; cbn [carries_status]; [|cbn; now rewrite Hst].
    unfold filterFields.
    change (fieldsToReturn opts (config self)) with (@None (list ReturnFieldsEnum)).
    cbn. now rewrite Hst.
Qed.

Lemma attempts_bounded_by_decision_witness :
  (exists tr s,
      request TestPlatform.platform (world (fun _ => Ok (respond 500)))
        (createCall scenarioA) "https://api.test/x" (suppressing None) 5
      = Some (tr, s)
      /\ (transport_calls tr <= 2 + 1)%nat
      /\ Forall (fun a => (a < 2)%nat) (retry_attempts tr))
  /\ (exists tr s,
        request TestPlatform.platform (world (fun _ => Ok (respond 500)))
          (createCall scenarioA) "https://api.test/x" (suppressing None) 5
        = Some (tr, s)
        /\ transport_calls tr = (2 + 1)%nat
        /\ retry_attempts tr = seq 0 2)
  /\ (exists tr s,
        request TestPlatform.platform (world (fun _ => Ok (respond 500)))
          (createCall scenarioA) "https://api.test/x" (suppressing None) 5
        = Some (tr, s)
        /\ transport_calls tr = 3%nat /\ carries_status s 500).
Proof.
  split; [|split].
  - apply (proj1 attempts_bounded_by_decision TestPlatform.platform
             (world (fun _ => Ok (respond 500))) (createCall scenarioA)
             "https://api.test/x" (suppressing None)
             {| TestPlatform.u_origin := "https://api.test";
                TestPlatform.u_path := "/x"; TestPlatform.u_query := [] |}
             2%nat 5%nat).
    + reflexivity.
    + intros k _. exists None. reflexivity.
    + lia.
  - apply (proj1 (proj2 attempts_bounded_by_decision) TestPlatform.platform
             (world (fun _ => Ok (respond 500))) (createCall scenarioA)
             "https://api.test/x" (suppressing None)
             {| TestPlatform.u_origin := "https://api.test";
                TestPlatform.u_path := "/x"; TestPlatform.u_query := [] |}
             2%nat 5%nat).
    + reflexivity.
    + reflexivity.
    + reflexivity.
    + reflexivity.
    + intros k. reflexivity.
    + intros k. exists None. reflexivity.
    + lia.
  - apply (proj2 (proj2 attempts_bounded_by_decision) TestPlatform.platform
             (world (fun _ => Ok (respond 500))) "https://api.test/x"
             {| TestPlatform.u_origin := "https://api.test";
                TestPlatform.u_path := "/x"; TestPlatform.u_query := [] |}
             None 5%nat).
    + reflexivity.
    + intros k. exists (respond 500), (PText EmptyString).
      repeat split; reflexivity.
    + lia.
Defined.

(** ** Handler firing *)

Lemma handler_calls_app (l1 l2 : list event) :
  handler_calls (l1 ++ l2) = handler_calls l1 ++ handler_calls l2.
Proof. apply List.filter_app. Qed.

Lemma handler_calls_quiet (l : list event) :
  Forall quiet_event l -> handler_calls l = [].
Proof.
  unfold handler_calls. induction 1 as [|e l (_ & _ & He) _ IH]; [reflexivity|].
  cbn [List.filter]. rewrite He. exact IH.
Qed.

Lemma events_of_prepend (evs : list event) (it : Iteration) :
  events_of (prepend evs it) = evs ++ events_of it.
Proof. destruct it; reflexivity. Qed.

Section Firing.
Variable P : Platform.
Variable W : World.
Variable self : Call.
Variable url : string.
Variable opts : RequestOptions.
Variable fu : string.

Local Abbreviation attemptOnce := (attemptOnce P W self url opts fu).
Local Abbreviation outcome := (outcome P W self opts fu).
Local Abbreviation react := (react P W self url opts fu).
Local Abbreviation willRetryNext := (willRetryNext P W self opts fu).

Lemma attemptOnce_handler_calls (a : nat) :
  handler_calls (events_of (attemptOnce a))
  = handler_calls (events_of (react a (outcome a))).
Proof.
  destruct (attemptOnce_react P W self url opts fu a) as (reads & Hq & ->).
  rewrite events_of_prepend.
  change (EvFetch a fu (init P self opts) :: reads)
    with ([EvFetch a fu (init P self opts)] ++ reads).
  rewrite !handler_calls_app, (handler_calls_quiet reads Hq). reflexivity.
Qed.

(** On a non-success status the handler of the status is invoked iff the
    firing policy lets it: always without [once], and with [once] only when
    no retry follows. *)
Lemma status_failure_handler_calls (a : nat) res data :
  outcome a = StatusFailure res data ->
  handler_calls (events_of (attemptOnce a))
  = match pickStatusHandler (res_status res) (localOn opts) (globalOn self) codeToName with
    | Some h =>
        if fires self opts (willRetryNext a)
        then [handlerCall opts fu a h res data] else []
    | None => []
    end.
Proof.
  intros Ho. rewrite attemptOnce_handler_calls. unfold Spec.willRetryNext.
  rewrite Ho. cbn [Spec.react decisionFor]. unfold onStatusFailure.
  destruct (within P W self opts a && allow _);
    destruct (pickStatusHandler _ _ _ _); try destruct (fires self opts _);
    try destruct (suppress self opts); try destruct (mapped opts data res);
    reflexivity.
Qed.

(** On success the handler of the status, if there is one, is invoked. *)
Lemma success_handler_calls (a : nat) res data :
  outcome a = Success res data ->
  handler_calls (events_of (attemptOnce a))
  = match pickStatusHandler (res_status res) (localOn opts) (globalOn self) codeToName with
    | Some h => [handlerCall opts fu a h res data]
    | None => []
    end.
Proof.
  intros Ho. rewrite attemptOnce_handler_calls, Ho. cbn [Spec.react].
  unfold onSuccess.
  destruct (pickStatusHandler _ _ _ _), (mapped opts data res); reflexivity.
Qed.

End Firing.

(** C4.  Let the retry decision of a status be [{attempts: 1}], the [once]
    flag be set, the method be retry-eligible, the body replayable and the
    time budget never exceeded, and let the transport answer that status,
    not [ok] and with a body that parses, on every attempt.  Then the call
    makes two transport invocations, and over the whole call exactly one
    handler invocation happens: that of the handler registered for the
    status, during attempt 1 (the second and final attempt), with the
    status, the final URL, the method, the response of that attempt and the
    data parsed from it; nothing is invoked during attempt 0. *)
Theorem once_handler_fires_on_final_attempt
  (P : Platform) (W : World) (self : Call) (url : string) (opts : RequestOptions)
  (u : URL P) (st : nat) (h : handler) (d : option DelaySpec) (fuel : nat) :
  finalUrl P self url opts = Ok u ->
  effectiveOnce self opts = true ->
  methodAllowed self opts = true ->
  canReplayBody P opts = true ->
  (forall k, withinBudget W self opts k = true) ->
  nullish (callDecision opts) (decisionFromStatus st (configRetry self))
    = Some (DObject (of_nat 1) d) ->
  pickStatusHandler st (localOn opts) (globalOn self) codeToName = Some h ->
  (forall k, exists res data,
      fetchImplementation W k (URL_toString P u) (init P self opts) = Ok res
      /\ res_status res = st /\ res_ok res = false
      /\ (parseBody P self opts res).2 = Ok data) ->
  (1 < fuel)%nat ->
  exists tr s res data,
    request P W self url opts fuel = Some (tr, s)
    /\ transport_calls tr = 2%nat
    /\ fetchImplementation W 1 (URL_toString P u) (init P self opts) = Ok res
    /\ (parseBody P self opts res).2 = Ok data
    /\ handler_calls tr
       = [EvStatusHandler 1 h st (URL_toString P u) (method opts) res data].
Proof.
  intros Hu Honce Hm Hb Hbud Hdec Hpick Hall Hfuel. unfold request. rewrite Hu.
  set (fu := URL_toString P u) in *.
  assert (Ho : forall k, exists res data,
             fetchImplementation W k fu (init P self opts) = Ok res
             /\ outcome P W self opts fu k = StatusFailure res data
             /\ res_status res = st
             /\ (parseBody P self opts res).2 = Ok data).
  { intros k. destruct (Hall k) as (res & data & Hf & Hst & Hok & Hp).
    exists res, data. unfold outcome. rewrite Hf, Hp, Hok. auto. }
  assert (Hw : forall k, willRetryNext P W self opts fu k = (k <? 1)%nat).
  { intros k. destruct (Ho k) as (res & data & _ & Hk & Hst & _).
    unfold willRetryNext, within. rewrite Hk, Hm, Hb, Hbud. cbn [decisionFor andb].
    rewrite Hst, Hdec. apply allow_object_small. cbn. lia. }
  destruct (attemptLoop_returns P W self url opts fu fuel 0 1) as (tr & s & E).
  { intros [|k] Hk; rewrite Hw; try reflexivity; lia. }
  { rewrite Hw. reflexivity. }
  { lia. }
  destruct (Ho 0%nat) as (res0 & data0 & _ & Ho0 & Hst0 & _).
  destruct (Ho 1%nat) as (res1 & data1 & Hf1 & Ho1 & Hst1 & Hp1).
  exists tr, s, res1, data1. split; [exact E|].
  apply attemptLoop_run in E as (n & _ & Hk & Hs & Hc & _ & _ & Ht).
  assert (n = 1%nat) as ->.
  { apply (stop_unique (willRetryNext P W self opts fu) n 1 Hk Hs).
    - intros [|k] Hlt; rewrite Hw; try reflexivity; lia.
    - rewrite Hw. reflexivity. }
  split; [exact Hc|]. split; [exact Hf1|]. split; [exact Hp1|].
  rewrite Ht. cbn [seq flat_map]. rewrite app_nil_r, handler_calls_app.
  rewrite (status_failure_handler_calls P W self url opts fu 0 res0 data0 Ho0).
  rewrite (status_failure_handler_calls P W self url opts fu 1 res1 data1 Ho1).
  rewrite Hst0, Hst1, Hpick, !Hw. unfold fires. rewrite Honce.
  unfold handlerCall. rewrite Hst1. reflexivity.
Qed.

Lemma once_handler_fires_on_final_attempt_witness :
  exists tr s res data,
    request TestPlatform.platform (world (fun _ => Ok (respond 500)))
      (createCall onceConfig) "https://api.test/x" noOptions 4 = Some (tr, s)
    /\ transport_calls tr = 2%nat
    /\ fetchImplementation (world (fun _ => Ok (respond 500))) 1
         "https://api.test/x"
         (init TestPlatform.platform (createCall onceConfig) noOptions) = Ok res
    /\ (parseBody TestPlatform.platform (createCall onceConfig) noOptions
          res).2 = Ok data
    /\ handler_calls tr
       = [EvStatusHandler 1 1%nat 500 "https://api.test/x" GET res data].
Proof.
  apply (once_handler_fires_on_final_attempt TestPlatform.platform
           (world (fun _ => Ok (respond 500))) (createCall onceConfig)
           "https://api.test/x" noOptions
           {| TestPlatform.u_origin := "https://api.test";
              TestPlatform.u_path := "/x"; TestPlatform.u_query := [] |}
           500%nat 1%nat None 4%nat).
  - reflexivity.
  - reflexivity.
  - reflexivity.
  - reflexivity.
  - intros k. reflexivity.
  - reflexivity.
  - reflexivity.
  - intros k. exists (respond 500), (PText EmptyString). repeat split; reflexivity.
  - lia.
Defined.

(** C5, as the code has it.  In scenario B (policy [{500: true}], [once]
    set, a handler registered for 500 and none for 200, method GET, no body,
    a transport that answers 500 and then 200, both with a body that parses)
    the call makes two transport invocations and resolves to a result with
    [ok: true]; no handler is invoked at all: the 500 is retried, so that
    [once] withholds its handler, and nothing is registered for the 200. *)
Theorem scenarioB_no_handler_invoked
  (P : Platform) (W : World) (url : string) (u : URL P)
  (res0 res1 : Response) (data0 data1 : Payload) (fuel : nat) :
  finalUrl P (createCall scenarioB) url noOptions = Ok u ->
  fetchImplementation W 0 (URL_toString P u)
    (init P (createCall scenarioB) noOptions) = Ok res0 ->
  res_status res0 = 500%nat -> res_ok res0 = false ->
  (parseBody P (createCall scenarioB) noOptions res0).2 = Ok data0 ->
  fetchImplementation W 1 (URL_toString P u)
    (init P (createCall scenarioB) noOptions) = Ok res1 ->
  res_status res1 = 200%nat -> res_ok res1 = true ->
  (parseBody P (createCall scenarioB) noOptions res1).2 = Ok data1 ->
  (1 < fuel)%nat ->
  exists tr r,
    request P W (createCall scenarioB) url noOptions fuel = Some (tr, Resolved r)
    /\ transport_calls tr = 2%nat
    /\ handler_calls tr = []
    /\ ok r = Some true.
Proof.
  intros Hu Hf0 Hst0 Hok0 Hp0 Hf1 Hst1 Hok1 Hp1 Hfuel. unfold request. rewrite Hu.
  set (self := createCall scenarioB) in *.
  set (fu := URL_toString P u) in *.
  assert (Ho0 : outcome P W self noOptions fu 0 = StatusFailure res0 data0).
  { unfold outcome. now rewrite Hf0, Hp0, Hok0. }
  assert (Ho1 : outcome P W self noOptions fu 1 = Success res1 data1).
  { unfold outcome. now rewrite Hf1, Hp1, Hok1. }
  assert (Hw0 : willRetryNext P W self noOptions fu 0 = true).
  { unfold willRetryNext. rewrite Ho0. cbn [decisionFor]. rewrite Hst0. reflexivity. }
  assert (Hw1 : willRetryNext P W self noOptions fu 1 = false).
  { eapply willRetryNext_success; eauto. }
  destruct (attemptLoop_returns P W self url noOptions fu fuel 0 1) as (tr & s & E).
  { intros [|k] Hk; [exact Hw0 | lia]. }
  { exact Hw1. }
  { lia. }
  pose proof E as E'.
  apply attemptLoop_run in E' as (n & _ & Hk & Hs & Hc & _ & Hset & Ht).
  assert (n = 1%nat) as ->.
  { apply (stop_unique (willRetryNext P W self noOptions fu) n 1 Hk Hs).
    - intros [|k] Hlt; [exact Hw0 | lia].
    - exact Hw1. }
  cbn [Nat.add] in Hset. rewrite Ho1 in Hset. cbn [react onSuccess settled_of] in Hset.
  injection Hset as <-. eexists _, _. split; [exact E|]. split; [exact Hc|].
  split; [|cbn; now rewrite Hok1].
  rewrite Ht. cbn [seq flat_map]. rewrite app_nil_r, handler_calls_app.
  rewrite (status_failure_handler_calls P W self url noOptions fu 0 res0 data0 Ho0).
  rewrite (success_handler_calls P W self url noOptions fu 1 res1 data1 Ho1).
  rewrite Hst0, Hst1, Hw0. reflexivity.
Qed.

Lemma scenarioB_no_handler_invoked_witness :
  exists tr r,
    request TestPlatform.platform failsOnce (createCall scenarioB)
      "https://api.test/x" noOptions 4 = Some (tr, Resolved r)
    /\ transport_calls tr = 2%nat
    /\ handler_calls tr = []
    /\ ok r = Some true.
Proof.
  apply (scenarioB_no_handler_invoked TestPlatform.platform failsOnce
           "https://api.test/x"
           {| TestPlatform.u_origin := "https://api.test";
              TestPlatform.u_path := "/x"; TestPlatform.u_query := [] |}
           (respond 500) (respond 200) (PText EmptyString) (PText EmptyString)
           4%nat); try reflexivity.
  lia.
Defined.

(** C5 as stated fails: in scenario B the handler registered for 500 is
    invoked zero times, not once. *)
Lemma scenarioB_handler_does_not_fire_once :
  exists tr r,
    request TestPlatform.platform failsOnce (createCall scenarioB)
      "https://api.test/x" noOptions 4 = Some (tr, Resolved r)
    /\ ok r = Some true
    /\ count (is_handler_call 1) tr = 0%nat
    /\ count (is_handler_call 1) tr <> 1%nat.
Proof.
  eexists _, _. split; [vm_compute; reflexivity|].
  split; [reflexivity|]. split; [reflexivity|]. vm_compute. discriminate.
Qed.

(** ** Bodies that cannot be replayed *)



(** ** The streaming body reader *)

Lemma pump_not_done opts u api total chunks loaded :
  Forall (fun e => is_done e = false) (pump opts u api total chunks loaded).1.
Proof. apply pump_Forall; reflexivity. Qed.

(** Once the statements before the [try] have gone through (the [start]
    hook and the indeterminate signal have returned, a reader has been
    acquired), a [done] hook that is there is called exactly once, however
    the read ends: with a value, with a rejected [read()], with a
    [JSON.parse] or a progress callback that throws. *)
Lemma done_called_once_inside_try
  (P : Platform) (res : Response) (parseAs : option ParseAs)
  (opts : RequestOptions) (api : ProgressAPI) (rs : ReadableStream)
  (done : result unit) :
  res_body res = Some rs ->
  rs_locked rs = false ->
  (forall start, progress_start api = Some start -> start = Ok tt) ->
  (forall set, progress_set api = Some set -> set None = Ok tt) ->
  progress_done api = Some done ->
  count is_done (parseWithReader P res parseAs opts true (Some api)).1 = 1%nat.
Proof.
  intros Hbody Hlock Hstart Hset Hdone. unfold parseWithReader.
  rewrite Hbody, Hlock.
  set (t := match Headers_get (res_headers res) "content-length" with
            | Some h => _ | None => _ end).
  set (started := call_start (Some api) >> _).
  assert (Hs : started.2 = Ok tt /\ count is_done started.1 = 0%nat).
  { unfold started, call_start, call_set.
    destruct (progress_start api) as [start|] eqn:Es;
      [rewrite (Hstart start eq_refl)|];
      (destruct (match t with Some t0 => truthy t0 | None => false end);
       [split; reflexivity|]);
      (destruct (progress_set api) as [set|] eqn:Eset;
       [unfold andThen, invoke; cbn [fst snd]; rewrite (Hset set eq_refl)|]);
      split; reflexivity. }
  destruct Hs as [Hs2 Hs1]. unfold andThen at 2. rewrite Hs2. cbn [fst snd ret].
  unfold andThen at 1. cbn [fst snd]. rewrite app_nil_r.
  rewrite count_app, Hs1. cbn [try_finally fst].
  rewrite count_app. unfold finally_done. rewrite Hdone. cbn [invoke fst].
  rewrite (count_none is_done); [reflexivity|].
  apply andThen_Forall; [apply pump_not_done | constructor].
Qed.

(** C8 fails on the code.  [rs.getReader()] is called after the [start]
    hook and outside the [try] block: when the body stream of the response
    is locked, the read fails after the [start] hook has been called, and
    the [done] hook is never called. *)
Theorem locked_stream_starts_without_done
  (P : Platform) (res : Response) (parseAs : option ParseAs)
  (opts : RequestOptions) (api : ProgressAPI) (rs : ReadableStream)
  (done : result unit) :
  res_body res = Some rs ->
  rs_locked rs = true ->
  progress_start api = Some (Ok tt) ->
  (forall set, progress_set api = Some set -> set None = Ok tt) ->
  progress_done api = Some done ->
  (parseWithReader P res parseAs opts true (Some api)).2 = Throw stream_is_locked
  /\ count is_start (parseWithReader P res parseAs opts true (Some api)).1 = 1%nat
  /\ count is_done (parseWithReader P res parseAs opts true (Some api)).1 = 0%nat.
Proof.
  intros Hbody Hlock Hstart Hset _. unfold parseWithReader.
  rewrite Hbody, Hlock. unfold call_start, call_set. rewrite Hstart.
  destruct (match _ with Some t => truthy t | None => false end);
    [repeat split; reflexivity|].
  destruct (progress_set api) as [set|] eqn:Eset;
    [unfold andThen, invoke; cbn [fst snd]; rewrite (Hset set eq_refl)|];
    repeat split; reflexivity.
Qed.

Lemma locked_stream_starts_without_done_witness :
  (parseWithReader TestPlatform.platform lockedBody (Some as_text)
     textWithProgress true (Some allHooks)).2 = Throw stream_is_locked
  /\ count is_start
       (parseWithReader TestPlatform.platform lockedBody (Some as_text)
          textWithProgress true (Some allHooks)).1 = 1%nat
  /\ count is_done
       (parseWithReader TestPlatform.platform lockedBody (Some as_text)
          textWithProgress true (Some allHooks)).1 = 0%nat.
Proof.
  apply (locked_stream_starts_without_done TestPlatform.platform lockedBody
           (Some as_text) textWithProgress allHooks
           {| rs_chunks := [String.list_byte_of_string "hello"];
              rs_end := Closed; rs_locked := true |} (Ok tt));
    try reflexivity.
  intros set [= <-]. reflexivity.
Defined.

(** ** Finalization of a failure *)





(** ** The URL of the error *)

(** When a call rejects on a non-success status, the [CallError] carries
    the [url] argument of [request] as it was passed. *)
Lemma status_failure_error_carries_request_argument
  (P : Platform) (W : World) (self : Call) (url : string) (opts : RequestOptions)
  (u : URL P) (fuel : nat) (tr : list event) (e : CallError) res data :
  finalUrl P self url opts = Ok u ->
  request P W self url opts fuel = Some (tr, Rejected e) ->
  outcome P W self opts (URL_toString P u) (length (retry_attempts tr))
    = StatusFailure res data ->
  ce_url e = Some url.
Proof.
  intros Hu Hreq. unfold request in Hreq. rewrite Hu in Hreq.
  apply attemptLoop_run in Hreq as (n & _ & _ & Hs & _ & Hr & Hset & _).
  rewrite Hr, length_seq. cbn [Nat.add] in *. intros Ho. rewrite Ho in Hset.
  unfold willRetryNext in Hs. rewrite Ho in Hs. cbn [react decisionFor] in Hset, Hs.
  unfold onStatusFailure in Hset. rewrite Hs in Hset.
  destruct (suppress self opts);
    [destruct (mapped opts data res); discriminate|].
  cbn [settled_of] in Hset. injection Hset as <-. reflexivity.
Qed.

(** C9 fails on the code.  With the base URL [https://api.example.com],
    the path [/products] and the query parameter [q=shoes], the transport is
    given [https://api.example.com/products?q=shoes] on each of its three
    invocations, and the [CallError] thrown for the final 500 has
    [url = "/products"]: the argument of [request], not the final URL. *)
Theorem status_error_url_differs_from_final_url :
  exists tr e,
    request TestPlatform.platform (world (fun _ => Ok (respond 500)))
      (createCall quickStart) "/products" shoes 4 = Some (tr, Rejected e)
    /\ map fst (transport_inputs tr)
       = [ "https://api.example.com/products?q=shoes";
           "https://api.example.com/products?q=shoes";
           "https://api.example.com/products?q=shoes" ]
    /\ ce_status e = Some 500%nat
    /\ ce_url e = Some "/products"
    /\ ce_url e <> Some "https://api.example.com/products?q=shoes".
Proof.
  eexists _, _. split; [vm_compute; reflexivity|].
  repeat split; try reflexivity. discriminate.
Qed.

(** ** The bearer token *)

Lemma transport_inputs_app (l1 l2 : list event) :
  transport_inputs (l1 ++ l2) = transport_inputs l1 ++ transport_inputs l2.
Proof. unfold transport_inputs. apply omap_app. Qed.

Lemma transport_inputs_none (l : list event) :
  Forall (fun e => is_fetch e = false) l -> transport_inputs l = [].
Proof.
  unfold transport_inputs. induction 1 as [|e l He _ IH]; [reflexivity|].
  cbn [omap list_omap]. destruct e; try discriminate; exact IH.
Qed.

(** Every iteration hands the same URL and the same init to the transport. *)
Lemma attemptOnce_transport_inputs P W self (url : string) opts fu (a : nat) :
  transport_inputs (events_of (attemptOnce P W self url opts fu a))
  = [(fu, init P self opts)].
Proof.
  destruct (attemptOnce_react P W self url opts fu a) as (reads & Hq & ->).
  rewrite events_of_prepend.
  change (EvFetch a fu (init P self opts) :: reads)
    with ([EvFetch a fu (init P self opts)] ++ reads).
  rewrite !transport_inputs_app.
  rewrite (transport_inputs_none reads).
  2:{ eapply Forall_impl; [exact Hq|]. intros e (? & _). assumption. }
  rewrite (transport_inputs_none (events_of _)); [reflexivity|].
  destruct (react_reaction P W self url opts fu a) as [fired d Hf|fired s Hf];
    cbn [events_of].
  - apply Forall_app. split; [|repeat constructor].
    eapply Forall_impl; [exact Hf|]. intros e (? & _). assumption.
  - eapply Forall_impl; [exact Hf|]. intros e (? & _). assumption.
Qed.

Lemma request_transport_inputs P W self (url : string) opts (u : URL P)
  (fuel : nat) (tr : list event) (s : Settled) :
  finalUrl P self url opts = Ok u ->
  request P W self url opts fuel = Some (tr, s) ->
  transport_inputs tr
  = repeat (URL_toString P u, init P self opts) (transport_calls tr)
  /\ (0 < transport_calls tr)%nat.
Proof.
  intros Hu Hreq. unfold request in Hreq. rewrite Hu in Hreq.
  apply attemptLoop_run in Hreq as (n & _ & _ & _ & Hc & _ & _ & Ht).
  rewrite Hc. split; [|lia]. rewrite Ht. clear.
  generalize (S n) as m. generalize 0%nat as a.
  intros a m. revert a. induction m as [|m IH]; intros a; [reflexivity|].
  cbn [seq flat_map repeat]. rewrite transport_inputs_app, IH.
  now rewrite attemptOnce_transport_inputs.
Qed.

Lemma Headers_set_Ok (h h' : gmap string string) (name value : string) :
  Headers_set h name value = Ok h' ->
  h' = <[toLowerCase name := normalize_value value]> h.
Proof.
  unfold Headers_set. destruct (is_header_name name && _); congruence.
Qed.

Lemma Headers_set_legal (h : gmap string string) (name value : string) :
  is_header_name name = true ->
  is_header_value (normalize_value value) = true ->
  Headers_set h name value = Ok (<[toLowerCase name := normalize_value value]> h).
Proof. intros Hn Hv. unfold Headers_set. now rewrite Hn, Hv. Qed.

Lemma Headers_get_set_other (h h' : gmap string string)
  (name other value : string) :
  Headers_set h name value = Ok h' ->
  toLowerCase name <> toLowerCase other ->
  Headers_get h' other = Headers_get h other.
Proof.
  intros H Hne. apply Headers_set_Ok in H as ->.
  unfold Headers_get. now apply lookup_insert_ne.
Qed.

Lemma Headers_get_set (h h' : gmap string string) (name value : string) :
  Headers_set h name value = Ok h' ->
  Headers_get h' name = Some (normalize_value value).
Proof.
  intros H. apply Headers_set_Ok in H as ->.
  unfold Headers_get. apply lookup_insert_eq.
Qed.

(** Whatever [set] does, the headers of other names stay as they are. *)
Lemma Headers_set_or_keep (h : gmap string string) (name other value : string) :
  toLowerCase name <> toLowerCase other ->
  Headers_get
    match Headers_set h name value with Ok h' => h' | Throw _ => h end other
  = Headers_get h other.
Proof.
  intros Hne. destruct (Headers_set h name value) as [h'|e] eqn:E;
    [|reflexivity].
  now apply (Headers_get_set_other h h' name other value).
Qed.

Lemma baseHeaders_authorization (self : Call) (opts : RequestOptions) :
  Headers_get (baseHeaders self opts) "authorization"
  = Headers_get (authorized_headers self opts) "authorization".
Proof.
  unfold baseHeaders. destruct (opt_json opts); [|reflexivity].
  destruct (Headers_has _ _); [reflexivity|].
  apply Headers_set_or_keep. discriminate.
Qed.

(** The authorization that a request sends when its headers hold none:
    the bearer token, normalised, if there is a non-empty one and it makes
    a legal header value. *)
Lemma sent_authorization (P : Platform) (self : Call) (opts : RequestOptions) :
  Headers_has (merged_headers self opts) "authorization" = false ->
  Headers_get (init_headers (init P self opts)) "authorization"
  = match resolveToken self opts with
    | Ok (Some t) =>
        if truthy_string t
           && is_header_value (normalize_value ("Bearer " +:+ t))
        then Some (normalize_value ("Bearer " +:+ t)) else None
    | _ => None
    end.
Proof.
  intros Hfree. cbn [init init_headers]. rewrite baseHeaders_authorization.
  unfold authorized_headers. rewrite Hfree.
  assert (Hnone : Headers_get (merged_headers self opts) "authorization" = None).
  { unfold Headers_has in Hfree.
    destruct (Headers_get (merged_headers self opts) "authorization");
      [discriminate | reflexivity]. }
  destruct (resolveToken self opts) as [[t|]|e]; try exact Hnone.
  destruct (truthy_string t); [|exact Hnone]. cbn [andb].
  unfold Headers_set. change (is_header_name "authorization") with true.
  cbn [andb]. destruct (is_header_value _); [|exact Hnone].
  unfold Headers_get. apply lookup_insert_eq.
Qed.

Lemma authorizations_request (P : Platform) (W : World) (self : Call)
  (url : string) (opts : RequestOptions) (u : URL P) (fuel : nat)
  (tr : list event) (s : Settled) :
  finalUrl P self url opts = Ok u ->
  request P W self url opts fuel = Some (tr, s) ->
  (0 < transport_calls tr)%nat
  /\ authorizations tr
     = repeat (Headers_get (init_headers (init P self opts)) "authorization")
         (transport_calls tr).
Proof.
  intros Hu Hr.
  destruct (request_transport_inputs P W self url opts u fuel tr s Hu Hr)
    as [Hin Hpos].
  split; [exact Hpos|]. unfold authorizations. rewrite Hin.
  generalize (transport_calls tr). intros n.
  induction n as [|n IH]; [reflexivity|]. cbn [repeat map]. now rewrite IH.
Qed.

(** C10, as the code has it.  Let the client be configured with a
    non-empty string token that makes a legal header value (a string of
    Latin-1 characters, as every string here, with no NUL, line feed or
    carriage return left in [Bearer <token>] once it is stripped of
    trailing whitespace), and let a request, made after [token.clear()],
    supply no per-call token and carry no authorization header (neither from
    the options nor from the configured headers).  Then the internal slot is
    empty, the token resolves to the configured string all the same, the
    call returns (for every fuel from some bound on), and every transport
    invocation of the call (there is at least one once the headers are
    built and the URL is assembled) is given
    [authorization: Bearer <config token>], stripped of trailing
    whitespace. *)
Theorem cleared_token_falls_back_to_config
  (P : Platform) (W : World) (config : CallConfig) (t : string) (url : string)
  (opts : RequestOptions) (u : URL P) :
  cfg_token config = Some (TokenString t) ->
  t <> EmptyString ->
  is_header_value (normalize_value ("Bearer " +:+ t)) = true ->
  opt_token opts = None ->
  Headers_has (merged_headers (token_clear (createCall config)) opts)
    "authorization" = false ->
  finalUrl P (token_clear (createCall config)) url opts = Ok u ->
  token_get (token_clear (createCall config)) = None
  /\ resolveToken (token_clear (createCall config)) opts = Ok (Some t)
  /\ (exists fuel0, forall fuel, (fuel0 <= fuel)%nat ->
        exists tr s,
          request P W (token_clear (createCall config)) url opts fuel
          = Some (tr, s))
  /\ forall (fuel : nat) (tr : list event) (s : Settled),
       request P W (token_clear (createCall config)) url opts fuel
       = Some (tr, s) ->
       (0 < transport_calls tr)%nat
       /\ authorizations tr
          = repeat (Some (normalize_value ("Bearer " +:+ t)))
              (transport_calls tr).
Proof.
  intros Htok Ht Hlegal Hopt Hhas Hu.
  set (self := token_clear (createCall config)) in *.
  assert (Hres : resolveToken self opts = Ok (Some t)).
  { unfold resolveToken. rewrite Hopt. cbn. rewrite Htok. reflexivity. }
  split; [reflexivity|]. split; [exact Hres|].
  split; [apply request_eventually_returns|]. intros fuel tr s Hreq.
  destruct (authorizations_request P W self url opts u fuel tr s Hu Hreq)
    as [Hpos Hauth].
  split; [exact Hpos|].
  rewrite Hauth, (sent_authorization P self opts Hhas), Hres, Hlegal.
  destruct t as [|c t']; [congruence|]. reflexivity.
Qed.

Lemma cleared_token_falls_back_to_config_witness :
  exists tr s,
    request TestPlatform.platform (world (fun _ => Ok (respond 200)))
      (token_clear (createCall (withToken "secret"))) "https://api.test/me"
      noOptions 3 = Some (tr, s)
    /\ token_get (token_clear (createCall (withToken "secret"))) = None
    /\ resolveToken (token_clear (createCall (withToken "secret"))) noOptions
       = Ok (Some "secret")
    /\ (0 < transport_calls tr)%nat
    /\ authorizations tr = repeat (Some "Bearer secret") (transport_calls tr).
Proof.
  destruct (cleared_token_falls_back_to_config TestPlatform.platform
              (world (fun _ => Ok (respond 200))) (withToken "secret") "secret"
              "https://api.test/me" noOptions
              {| TestPlatform.u_origin := "https://api.test";
                 TestPlatform.u_path := "/me"; TestPlatform.u_query := [] |}
              eq_refl ltac:(discriminate) eq_refl eq_refl eq_refl eq_refl)
    as (Hget & Hres & _ & Hsent).
  eexists _, _. split; [vm_compute; reflexivity|].
  split; [exact Hget|]. split; [exact Hres|].
  eapply (Hsent 3%nat). reflexivity.
Defined.

(** C10 as stated fails: the empty string is a string token, and a client
    configured with it sends no authorization header after [token.clear()]
    (nor before), since an empty token is not turned into a header.  Nor
    does a token that holds a line feed: [set] throws on the value, the
    [catch] swallows the error, and the request goes out without
    authorization. *)
Lemma empty_string_token_sends_no_header :
  (exists tr s,
     request TestPlatform.platform (world (fun _ => Ok (respond 200)))
       (token_clear (createCall (withToken EmptyString))) "https://api.test/me"
       noOptions 3 = Some (tr, s)
     /\ resolveToken (token_clear (createCall (withToken EmptyString))) noOptions
        = Ok (Some EmptyString)
     /\ authorizations tr = [None])
  /\ (exists tr s,
        request TestPlatform.platform (world (fun _ => Ok (respond 200)))
          (token_clear (createCall (withToken twoLines))) "https://api.test/me"
          noOptions 3 = Some (tr, s)
        /\ resolveToken (token_clear (createCall (withToken twoLines))) noOptions
           = Ok (Some twoLines)
        /\ authorizations tr = [None]).
Proof.
  split; eexists _, _; (split; [vm_compute; reflexivity|]); split; reflexivity.
Qed.

(** * Further properties *)

(** ** helper.ts: retry decisions *)

(** [decisionFromStatus] consults three tiers of the [onStatus] map, in
    this order: the numeric code, the symbolic name of the code, the range
    wildcard; without an [onStatus] map there is no decision. *)
Lemma decisionFromStatus_three_tiers (status : nat) (rc : RetryConfig) :
  decisionFromStatus status rc
  = match onStatus rc with
    | None => None
    | Some map =>
        first_some [ map !! pretty status; named map status;
                     map !! statusToWildcard status ]
    end.
Proof.
  unfold decisionFromStatus. destruct (onStatus rc) as [map|]; [|reflexivity].
  rewrite by_name_named. cbn [first_some].
  destruct (map !! pretty status); [reflexivity|].
  destruct (named map status); [reflexivity|].
  destruct (map !! statusToWildcard status); reflexivity.
Qed.

(** X1.  The decision [true] grants exactly what [{attempts: 1}] grants, at
    every attempt; the decision [false], a missing decision and
    [{attempts: 0}] never grant anything. *)
Theorem boolean_decisions_as_attempts (attempt : nat) :
  allowAndDelayFromDecision (Some (DBoolean true)) attempt
  = allowAndDelayFromDecision (Some (DObject (of_Z 1) None)) attempt
  /\ allowAndDelayFromDecision (Some (DBoolean false)) attempt
     = allowAndDelayFromDecision None attempt
  /\ allowAndDelayFromDecision (Some (DObject (of_Z 0) None)) attempt
     = allowAndDelayFromDecision None attempt.
Proof.
  repeat split.
  - destruct attempt as [|attempt]; [reflexivity|].
    cbn [allowAndDelayFromDecision andb].
    change (ToInt32 (of_Z 1)) with 1%Z.
    destruct (Z.ltb_spec (Z.of_nat (S attempt)) (Z.max 0 1)); [lia|reflexivity].
  - cbn [allowAndDelayFromDecision].
    change (ToInt32 (of_Z 0)) with 0%Z.
    destruct (Z.ltb_spec (Z.of_nat attempt) (Z.max 0 0)); [lia|reflexivity].
Qed.

(** X2.  What a decision grants only shrinks as the attempts go by: a retry
    granted at an attempt is granted at every earlier attempt. *)
Theorem allow_is_downward_closed (decision : option RetryDecision)
  (attempt earlier : nat) :
  (earlier <= attempt)%nat ->
  allow (allowAndDelayFromDecision decision attempt) = true ->
  allow (allowAndDelayFromDecision decision earlier) = true.
Proof.
  intros Hle. destruct decision as [[b|x d]|]; cbn [allowAndDelayFromDecision allow].
  - intros H. apply andb_prop in H as [-> H]. apply Nat.ltb_lt in H.
    cbn [andb]. apply Nat.ltb_lt. lia.
  - destruct (Z.ltb_spec (Z.of_nat attempt) (Z.max 0 (ToInt32 x))) as [H|H];
      [|discriminate].
    intros _.
    destruct (Z.ltb_spec (Z.of_nat earlier) (Z.max 0 (ToInt32 x))) as [H'|H']; [|lia].
    destruct d as [[n|f]|]; try reflexivity.
    destruct (isFinite _ && geb _ _); reflexivity.
  - discriminate.
Qed.

Lemma allow_is_downward_closed_witness :
  allow (allowAndDelayFromDecision (Some (DObject (of_Z 3) None)) 1) = true.
Proof.
  apply (allow_is_downward_closed (Some (DObject (of_Z 3) None)) 2 1).
  - lia.
  - reflexivity.
Defined.

(** X3.  [attempts] goes through [| 0]: a count from [2^31] up to
    [2^32 - 1] wraps to a negative number and grants no retry at all, and so
    do NaN, the infinities and the negative counts. *)
Theorem attempts_wrap_to_no_retry :
  (forall (N : Z) (d : option DelaySpec) (attempt : nat),
      (2 ^ 31 <= N < 2 ^ 32)%Z ->
      allow (allowAndDelayFromDecision (Some (DObject (of_Z N) d)) attempt) = false)
  /\ (forall (N : Z) (d : option DelaySpec) (attempt : nat),
        (- 2 ^ 31 <= N <= 0)%Z ->
        allow (allowAndDelayFromDecision (Some (DObject (of_Z N) d)) attempt) = false)
  /\ (forall (x : number) (d : option DelaySpec) (attempt : nat),
        isFinite x = false ->
        allow (allowAndDelayFromDecision (Some (DObject x d)) attempt) = false).
Proof.
  assert (Hstop : forall x d attempt, (ToInt32 x <= 0)%Z ->
            allow (allowAndDelayFromDecision (Some (DObject x d)) attempt) = false).
  { intros x d attempt Hx. cbn [allowAndDelayFromDecision].
    destruct (Z.ltb_spec (Z.of_nat attempt) (Z.max 0 (ToInt32 x))); [lia|reflexivity]. }
  repeat split.
  - intros N d attempt HN. apply Hstop.
    unfold ToInt32, of_Z. cbn [inject_Z Qnum Qden]. rewrite Z.quot_1_r.
    rewrite Z.mod_small by lia.
    destruct (Z.ltb_spec N (2 ^ 31)); lia.
  - intros N d attempt HN. apply Hstop.
    unfold ToInt32, of_Z. cbn [inject_Z Qnum Qden]. rewrite Z.quot_1_r.
    destruct (Z.eq_dec N 0%Z) as [->|Hne]; [vm_compute; discriminate|].
    replace (N mod 2 ^ 32)%Z with (N + 2 ^ 32)%Z.
    + destruct (Z.ltb_spec (N + 2 ^ 32) (2 ^ 31)); lia.
    + apply Z.mod_unique with (q := (-1)%Z); lia.
  - intros x d attempt Hx. apply Hstop. destruct x; try discriminate; cbn; lia.
Qed.

Lemma attempts_wrap_to_no_retry_witness :
  allow (allowAndDelayFromDecision (Some (DObject (of_Z 2147483648) None)) 0) = false
  /\ allow (allowAndDelayFromDecision (Some (DObject (of_Z (-3)) None)) 0) = false
  /\ allow (allowAndDelayFromDecision (Some (DObject PInf None)) 0) = false.
Proof.
  split; [|split].
  - apply (proj1 attempts_wrap_to_no_retry 2147483648%Z None 0%nat). lia.
  - apply (proj1 (proj2 attempts_wrap_to_no_retry) (-3)%Z None 0%nat). lia.
  - apply (proj2 (proj2 attempts_wrap_to_no_retry) PInf None 0%nat). reflexivity.
Defined.

(** X4.  An explicit delay is only reported together with a granted retry,
    and it comes from the decision: a numeric [delay] is passed on as it is,
    and the value of a [delay] function is passed on only when it is finite
    and at least 0. *)
Theorem reported_delay_comes_from_decision (decision : option RetryDecision)
  (attempt : nat) (v : number) :
  delay (allowAndDelayFromDecision decision attempt) = Some v ->
  allow (allowAndDelayFromDecision decision attempt) = true
  /\ exists attempts spec,
       decision = Some (DObject attempts (Some spec))
       /\ match spec with
          | DelayNumber n => v = n
          | DelayFunction f =>
              v = f attempt /\ isFinite v = true /\ geb v (of_Z 0) = true
          end.
Proof.
  destruct decision as [[b|x d]|]; cbn [allowAndDelayFromDecision delay allow];
    try discriminate.
  destruct (Z.of_nat attempt <? Z.max 0 (ToInt32 x))%Z; [|discriminate].
  destruct d as [[n|f]|]; cbn [delay allow]; try discriminate.
  - intros [= <-]. split; [reflexivity|]. eexists _, _. split; reflexivity.
  - destruct (isFinite (f attempt) && geb (f attempt) (of_Z 0)) eqn:E;
      cbn [delay allow]; [|discriminate].
    intros [= <-]. apply andb_prop in E as [E1 E2].
    split; [reflexivity|]. eexists _, (DelayFunction f). split; [reflexivity|].
    auto.
Qed.

Lemma reported_delay_comes_from_decision_witness :
  allow (allowAndDelayFromDecision
           (Some (DObject (of_Z 2) (Some (DelayFunction (fun a => of_nat (100 * a))))))
           1) = true.
Proof.
  apply (reported_delay_comes_from_decision
           (Some (DObject (of_Z 2) (Some (DelayFunction (fun a => of_nat (100 * a))))))
           1 (of_nat 100)).
  reflexivity.
Defined.

(** ** helper.ts: the delay *)

(** X5.  The [retry-after] header is consulted only when the flag is set
    and no explicit delay is supplied: otherwise the response plays no part
    in the delay. *)
Theorem response_ignored_unless_respected (P : Platform) (env : Ambient)
  (a : DelayArgs) :
  da_respectRetryAfterHeader a = false \/ is_Some (da_delay a) ->
  computeDelay P env a = computeDelay P env (without_response a).
Proof.
  intros H. unfold computeDelay, without_response. cbn [da_delay da_maxDelay].
  destruct (da_delay a) as [d|]; [reflexivity|].
  destruct H as [H|[x H]]; [|discriminate].
  unfold retryAfterMs. cbn [da_respectRetryAfterHeader da_response].
  rewrite H. reflexivity.
Qed.

Lemma response_ignored_unless_respected_witness :
  computeDelay TestPlatform.platform halfway
    (delayArgsFor (retryLater "2") false None)
  = computeDelay TestPlatform.platform halfway
      (without_response (delayArgsFor (retryLater "2") false None)).
Proof.
  apply (response_ignored_unless_respected TestPlatform.platform halfway
           (delayArgsFor (retryLater "2") false None)).
  left. reflexivity.
Defined.

Lemma digits_value_bound (s : string) (acc : N) :
  (digits_value acc s + 23 <= (acc + 23) * 10 ^ N.of_nat (String.length s))%N.
Proof.
  revert acc. induction s as [|c s IH]; intros acc.
  - cbn. lia.
  - cbn [digits_value String.length]. etransitivity; [apply IH|].
    rewrite Nat2N.inj_succ, N.pow_succ_r'.
    assert (Hc : (N_of_ascii c < 256)%N) by apply N_ascii_bounded.
    nia.
Qed.

(** The milliseconds of at most 12 digits of seconds are far from
    overflowing. *)
Lemma seconds_finite (ra : string) :
  (String.length ra <= 12)%nat ->
  mul (Number_of_digits ra) (of_Z 1000)
  = of_Z (Z.of_N (digits_value 0 ra) * 1000).
Proof.
  intros Hlen. unfold Number_of_digits, of_Z. cbn [mul].
  rewrite <- inject_Z_mult. apply of_Q_nonneg_small.
  - change 0%Q with (inject_Z 0). rewrite <- Zle_Qle. lia.
  - rewrite <- Zlt_Qlt.
    pose proof (digits_value_bound ra 0) as H.
    assert (Hp : (10 ^ N.of_nat (String.length ra) <= 10 ^ 12)%N).
    { apply N.pow_le_mono_r; lia. }
    assert (Hb : (Z.of_N (digits_value 0 ra) * 1000 < 10 ^ 17)%Z) by nia.
    eapply Z.lt_trans; [exact Hb|]. reflexivity.
Qed.

(** X6.  A [retry-after] header made of decimal digits is a number of
    seconds: with the flag set and no explicit delay, the delay is that many
    thousand milliseconds, capped by [maxDelay], whatever the attempt, the
    backoff base, the clock and the random source.  (The header has at most
    12 digits, so that the product is an exact binary64 number.) *)
Theorem retry_after_seconds (P : Platform) (env : Ambient) (a : DelayArgs)
  (ra : string) :
  da_delay a = None ->
  da_respectRetryAfterHeader a = true ->
  retry_after_header a = Some ra ->
  only_digits ra = true ->
  (String.length ra <= 12)%nat ->
  computeDelay P env a
  = Math_min (da_maxDelay a) (of_Z (Z.of_N (digits_value 0 ra) * 1000)).
Proof.
  intros Hd Hr Hh Hdig Hlen. unfold computeDelay, retryAfterMs. rewrite Hd, Hr.
  unfold retry_after_header in Hh.
  destruct (da_response a) as [response|]; [|discriminate]. rewrite Hh.
  assert (Ht : truthy_string ra = true) by (destruct ra; [discriminate|reflexivity]).
  rewrite Ht, Hdig, (seconds_finite ra Hlen). reflexivity.
Qed.

Lemma retry_after_seconds_witness :
  computeDelay TestPlatform.platform halfway
    (delayArgsFor (retryLater "2") true None) = of_Z 2000
  /\ computeDelay TestPlatform.platform halfway
       (delayArgsFor (retryLater "120") true None) = of_Z 30000.
Proof.
  split.
  - apply (retry_after_seconds TestPlatform.platform halfway
             (delayArgsFor (retryLater "2") true None) "2");
      try reflexivity; cbn; lia.
  - apply (retry_after_seconds TestPlatform.platform halfway
             (delayArgsFor (retryLater "120") true None) "120");
      try reflexivity; cbn; lia.
Defined.

(** X7.  A [retry-after] header that is neither digits nor a date that
    [Date.parse] understands is ignored: the delay is the backoff delay, as
    if there were no response. *)
Theorem unparseable_retry_after_is_ignored (P : Platform) (env : Ambient)
  (a : DelayArgs) (ra : string) :
  retry_after_header a = Some ra ->
  only_digits ra = false ->
  Date_parse P ra = NaN ->
  computeDelay P env a = computeDelay P env (without_response a).
Proof.
  intros Hh Hdig Hdate. unfold computeDelay, without_response.
  cbn [da_delay da_maxDelay]. destruct (da_delay a) as [d|]; [reflexivity|].
  unfold retryAfterMs. cbn [da_respectRetryAfterHeader da_response].
  unfold retry_after_header in Hh.
  destruct (da_response a) as [response|]; [|discriminate]. rewrite Hh, Hdig, Hdate.
  destruct (da_respectRetryAfterHeader a); [|reflexivity].
  destruct (truthy_string ra); reflexivity.
Qed.

Lemma unparseable_retry_after_is_ignored_witness :
  computeDelay TestPlatform.platform halfway
    (delayArgsFor (retryLater "soon") true None)
  = computeDelay TestPlatform.platform halfway
      (without_response (delayArgsFor (retryLater "soon") true None)).
Proof.
  apply (unparseable_retry_after_is_ignored TestPlatform.platform halfway
           (delayArgsFor (retryLater "soon") true None) "soon"); reflexivity.
Defined.

(** X8.  A [retry-after] date that is not in the future means no wait: with
    the flag set, no explicit delay and a [maxDelay] of at least 0, the delay
    is the number 0. *)
Theorem past_retry_after_date_means_no_wait (P : Platform) (env : Ambient)
  (a : DelayArgs) (ra : string) (t : Z) :
  da_delay a = None ->
  da_respectRetryAfterHeader a = true ->
  retry_after_header a = Some ra ->
  ra <> EmptyString ->
  only_digits ra = false ->
  Date_parse P ra = of_Z t ->
  (t <= Date_now env)%Z ->
  leb (of_Z 0) (da_maxDelay a) = true ->
  exists q, computeDelay P env a = Fin q /\ (q == 0)%Q.
Proof.
  intros Hd Hr Hh Hne Hdig Hdate Ht Hm. unfold computeDelay, retryAfterMs.
  rewrite Hd, Hr. unfold retry_after_header in Hh.
  destruct (da_response a) as [response|]; [|discriminate]. rewrite Hh, Hdig, Hdate.
  destruct ra as [|c ra]; [congruence|]. cbn [truthy_string].
  assert (E : exists q, Math_max (of_Z 0) (sub (of_Z t) (of_Z (Date_now env))) = Fin q
                        /\ (q == 0)%Q).
  { unfold of_Z. cbn [sub Math_max leb].
    destruct (Qle_bool (inject_Z 0) (inject_Z t - inject_Z (Date_now env))) eqn:E.
    - eexists. split; [reflexivity|]. apply Qle_bool_iff in E.
      apply Qle_antisym; [|exact E].
      unfold Qminus. rewrite <- inject_Z_opp, <- inject_Z_plus.
      change 0%Q with (inject_Z 0). rewrite <- Zle_Qle. lia.
    - eexists. split; reflexivity. }
  destruct E as (q & -> & Hq). cbn [isFinite].
  destruct (da_maxDelay a) as [m| | |]; try discriminate.
  - unfold Math_min, of_Z in *. cbn [leb] in *.
    apply Qle_bool_iff in Hm.
    destruct (Qle_bool m q) eqn:E'.
    + exists m. split; [reflexivity|]. apply Qle_bool_iff in E'.
      apply Qle_antisym; [now rewrite <- Hq|exact Hm].
    + exists q. split; [reflexivity | exact Hq].
  - exists q. split; [reflexivity | exact Hq].
Qed.

Lemma past_retry_after_date_means_no_wait_witness :
  exists q,
    computeDelay datedPlatform {| Date_now := 5000; Math_random := 1 # 2 |}
      (delayArgsFor (retryLater "Thu, 01 Jan 1970 00:00:01 GMT") true None)
    = Fin q /\ (q == 0)%Q.
Proof.
  apply (past_retry_after_date_means_no_wait datedPlatform
           {| Date_now := 5000; Math_random := 1 # 2 |}
           (delayArgsFor (retryLater "Thu, 01 Jan 1970 00:00:01 GMT") true None)
           "Thu, 01 Jan 1970 00:00:01 GMT" 1000%Z);
    try reflexivity; discriminate.
Defined.

Lemma Math_min_lt_right (m : number) (x bound : Q) :
  m <> NaN -> (x < bound)%Q -> ltb (Math_min m (Fin x)) (Fin bound) = true.
Proof.
  intros Hm Hx. destruct m as [m| | |]; try congruence; cbn.
  - destruct (Qle_bool m x) eqn:E; cbn; unfold Qltb;
      (destruct (Qle_bool bound _) eqn:E'; [|reflexivity]);
      apply Qle_bool_iff in E'; exfalso.
    + apply Qle_bool_iff in E. apply (Qlt_irrefl x).
      eapply Qlt_le_trans; [exact Hx|]. now apply Qle_trans with m.
    + apply (Qlt_irrefl x). now apply Qlt_le_trans with bound.
  - unfold Qltb. destruct (Qle_bool bound x) eqn:E'; [|reflexivity].
    apply Qle_bool_iff in E'. exfalso. apply (Qlt_irrefl x).
    now apply Qlt_le_trans with bound.
  - reflexivity.
Qed.

(** X9.  Full jitter: without an explicit delay and without a usable
    [retry-after] value, a positive finite backoff base whose cap
    [backoffBase * Math.pow(2, attempt)] does not overflow and a random
    source in [[0, 1)] give a delay strictly below that cap, whatever
    [maxDelay] is (short of NaN). *)
Theorem backoff_stays_below_cap (P : Platform) (env : Ambient) (a : DelayArgs)
  (b : Q) :
  da_delay a = None ->
  retryAfterMs P (Date_now env) a = None ->
  da_backoffBase a = Fin b ->
  (0 < b)%Q ->
  isFinite (mul (da_backoffBase a) (pow2 (da_attempt a))) = true ->
  (0 <= Math_random env < 1)%Q ->
  da_maxDelay a <> NaN ->
  ltb (computeDelay P env a) (mul (da_backoffBase a) (pow2 (da_attempt a)))
  = true.
Proof.
  intros Hd Hra Hb Hb0 HX [Hr0 Hr1] Hm. unfold computeDelay.
  rewrite Hd, Hra, Hb in *.
  apply backoff_cap_finite in HX as [-> Hhi].
  set (X := (b * inject_Z (2 ^ Z.of_nat (da_attempt a)))%Q) in *.
  assert (HX : (0 < X)%Q).
  { apply Qmult_lt_0_compat; [exact Hb0|].
    change 0%Q with (inject_Z 0). rewrite <- Zlt_Qlt. lia. }
  rewrite jitter_finite by auto using Qlt_le_weak.
  cbn [Math_floor]. unfold of_Z.
  apply Math_min_lt_right; [exact Hm|].
  eapply Qle_lt_trans; [apply Qfloor_le|].
  rewrite <- (Qmult_1_l X) at 2. apply Qmult_lt_compat_r; assumption.
Qed.

Lemma backoff_stays_below_cap_witness :
  ltb (computeDelay TestPlatform.platform halfway
         (delayArgs 3 (of_Z 30000) (of_Z 250) None))
      (mul (of_Z 250) (pow2 3)) = true.
Proof.
  apply (backoff_stays_below_cap TestPlatform.platform halfway
           (delayArgs 3 (of_Z 30000) (of_Z 250) None) (inject_Z 250)).
  - reflexivity.
  - reflexivity.
  - reflexivity.
  - reflexivity.
  - reflexivity.
  - split; [discriminate | reflexivity].
  - discriminate.
Defined.

(** ** helper.ts: status names, wildcards and result fields *)

(** X10.  [codeToName] is the inverse of [StatusCodeByName]: every name of
    the table is found under its code, and nothing else is in the map. *)
Theorem codeToName_inverts_StatusCodeByName :
  (forall name code, (name, code) ∈ StatusCodeByName ->
     codeToName !! code = Some name)
  /\ (forall code name, codeToName !! code = Some name ->
        (name, code) ∈ StatusCodeByName).
Proof.
  split.
  - assert (H : Forall (fun nc => codeToName !! nc.2 = Some nc.1) StatusCodeByName).
    { apply (bool_decide_unpack _). vm_compute. exact I. }
    intros name code Hin. rewrite Forall_forall in H. exact (H _ Hin).
  - assert (H : map_Forall (fun code name => (name, code) ∈ StatusCodeByName)
                  codeToName).
    { apply (bool_decide_unpack _). vm_compute. exact I. }
    intros code name Hl. exact (H _ _ Hl).
Qed.

Lemma codeToName_inverts_StatusCodeByName_witness :
  codeToName !! 404%nat = Some "notFound"
  /\ ("tooManyRequests", 429%nat) ∈ StatusCodeByName.
Proof.
  split.
  - apply (proj1 codeToName_inverts_StatusCodeByName "notFound" 404%nat).
    apply (bool_decide_unpack _). vm_compute. exact I.
  - apply (proj2 codeToName_inverts_StatusCodeByName 429%nat "tooManyRequests").
    reflexivity.
Defined.

Lemma length_append (s t : string) :
  String.length (s +:+ t) = (String.length s + String.length t)%nat.
Proof.
  induction s as [|c s IH]; [reflexivity|].
  change (String c s +:+ t) with (String c (s +:+ t)). cbn. f_equal. exact IH.
Qed.

Lemma append_right_inj (t s1 s2 : string) : s1 +:+ t = s2 +:+ t -> s1 = s2.
Proof.
  revert s2. induction s1 as [|c s1 IH]; intros [|c' s2] H.
  - reflexivity.
  - exfalso. apply (f_equal String.length) in H.
    rewrite !length_append in H. cbn in H. lia.
  - exfalso. apply (f_equal String.length) in H.
    rewrite !length_append in H. cbn in H. lia.
  - change (String c (s1 +:+ t) = String c' (s2 +:+ t)) in H.
    injection H as -> H. f_equal. now apply IH.
Qed.

(** X11.  Two statuses have the same range wildcard exactly when they lie
    in the same hundred. *)
Theorem wildcard_is_the_hundred (a b : nat) :
  statusToWildcard a = statusToWildcard b <-> (a / 100 = b / 100)%nat.
Proof.
  unfold statusToWildcard. split.
  - intros H. apply append_right_inj in H. now apply (inj pretty) in H.
  - intros ->. reflexivity.
Qed.

Lemma keep_keep {A} (l : list ReturnFieldsEnum) (f : ReturnFieldsEnum)
  (v : option A) : keep l f (keep l f v) = keep l f v.
Proof. unfold keep. destruct (includes_field l f); reflexivity. Qed.

(** X12.  Filtering the result fields twice is filtering them once, and
    filtering never puts anything into a field: every field of the filtered
    object is absent or is the field of the object. *)
Theorem filterFields_idempotent_and_shrinking (obj : CallResult)
  (opts : RequestOptions) (config : CallConfig) :
  filterFields (filterFields obj opts config) opts config
  = filterFields obj opts config
  /\ (let r := filterFields obj opts config in
      (content r = None \/ content r = content obj)
      /\ (status r = None \/ status r = status obj)
      /\ (statusText r = None \/ statusText r = statusText obj)
      /\ (headers r = None \/ headers r = headers obj)
      /\ (url r = None \/ url r = url obj)
      /\ (ok r = None \/ ok r = ok obj)
      /\ (redirected r = None \/ redirected r = redirected obj)
      /\ (Types.method r = None \/ Types.method r = Types.method obj)
      /\ (error r = None \/ error r = error obj)).
Proof.
  unfold filterFields. destruct (fieldsToReturn opts config) as [l|].
  - split.
    + cbn. now rewrite !keep_keep.
    + cbn. unfold keep.
      repeat split; destruct (includes_field l _); auto.
  - split; [reflexivity|]. cbn. repeat split; auto.
Qed.

(** X13.  An empty selection means two different things: an empty
    [returnFields] of the call is ignored, so that the selection of the
    configuration applies (the whole object, when there is none); an empty
    [returnFields] of the configuration, when the call selects nothing
    itself, removes every field. *)
Theorem empty_field_selections (obj : CallResult) (opts : RequestOptions)
  (config : CallConfig) :
  (opt_returnFields opts = Some [] -> cfg_returnFields config = None ->
     filterFields obj opts config = obj)
  /\ (opt_returnFields opts = Some [] \/ opt_returnFields opts = None ->
        cfg_returnFields config = Some [] ->
        filterFields obj opts config = emptyResult).
Proof.
  unfold filterFields, fieldsToReturn. split.
  - intros -> ->. reflexivity.
  - intros [-> | ->] ->; reflexivity.
Qed.

Lemma empty_field_selections_witness :
  filterFields fullResult (selecting (Some [])) noConfig = fullResult
  /\ filterFields fullResult (selecting (Some [])) noFields = emptyResult.
Proof.
  split.
  - apply (proj1 (empty_field_selections fullResult (selecting (Some [])) noConfig));
      reflexivity.
  - apply (proj2 (empty_field_selections fullResult (selecting (Some [])) noFields));
      [left|]; reflexivity.
Defined.

(** ** helper.ts: reading the body *)

Lemma loaded_values_app (a b : list event) :
  loaded_values (a ++ b) = loaded_values a ++ loaded_values b.
Proof. unfold loaded_values. apply omap_app. Qed.

Lemma loaded_values_none (l : list event) :
  Forall (fun e => is_onProgress e = false) l -> loaded_values l = [].
Proof.
  unfold loaded_values. induction 1 as [|e l He _ IH]; [reflexivity|].
  destruct e; try discriminate; exact IH.
Qed.

Lemma andThen_ok {A B} (m : traced A) (k : traced B) (a : A) :
  m.2 = Ok a -> m >> k = (m.1 ++ k.1, k.2).
Proof. intros H. unfold andThen. now rewrite H. Qed.

Lemma call_onProgress_returns (opts : RequestOptions) (info : ProgressInfo) :
  onProgress_returns opts ->
  (call_onProgress opts info).2 = Ok tt
  /\ loaded_values (call_onProgress opts info).1
     = match opt_onProgress opts with
       | Some _ => [loaded info]
       | None => []
       end.
Proof.
  intros Hon. unfold call_onProgress.
  destruct (opt_onProgress opts) as [f|] eqn:Ef; [|split; reflexivity].
  cbn [invoke fst snd]. rewrite (Hon f info Ef). split; reflexivity.
Qed.

Lemma call_set_returns (api : option ProgressAPI) (p : option number) :
  hooks_return api ->
  (call_set api p).2 = Ok tt /\ loaded_values (call_set api p).1 = [].
Proof.
  intros Hhooks. split.
  - unfold call_set. destruct api as [a|]; [|reflexivity].
    destruct (progress_set a) as [set|] eqn:Es; [|reflexivity].
    cbn [invoke snd]. now apply (proj2 (Hhooks a eq_refl) set).
  - apply loaded_values_none. apply call_set_Forall. reflexivity.
Qed.

Lemma call_start_returns (api : option ProgressAPI) :
  hooks_return api ->
  (call_start api).2 = Ok tt /\ loaded_values (call_start api).1 = [].
Proof.
  intros Hhooks. unfold call_start. destruct api as [a|]; [|split; reflexivity].
  destruct (progress_start a) as [start|] eqn:Es; [|split; reflexivity].
  cbn [invoke fst snd]. rewrite (proj1 (Hhooks a eq_refl) start Es).
  split; reflexivity.
Qed.

Lemma finally_done_returns (u : bool) (api : option ProgressAPI) :
  (u = true -> done_returns api) ->
  (finally_done u api).2 = Ok tt /\ loaded_values (finally_done u api).1 = [].
Proof.
  intros Hdone. unfold finally_done. destruct u; [|split; reflexivity].
  destruct api as [a|]; [|split; reflexivity].
  destruct (progress_done a) as [done|] eqn:Ed; [|split; reflexivity].
  cbn [invoke fst snd]. rewrite (Hdone eq_refl a done eq_refl Ed).
  split; reflexivity.
Qed.

Lemma notify_returns (opts : RequestOptions) (u : bool)
  (api : option ProgressAPI) (total : option number) (l : nat) :
  onProgress_returns opts ->
  (u = true -> hooks_return api) ->
  (notify opts u api total l).2 = Ok tt
  /\ loaded_values (notify opts u api total l).1
     = match opt_onProgress opts with
       | Some _ => [l]
       | None => []
       end.
Proof.
  intros Hon Hhooks. unfold notify.
  destruct (call_onProgress_returns opts
              {| loaded := l; total := total; percent := percent_of total l |}
              Hon) as [H2 H1].
  rewrite (andThen_ok _ _ tt H2). cbn [fst snd].
  rewrite loaded_values_app, H1. cbn [loaded].
  destruct u.
  - destruct (call_set_returns api (percent_of total l) (Hhooks eq_refl))
      as [S2 S1].
    rewrite S2, S1, app_nil_r. split; reflexivity.
  - cbn [ret fst snd]. rewrite app_nil_r. split; reflexivity.
Qed.

(** When no callback throws, the loop goes through every chunk. *)
Lemma pump_returns (opts : RequestOptions) (u : bool)
  (api : option ProgressAPI) (total : option number) (chunks : list bytes)
  (l : nat) :
  onProgress_returns opts ->
  (u = true -> hooks_return api) ->
  (pump opts u api total chunks l).2 = Ok tt
  /\ loaded_values (pump opts u api total chunks l).1
     = match opt_onProgress opts with
       | Some _ =>
           map (fun i => (l + length (concat (take (S i) chunks)))%nat)
               (seq 0 (length chunks))
       | None => []
       end.
Proof.
  intros Hon Hhooks. revert l. induction chunks as [|v rest IH]; intros l.
  - cbn. split; [reflexivity|]. now destruct (opt_onProgress opts).
  - cbn [pump]. destruct (IH (l + length v)%nat) as [IH2 IH1].
    destruct (notify_returns opts u api total (l + length v) Hon Hhooks)
      as [Hn2 Hn1].
    rewrite (andThen_ok _ _ tt Hn2). cbn [fst snd].
    split; [exact IH2|]. rewrite loaded_values_app, Hn1, IH1.
    destruct (opt_onProgress opts); [|reflexivity].
    cbn [length seq map]. rewrite <- seq_shift, map_map.
    cbn [app take concat]. rewrite app_nil_r. f_equal.
    apply map_ext. intros i. cbn [take concat]. rewrite length_app. lia.
Qed.

(** When no callback throws, reading an unlocked body goes through the
    three stages: the hooks of the start, the loop, and the [done] hook; the
    result is that of the assembly. *)
Lemma parseWithReader_returns (P : Platform) (res : Response)
  (parseAs : option ParseAs) (opts : RequestOptions) (u : bool)
  (api : option ProgressAPI) (rs : ReadableStream) :
  res_body res = Some rs -> rs_locked rs = false ->
  onProgress_returns opts ->
  (u = true -> hooks_return api) ->
  (u = true -> done_returns api) ->
  (parseWithReader P res parseAs opts u api).2
  = match rs_end rs with
    | Errored e => Throw e
    | Closed => assemble P res parseAs (rs_chunks rs)
    end
  /\ loaded_values (parseWithReader P res parseAs opts u api).1
     = match opt_onProgress opts with
       | Some _ =>
           map (fun i => length (concat (take (S i) (rs_chunks rs))))
               (seq 0 (length (rs_chunks rs)))
       | None => []
       end.
Proof.
  intros Hbody Hfree Hon Hhooks Hdone. unfold parseWithReader.
  rewrite Hbody, Hfree.
  set (t := match Headers_get (res_headers res) "content-length" with
            | Some h => _ | None => _ end).
  set (started := if u then call_start api >> _ else ret tt).
  assert (Hs : started.2 = Ok tt /\ loaded_values started.1 = []).
  { unfold started. destruct u; [|split; reflexivity].
    destruct (call_start_returns api (Hhooks eq_refl)) as [H2 H1].
    rewrite (andThen_ok _ _ tt H2). cbn [fst snd].
    rewrite loaded_values_app, H1.
    destruct (match t with Some t0 => truthy t0 | None => false end);
      [split; reflexivity|].
    destruct (call_set_returns api None (Hhooks eq_refl)) as [S2 S1].
    rewrite S2, S1. split; reflexivity. }
  destruct Hs as [Hs2 Hs1].
  destruct (pump_returns opts u api t (rs_chunks rs) 0 Hon Hhooks) as [Hp2 Hp1].
  destruct (finally_done_returns u api Hdone) as [Hd2 Hd1].
  rewrite (andThen_ok started (ret tt) tt Hs2). cbn [ret fst snd].
  rewrite (andThen_ok (started.1 ++ [], Ok tt) _ tt eq_refl).
  cbn [try_finally fst snd]. rewrite Hd2.
  rewrite (andThen_ok _ _ tt Hp2). cbn [fst snd]. split; [reflexivity|].
  rewrite !loaded_values_app, Hs1, Hp1, Hd1, !app_nil_r. cbn [app].
  destruct (opt_onProgress opts); reflexivity.
Qed.

(** X14.  While an unlocked body is read and no callback throws,
    [onProgress] is called once per chunk, and the [loaded] of the call
    numbered [i] (from 0) is the number of bytes of the chunks 0 to [i]: the
    last call reports the size of the whole body.  Without the option no
    such call is made. *)
Theorem onProgress_reports_running_byte_count (P : Platform) (res : Response)
  (parseAs : option ParseAs) (opts : RequestOptions) (useProgressApi : bool)
  (progressAPI : option ProgressAPI) (rs : ReadableStream)
  (Hbody : res_body res = Some rs) (Hfree : rs_locked rs = false)
  (Hcallback : onProgress_returns opts)
  (Hhooks : useProgressApi = true -> hooks_return progressAPI)
  (Hdone : useProgressApi = true -> done_returns progressAPI) :
  loaded_values (parseWithReader P res parseAs opts useProgressApi progressAPI).1
  = match opt_onProgress opts with
    | Some _ =>
        map (fun i => length (concat (take (S i) (rs_chunks rs))))
            (seq 0 (length (rs_chunks rs)))
    | None => []
    end.
Proof.
  exact (proj2 (parseWithReader_returns P res parseAs opts useProgressApi
                  progressAPI rs Hbody Hfree Hcallback Hhooks Hdone)).
Qed.

Lemma onProgress_reports_running_byte_count_witness :
  loaded_values
    (parseWithReader TestPlatform.platform
       (streamed 200 [] ["ab"; "cde"; "f"]) (Some as_text) textWithProgress
       true (Some allHooks)).1
  = [2; 5; 6]%nat.
Proof.
  apply (onProgress_reports_running_byte_count TestPlatform.platform
           (streamed 200 [] ["ab"; "cde"; "f"]) (Some as_text) textWithProgress
           true (Some allHooks) _ eq_refl eq_refl).
  - intros f i [= <-]. reflexivity.
  - intros _ a [= <-]. split; [intros start [= <-] | intros set p [= <-]];
      reflexivity.
  - intros _ a done [= <-] [= <-]. reflexivity.
Defined.

Lemma infos_of_Forall (Q : ProgressInfo -> Prop) (tr : list event) :
  Forall (fun e => match e with EvOnProgress i => Q i | _ => True end) tr ->
  Forall Q (onProgress_infos tr).
Proof.
  unfold onProgress_infos. induction 1 as [|e l He _ IH]; [constructor|].
  destruct e; try exact IH. constructor; assumption.
Qed.

(** What [parseWithReader] takes as the size of the body: the infos of a
    trace carry the percentage computed from it. *)
Lemma infos_parseWithReader (P : Platform) (res : Response)
  (parseAs : option ParseAs) (opts : RequestOptions) (u : bool)
  (api : option ProgressAPI) :
  Forall
    (fun i =>
       percent i
       = percent_of
           match Headers_get (res_headers res) "content-length" with
           | Some h =>
               if truthy_string h then Some (Number_of_string P h) else None
           | None => None
           end
           (loaded i))
    (onProgress_infos (parseWithReader P res parseAs opts u api).1).
Proof.
  apply infos_of_Forall. apply parseWithReader_Forall; try (intros; exact I).
  intros f i _ H. exact H.
Qed.

Lemma percent_of_positive (t : Q) (l : nat) :
  (0 < t)%Q ->
  exists q, percent_of (Some (Fin t)) l = Some (Fin q)
            /\ (0 <= q)%Q /\ (q <= 1)%Q
            /\ ((q == 1)%Q <-> (t <= inject_Z (Z.of_nat l))%Q).
Proof.
  intros Ht. unfold percent_of.
  assert (Htr : truthy (Fin t) = true).
  { cbn. destruct (Qeq_bool t 0) eqn:E; [|reflexivity].
    apply Qeq_bool_eq in E. rewrite E in Ht. now apply Qlt_irrefl in Ht. }
  rewrite Htr. unfold div, of_nat, of_Z.
  assert (Hs : Qsign t = Gt).
  { unfold Qsign. apply Z.compare_gt_iff. destruct t as [n d].
    unfold Qlt in Ht. cbn in *. lia. }
  rewrite Hs. set (x := (inject_Z (Z.of_nat l) / t)%Q).
  assert (Hx0 : (0 <= x)%Q).
  { unfold x. apply Qle_shift_div_l; [exact Ht|].
    rewrite Qmult_0_l. change 0%Q with (inject_Z 0).
    rewrite <- Zle_Qle. lia. }
  assert (Hx1 : (1 <= x)%Q <-> (t <= inject_Z (Z.of_nat l))%Q).
  { unfold x. split; intros H.
    - apply (Qmult_le_r _ _ t Ht) in H.
      rewrite Qmult_1_l in H.
      assert (E : (inject_Z (Z.of_nat l) / t * t == inject_Z (Z.of_nat l))%Q).
      { field. intros E. rewrite E in Ht. now apply Qlt_irrefl in Ht. }
      now rewrite E in H.
    - apply Qle_shift_div_l; [exact Ht|]. now rewrite Qmult_1_l. }
  unfold Math_min, leb.
  destruct (Qle_bool (inject_Z 1) x) eqn:E.
  - apply Qle_bool_iff in E. exists (inject_Z 1). split; [reflexivity|].
    split; [discriminate|]. split; [apply Qle_refl|].
    split; [intros _; now apply Hx1 | reflexivity].
  - exists x. split; [reflexivity|]. split; [exact Hx0|].
    assert (Hlt : (x < 1)%Q).
    { apply Qnot_le_lt. intros H. apply Qle_bool_iff in H.
      change (inject_Z 1) with 1%Q in E. congruence. }
    split; [now apply Qlt_le_weak|]. split.
    + intros Hq. rewrite Hq in Hlt. now apply Qlt_irrefl in Hlt.
    + intros H. apply Hx1 in H. exfalso. now apply (Qlt_not_le _ _ Hlt).
Qed.

(** X15.  The percentage given to [onProgress] is [null] in every call when
    the response has no content-length, an empty one, or one that reads as
    0 or as no number.  With a content-length that reads as a positive
    number it is a number between 0 and 1 in every call, and it is 1
    exactly when the bytes loaded have reached that length. *)
Theorem onProgress_percent (P : Platform) (res : Response)
  (parseAs : option ParseAs) (opts : RequestOptions) (useProgressApi : bool)
  (progressAPI : option ProgressAPI) :
  let infos :=
    onProgress_infos
      (parseWithReader P res parseAs opts useProgressApi progressAPI).1 in
  ((Headers_get (res_headers res) "content-length" = None
    \/ (exists h, Headers_get (res_headers res) "content-length" = Some h
                  /\ (truthy_string h = false
                      \/ truthy (Number_of_string P h) = false))) ->
   Forall (fun i => percent i = None) infos)
  /\ (forall h t,
        Headers_get (res_headers res) "content-length" = Some h ->
        truthy_string h = true ->
        Number_of_string P h = Fin t -> (0 < t)%Q ->
        Forall
          (fun i =>
             exists q, percent i = Some (Fin q)
                       /\ (0 <= q)%Q /\ (q <= 1)%Q
                       /\ ((q == 1)%Q
                           <-> (t <= inject_Z (Z.of_nat (loaded i)))%Q))
          infos).
Proof.
  cbn zeta. pose proof (infos_parseWithReader P res parseAs opts useProgressApi
                          progressAPI) as H.
  split.
  - intros Hno. eapply Forall_impl; [exact H|]. intros i Hi. cbn beta in Hi.
    rewrite Hi. destruct Hno as [-> | (h & -> & [-> | Hn])]; [reflexivity..|].
    destruct (truthy_string h); [|reflexivity]. cbn. now rewrite Hn.
  - intros h t Hh Hs Hn Ht. eapply Forall_impl; [exact H|].
    intros i Hi. cbn beta in Hi. rewrite Hi, Hh, Hs, Hn.
    now apply percent_of_positive.
Qed.

Lemma onProgress_percent_witness :
  Forall (fun i => percent i = None)
    (onProgress_infos
       (parseWithReader TestPlatform.platform
          (streamed 200 [] ["ab"; "cde"]) (Some as_text) textWithProgress
          true (Some allHooks)).1)
  /\ Forall
       (fun i =>
          exists q, percent i = Some (Fin q)
                    /\ (0 <= q)%Q /\ (q <= 1)%Q
                    /\ ((q == 1)%Q
                        <-> (inject_Z 5 <= inject_Z (Z.of_nat (loaded i)))%Q))
       (onProgress_infos
          (parseWithReader TestPlatform.platform
             (streamed 200 [("content-length", "5")] ["ab"; "cde"])
             (Some as_text) textWithProgress true (Some allHooks)).1).
Proof.
  split.
  - apply (proj1 (onProgress_percent TestPlatform.platform
                    (streamed 200 [] ["ab"; "cde"]) (Some as_text)
                    textWithProgress true (Some allHooks))).
    left. reflexivity.
  - apply (proj2 (onProgress_percent TestPlatform.platform
                    (streamed 200 [("content-length", "5")] ["ab"; "cde"])
                    (Some as_text) textWithProgress true (Some allHooks))
             "5" (inject_Z 5)); reflexivity.
Defined.

(** X16.  When no callback throws, reading an unlocked body through the
    reader gives what reading it in one go gives: the same array buffer, and
    the same text or JSON value when decoding the chunks one after the other
    gives the text of the whole body, as a streaming decoder does. *)
Theorem reader_agrees_with_fallbackParse (P : Platform) (res : Response)
  (opts : RequestOptions) (useProgressApi : bool)
  (progressAPI : option ProgressAPI) (rs : ReadableStream)
  (Hbody : res_body res = Some rs) (Hfree : rs_locked rs = false)
  (Hcallback : onProgress_returns opts)
  (Hhooks : useProgressApi = true -> hooks_return progressAPI)
  (Hdone : useProgressApi = true -> done_returns progressAPI) :
  (parseWithReader P res (Some as_arrayBuffer) opts useProgressApi progressAPI).2
  = fallbackParse P res (Some as_arrayBuffer)
  /\ (decodeChunks P (rs_chunks rs) [] EmptyString
      = utf8_decode P (concat (rs_chunks rs)) ->
      (parseWithReader P res (Some as_text) opts useProgressApi progressAPI).2
      = fallbackParse P res (Some as_text)
      /\ (parseWithReader P res (Some as_json) opts useProgressApi progressAPI).2
         = fallbackParse P res (Some as_json)
      /\ (parseWithReader P res None opts useProgressApi progressAPI).2
         = fallbackParse P res None).
Proof.
  assert (H : forall parseAs,
            (parseWithReader P res parseAs opts useProgressApi progressAPI).2
            = match rs_end rs with
              | Errored e => Throw e
              | Closed => assemble P res parseAs (rs_chunks rs)
              end).
  { intros parseAs.
    exact (proj1 (parseWithReader_returns P res parseAs opts useProgressApi
                    progressAPI rs Hbody Hfree Hcallback Hhooks Hdone)). }
  rewrite !H.
  unfold fallbackParse, Response_arrayBuffer, Response_text, Response_bytes.
  rewrite Hbody, Hfree.
  destruct (rs_end rs) as [|e]; [|repeat split; reflexivity].
  split; [reflexivity|]. intros Hdec. unfold assemble. rewrite Hdec.
  repeat split; reflexivity.
Qed.

Lemma reader_agrees_with_fallbackParse_witness :
  (parseWithReader TestPlatform.platform (streamed 200 [] ["tr"; "ue"])
     (Some as_json) textWithProgress true (Some allHooks)).2
  = fallbackParse TestPlatform.platform (streamed 200 [] ["tr"; "ue"])
      (Some as_json)
  /\ fallbackParse TestPlatform.platform (streamed 200 [] ["tr"; "ue"])
       (Some as_json) = Ok (PJson (JBool true)).
Proof.
  split; [|reflexivity].
  refine (proj1 (proj2 (proj2 (reader_agrees_with_fallbackParse
                    TestPlatform.platform (streamed 200 [] ["tr"; "ue"])
                    textWithProgress true (Some allHooks) _ eq_refl eq_refl
                    _ _ _) eq_refl))).
  - intros f i [= <-]. reflexivity.
  - intros _ a [= <-]. split; [intros start [= <-] | intros set p [= <-]];
      reflexivity.
  - intros _ a done [= <-] [= <-]. reflexivity.
Defined.

Lemma pump_onProgress (o1 o2 : RequestOptions) (u : bool)
  (api : option ProgressAPI) (t : option number) (chunks : list bytes)
  (l : nat) :
  opt_onProgress o1 = opt_onProgress o2 ->
  pump o1 u api t chunks l = pump o2 u api t chunks l.
Proof.
  intros H. revert l. induction chunks as [|v rest IH]; intros l;
    [reflexivity|].
  cbn [pump]. unfold notify, call_onProgress. now rewrite H, IH.
Qed.

(** What a sequence returns is what its last part returns, unless it
    throws. *)
Lemma andThen_result {A B} (m : traced A) (k : traced B) (r : result B) :
  (m >> k).2 = r -> k.2 = r \/ exists e, r = Throw e.
Proof.
  unfold andThen. destruct m.2 as [a|e]; cbn [snd]; intros <-; eauto.
Qed.

(** X17.  With a progress option on, a body asked for as form data is
    decoded as text and never comes back as a [FormData]: the call behaves
    as with [parseAs: 'text']. *)
Theorem formData_with_progress_is_text (P : Platform) (self : Call)
  (opts : RequestOptions) (res : Response) (rs : ReadableStream)
  (Hform : opt_parseAs opts = Some as_formData)
  (Hprogress : wantsProgress opts = true)
  (Hbody : res_body res = Some rs) :
  parseBody P self opts res = parseBody P self (with_parseAs as_text opts) res
  /\ forall fd, (parseBody P self opts res).2 <> Ok (PFormData fd).
Proof.
  assert (E : parseBody P self opts res
              = parseBody P self (with_parseAs as_text opts) res).
  { unfold parseBody, parseAs, wantsProgress, useProgressApi in *.
    rewrite Hform. cbn [with_parseAs opt_parseAs opt_onProgress opt_useProgressApi].
    rewrite Hprogress. unfold parseWithReader. rewrite Hbody.
    rewrite (pump_onProgress opts (with_parseAs as_text opts)) by reflexivity.
    reflexivity. }
  split; [exact E|]. intros fd. rewrite E.
  unfold parseBody, parseAs, wantsProgress, useProgressApi in *.
  cbn [with_parseAs opt_parseAs opt_onProgress opt_useProgressApi].
  rewrite Hprogress. unfold parseWithReader. rewrite Hbody.
  intros H. apply andThen_result in H as [H|[e H]]; [|discriminate].
  cbn [try_finally snd] in H.
  destruct (finally_done _ _).2; [|discriminate].
  apply andThen_result in H as [H|[e H]]; [|discriminate].
  cbn [snd assemble] in H. destruct (rs_end rs); discriminate.
Qed.

Lemma formData_with_progress_is_text_witness :
  (parseBody TestPlatform.platform (createCall progressConfig)
     (with_parseAs as_formData textWithProgress)
     (streamed 200 [] ["a=1"])).2
  = Ok (PText "a=1").
Proof.
  rewrite (proj1 (formData_with_progress_is_text TestPlatform.platform
                    (createCall progressConfig)
                    (with_parseAs as_formData textWithProgress)
                    (streamed 200 [] ["a=1"]) _ eq_refl eq_refl eq_refl)).
  reflexivity.
Defined.

(** ** url.ts: the final URL *)

(** X18.  An absolute URL is used as it is: neither the base URL nor the
    default origin of the configuration plays a part, and building it does
    not fail, also when no origin is known at all. *)
Theorem absolute_url_ignores_origins (P : Platform)
  (baseUrl defaultOrigin : option string) (path : string)
  (params : option (list (string * ParamValue)))
  (Habs : isAbsoluteUrl P path = true) :
  buildUrl P baseUrl path params defaultOrigin
  = buildUrl P None path params None
  /\ exists u, URL_new P path None = Some u
               /\ buildUrl P baseUrl path params defaultOrigin
                  = Ok (set_params P u params).
Proof.
  unfold buildUrl. rewrite Habs. split; [reflexivity|].
  unfold isAbsoluteUrl in Habs.
  destruct (URL_new P path None) as [u|]; [|discriminate].
  exists u. split; reflexivity.
Qed.

Lemma absolute_url_ignores_origins_witness :
  built TestPlatform.platform
    (buildUrl TestPlatform.platform (Some "https://api.test/v1")
       "https://other.test/a" None (Some "https://fallback.test"))
  = Some "https://other.test/a".
Proof.
  rewrite (proj1 (absolute_url_ignores_origins TestPlatform.platform
                    (Some "https://api.test/v1") (Some "https://fallback.test")
                    "https://other.test/a" None eq_refl)).
  reflexivity.
Defined.

(** X19.  For a relative path the origin is the base URL if there is one,
    else the default origin, else the origin of the window.  An empty base
    URL is not skipped: with it the path cannot be resolved, whatever the
    default origin is; and so it is when none of the three is there. *)
Theorem relative_url_origin (P : Platform) (path : string)
  (params : option (list (string * ParamValue)))
  (Hrel : isAbsoluteUrl P path = false) :
  (forall b d d',
     buildUrl P (Some b) path params d = buildUrl P (Some b) path params d')
  /\ (forall d,
        buildUrl P None path params (Some d)
        = buildUrl P (Some d) path params None)
  /\ (forall d, buildUrl P (Some EmptyString) path params d = Throw no_origin)
  /\ (window_location_origin P = None ->
      buildUrl P None path params None = Throw no_origin).
Proof.
  unfold buildUrl. rewrite Hrel. repeat split; try reflexivity.
  intros ->. reflexivity.
Qed.

Lemma relative_url_origin_witness :
  built TestPlatform.platform
    (buildUrl TestPlatform.platform None "users" None (Some "https://api.test/v1"))
  = Some "https://api.test/v1/users"
  /\ buildUrl TestPlatform.platform (Some EmptyString) "users" None
       (Some "https://api.test/v1")
     = Throw no_origin.
Proof.
  pose proof (relative_url_origin TestPlatform.platform "users" None eq_refl)
    as (_ & Hd & He & _).
  split; [rewrite Hd; reflexivity | apply He].
Defined.

Lemma set_params_present (P : Platform) (u : URL P)
  (params : option (list (string * ParamValue))) :
  set_params P u params = set_params P u (present_params params).
Proof.
  destruct params as [entries|]; [|reflexivity]. cbn.
  revert u. induction entries as [|[k v] rest IH]; intros u; [reflexivity|].
  cbn [fold_left List.filter]. cbn [snd fst].
  destruct v as [s|n|[]| |]; cbn [is_present param_string fold_left snd fst];
    apply IH.
Qed.

(** X20.  Query parameters that are [null] or [undefined] are left out:
    the URL is the one built from the other parameters alone. *)
Theorem absent_params_are_skipped (P : Platform) (baseUrl : option string)
  (path : string) (params : option (list (string * ParamValue)))
  (defaultOrigin : option string) :
  buildUrl P baseUrl path params defaultOrigin
  = buildUrl P baseUrl path (present_params params) defaultOrigin.
Proof.
  unfold buildUrl.
  destruct (isAbsoluteUrl P path).
  - destruct (URL_new P path None); [|reflexivity].
    now rewrite set_params_present.
  - destruct (nullish baseUrl _) as [o|]; [|reflexivity].
    destruct (truthy_string o); [|reflexivity].
    destruct (ensureTrailingSlash P o); [|reflexivity].
    destruct (URL_new P _ _); [|reflexivity].
    now rewrite set_params_present.
Qed.

(** X21.  One leading slash of a relative path makes no difference: the
    path is resolved below the path of the base URL either way. *)
Theorem leading_slash_is_dropped (P : Platform) (baseUrl : option string)
  (path : string) (params : option (list (string * ParamValue)))
  (defaultOrigin : option string)
  (Hrel : isAbsoluteUrl P path = false)
  (Hrel' : isAbsoluteUrl P ("/" +:+ path) = false)
  (Hpath : startsWith "/" path = false) :
  buildUrl P baseUrl ("/" +:+ path) params defaultOrigin
  = buildUrl P baseUrl path params defaultOrigin.
Proof.
  unfold buildUrl. rewrite Hrel, Hrel', Hpath.
  assert (E : startsWith "/" ("/" +:+ path) = true).
  { unfold startsWith. cbn. destruct path; reflexivity. }
  rewrite E. reflexivity.
Qed.

Lemma leading_slash_is_dropped_witness :
  built TestPlatform.platform
    (buildUrl TestPlatform.platform (Some "https://api.test/v1") "/users"
       (Some [("page", ParamNumber (of_Z 2)); ("q", ParamNull)]) None)
  = Some "https://api.test/v1/users?page=2".
Proof.
  change "/users" with ("/" +:+ "users").
  rewrite (leading_slash_is_dropped TestPlatform.platform
             (Some "https://api.test/v1") "users"
             (Some [("page", ParamNumber (of_Z 2)); ("q", ParamNull)]) None
             eq_refl eq_refl eq_refl).
  reflexivity.
Defined.

(** ** index.ts: what a request sends *)

(** X22.  The token of the call comes before the token set on the instance,
    which comes before the token of the configuration: unless the headers
    already hold an authorization, a non-empty token given with the call (as
    a string or by a provider) whose [Bearer <token>] is a legal header
    value (Latin-1 characters, as every string here, with no line feed,
    carriage return or NUL once the surrounding whitespace is stripped) is
    the one sent, in that normalised form, at
    every transport invocation, and without a token in the call the one
    stored with [token.set] is. *)
Theorem token_precedence (P : Platform) (W : World) (self : Call)
  (url : string) (opts : RequestOptions) (u : URL P) (t : string)
  (Hfree : Headers_has (merged_headers self opts) "authorization" = false)
  (Ht : truthy_string t = true)
  (Hlegal : is_header_value (normalize_value ("Bearer " +:+ t)) = true)
  (Hu : finalUrl P self url opts = Ok u) :
  ((opt_token opts = Some (TokenString t)
    \/ opt_token opts = Some (TokenFunction (TokenReturns (Some t)))) ->
   forall fuel tr s,
     request P W self url opts fuel = Some (tr, s) ->
     (0 < transport_calls tr)%nat
     /\ authorizations tr
        = repeat (Some (normalize_value ("Bearer " +:+ t)))
            (transport_calls tr))
  /\ (opt_token opts = None ->
      forall fuel tr s,
        request P W (token_set (Some t) self) url opts fuel = Some (tr, s) ->
        (0 < transport_calls tr)%nat
        /\ authorizations tr
           = repeat (Some (normalize_value ("Bearer " +:+ t)))
               (transport_calls tr)).
Proof.
  split.
  - intros Hcall fuel tr s Hr.
    destruct (authorizations_request P W self url opts u fuel tr s Hu Hr)
      as [Hpos Hauth].
    split; [exact Hpos|]. rewrite Hauth, (sent_authorization P self opts Hfree).
    unfold resolveToken.
    destruct Hcall as [-> | ->]; cbn; now rewrite Ht, Hlegal.
  - intros Hnone fuel tr s Hr.
    destruct (authorizations_request P W (token_set (Some t) self) url opts u
                fuel tr s Hu Hr) as [Hpos Hauth].
    split; [exact Hpos|].
    rewrite Hauth, (sent_authorization P (token_set (Some t) self) opts Hfree).
    unfold resolveToken. rewrite Hnone. cbn. now rewrite Ht, Hlegal.
Qed.

Lemma token_precedence_witness :
  exists tr s,
    request TestPlatform.platform (always (respond 200))
      (token_set (Some "stored") (createCall (withToken "configured")))
      "https://api.test/x"
      (tokenOptions (Some (TokenString "mine"))) 1 = Some (tr, s)
    /\ authorizations tr = [Some "Bearer mine"].
Proof.
  eexists _, _. split; [vm_compute; reflexivity|].
  refine (proj2 (proj1 (token_precedence TestPlatform.platform
                   (always (respond 200))
                   (token_set (Some "stored") (createCall (withToken "configured")))
                   "https://api.test/x"
                   (tokenOptions (Some (TokenString "mine"))) _ "mine"
                   eq_refl eq_refl eq_refl eq_refl) (or_introl eq_refl)
                1%nat _ _ eq_refl)).
Defined.

(** X23.  A token provider of the call that throws, or that returns
    nothing, leaves the request without authorization: the call is made all
    the same, and neither the token of the instance nor the token of the
    configuration is used in its place. *)
Theorem failing_token_provider_sends_no_authorization (P : Platform)
  (W : World) (self : Call) (url : string) (opts : RequestOptions) (u : URL P)
  (Hfree : Headers_has (merged_headers self opts) "authorization" = false)
  (Hu : finalUrl P self url opts = Ok u)
  (Hprovider : (exists e, opt_token opts = Some (TokenFunction (TokenThrows e)))
               \/ opt_token opts = Some (TokenFunction (TokenReturns None))) :
  forall fuel tr s,
    request P W self url opts fuel = Some (tr, s) ->
    (0 < transport_calls tr)%nat
    /\ authorizations tr = repeat None (transport_calls tr).
Proof.
  intros fuel tr s Hr.
  destruct (authorizations_request P W self url opts u fuel tr s Hu Hr)
    as [Hpos Hauth].
  split; [exact Hpos|]. rewrite Hauth, (sent_authorization P self opts Hfree).
  unfold resolveToken. destruct Hprovider as [[e ->] | ->]; reflexivity.
Qed.

Lemma failing_token_provider_sends_no_authorization_witness :
  exists tr s,
    request TestPlatform.platform (always (respond 200))
      (token_set (Some "stored") (createCall (withToken "configured")))
      "https://api.test/x"
      (tokenOptions (Some (TokenFunction (TokenThrows provider_failed)))) 1
    = Some (tr, s)
    /\ authorizations tr = [None].
Proof.
  eexists _, _. split; [vm_compute; reflexivity|].
  refine (proj2 (failing_token_provider_sends_no_authorization
                   TestPlatform.platform (always (respond 200))
                   (token_set (Some "stored") (createCall (withToken "configured")))
                   "https://api.test/x"
                   (tokenOptions (Some (TokenFunction (TokenThrows provider_failed))))
                   _ eq_refl eq_refl (or_introl (ex_intro _ provider_failed eq_refl))
                   1%nat _ _ eq_refl)).
Defined.

Lemma Headers_get_same (h : gmap string string) (name other : string) :
  toLowerCase name = toLowerCase other ->
  Headers_get h name = Headers_get h other.
Proof. unfold Headers_get. now intros ->. Qed.

Lemma Headers_set_all_app (before after : list (string * string))
  (h : gmap string string) :
  Headers_set_all h (before ++ after)
  = match Headers_set_all h before with
    | Ok h' => Headers_set_all h' after
    | Throw e => Throw e
    end.
Proof.
  revert h. induction before as [|[k v] rest IH]; intros h; [reflexivity|].
  cbn [app Headers_set_all]. destruct (Headers_set h k v); [apply IH|reflexivity].
Qed.

Lemma Headers_set_all_keeps (after : list (string * string))
  (h h' : gmap string string) (k v : string) :
  Forall (fun kv => toLowerCase kv.1 <> toLowerCase k) after ->
  Headers_set_all h after = Ok h' ->
  Headers_get h k = Some v ->
  Headers_get h' k = Some v.
Proof.
  revert h. induction after as [|[k' v'] rest IH]; intros h Hall Hset Hh.
  - cbn in Hset. now injection Hset as <-.
  - apply Forall_cons_1 in Hall as [Hk Hrest]. cbn [Headers_set_all] in Hset.
    destruct (Headers_set h k' v') as [h1|e] eqn:E; [|discriminate].
    apply (IH h1 Hrest Hset). cbn [fst] in Hk.
    now rewrite (Headers_get_set_other h h1 k' k v' E Hk).
Qed.

Lemma merged_headers_last (self : Call) (opts : RequestOptions)
  (before after : list (string * string)) (k v : string)
  (h : gmap string string) :
  new_headers self opts = Ok h ->
  opt_headers opts = Some (before ++ (k, v) :: after) ->
  Forall (fun kv => toLowerCase kv.1 <> toLowerCase k) after ->
  Headers_get (merged_headers self opts) k = Some (normalize_value v).
Proof.
  intros Hnew Ho Hall. unfold merged_headers. rewrite Hnew.
  unfold new_headers in Hnew. rewrite Ho in Hnew.
  destruct (Headers_of_record _) as [h0|e]; [|discriminate].
  rewrite Headers_set_all_app in Hnew.
  destruct (Headers_set_all h0 before) as [h1|e]; [|discriminate].
  cbn [Headers_set_all] in Hnew.
  destruct (Headers_set h1 k v) as [h2|e] eqn:E; [|discriminate].
  apply (Headers_set_all_keeps after h2 h k _ Hall Hnew).
  exact (Headers_get_set h1 h2 k v E).
Qed.

Lemma explicit_header_kept (P : Platform) (self : Call) (opts : RequestOptions)
  (name value : string) :
  Headers_get (merged_headers self opts) name = Some value ->
  Headers_get (init_headers (init P self opts)) name = Some value.
Proof.
  intros Hm. cbn [init init_headers].
  assert (Ha : Headers_get (authorized_headers self opts) name = Some value).
  { unfold authorized_headers.
    destruct (Headers_has (merged_headers self opts) "authorization") eqn:Hhas;
      [exact Hm|].
    assert (Hne : toLowerCase "authorization" <> toLowerCase name).
    { intros E. unfold Headers_has in Hhas.
      rewrite (Headers_get_same _ _ _ E), Hm in Hhas. discriminate. }
    destruct (resolveToken self opts) as [[t|]|e]; try exact Hm.
    destruct (truthy_string t); [|exact Hm].
    now rewrite Headers_set_or_keep. }
  unfold baseHeaders. destruct (opt_json opts); [|exact Ha].
  destruct (Headers_has (authorized_headers self opts) "content-type") eqn:Hhas;
    [exact Ha|].
  assert (Hne : toLowerCase "content-type" <> toLowerCase name).
  { intros E. unfold Headers_has in Hhas.
    rewrite (Headers_get_same _ _ _ E), Ha in Hhas. discriminate. }
  now rewrite Headers_set_or_keep.
Qed.

(** X24.  A header given with the call either stops the request or reaches
    the transport.  When some header of the configuration or of the call
    has an illegal name or value, building the headers throws and the call
    rejects with that error before any transport invocation.  Otherwise
    the header reaches the transport with the value given last, stripped
    of its leading and trailing whitespace, under whatever case its name is
    asked for and whatever the headers of the configuration say; neither a
    token nor the JSON content type replaces it. *)
Theorem call_header_reaches_transport (P : Platform) (self : Call)
  (opts : RequestOptions) (before after : list (string * string))
  (k v name : string)
  (Hgiven : opt_headers opts = Some (before ++ (k, v) :: after))
  (Hlast : Forall (fun kv => toLowerCase kv.1 <> toLowerCase k) after)
  (Hname : toLowerCase name = toLowerCase k) :
  match new_headers self opts with
  | Ok _ =>
      Headers_get (init_headers (init P self opts)) name
      = Some (normalize_value v)
  | Throw e =>
      forall W url fuel,
        request P W self url opts fuel = Some ([], RejectedWith e)
  end.
Proof.
  destruct (new_headers self opts) as [h|e] eqn:Hnew.
  - apply explicit_header_kept. rewrite (Headers_get_same _ _ _ Hname).
    now apply (merged_headers_last self opts before after k v h).
  - intros W url fuel. unfold request, finalUrl. now rewrite Hnew.
Qed.

Lemma call_header_reaches_transport_witness :
  Headers_get
    (init_headers
       (init TestPlatform.platform
          (createCall (headerConfig [("authorization", "Basic abc");
                                     ("Content-Type", "text/plain")]))
          (sending (Some [("AUTHORIZATION", " Bearer own ");
                          ("content-type", "application/xml")])
             (Some JNull) None)))
    "Authorization"
  = Some "Bearer own".
Proof.
  refine (call_header_reaches_transport TestPlatform.platform
           (createCall (headerConfig [("authorization", "Basic abc");
                                      ("Content-Type", "text/plain")]))
           (sending (Some [("AUTHORIZATION", " Bearer own ");
                           ("content-type", "application/xml")])
              (Some JNull) None)
           [] [("content-type", "application/xml")] "AUTHORIZATION"
           " Bearer own " "Authorization" eq_refl _ eq_refl).
  repeat constructor. cbn. discriminate.
Defined.

(** X25.  When the options hold a JSON value, the body sent is its
    serialisation, whatever [body] is, and the content type is
    [application/json] unless the headers already name one, which is kept.
    Without a JSON value the body is [body] and no content type is added. *)
Theorem json_takes_precedence_over_body (P : Platform) (self : Call)
  (opts : RequestOptions) :
  (forall j, opt_json opts = Some j ->
     init_body (init P self opts) = Some (BodyString (JSON_stringify P j))
     /\ Headers_get (init_headers (init P self opts)) "content-type"
        = match Headers_get (merged_headers self opts) "content-type" with
          | Some c => Some c
          | None => Some "application/json"
          end)
  /\ (opt_json opts = None ->
      init_body (init P self opts) = opt_body opts
      /\ Headers_get (init_headers (init P self opts)) "content-type"
         = Headers_get (merged_headers self opts) "content-type").
Proof.
  assert (Ha : Headers_get (authorized_headers self opts) "content-type"
               = Headers_get (merged_headers self opts) "content-type").
  { unfold authorized_headers.
    destruct (Headers_has (merged_headers self opts) "authorization");
      [reflexivity|].
    destruct (resolveToken self opts) as [[t|]|e]; try reflexivity.
    destruct (truthy_string t); [|reflexivity].
    apply Headers_set_or_keep. discriminate. }
  split.
  - intros j Hj. cbn [init init_body init_headers].
    unfold baseBody, baseHeaders. rewrite Hj. split; [reflexivity|].
    unfold Headers_has. rewrite Ha.
    destruct (Headers_get (merged_headers self opts) "content-type") as [c|] eqn:E.
    + now rewrite Ha.
    + rewrite (Headers_set_legal _ "content-type" "application/json" eq_refl
                 eq_refl).
      unfold Headers_get. apply lookup_insert_eq.
  - intros Hj. cbn [init init_body init_headers].
    unfold baseBody, baseHeaders. rewrite Hj. split; [reflexivity | exact Ha].
Qed.

Lemma json_takes_precedence_over_body_witness :
  init_body
    (init TestPlatform.platform (createCall noConfig)
       (sending None (Some (JBool true)) (Some (BodyOther "form"))))
  = Some (BodyString "true")
  /\ Headers_get
       (init_headers
          (init TestPlatform.platform (createCall noConfig)
             (sending None (Some (JBool true)) (Some (BodyOther "form")))))
       "content-type"
     = Some "application/json".
Proof.
  apply (proj1 (json_takes_precedence_over_body TestPlatform.platform
                  (createCall noConfig)
                  (sending None (Some (JBool true)) (Some (BodyOther "form"))))
           (JBool true) eq_refl).
Defined.

(** ** index.ts: the attempts of a call *)

Lemma calls_after_stop (P : Platform) (W : World) (self : Call) (url : string)
  (opts : RequestOptions) (fu : string) (fuel : nat) (tr : list event)
  (s : Settled) (k : nat) :
  attemptLoop P W self url opts fu fuel 0 = Some (tr, s) ->
  willRetryNext P W self opts fu k = false ->
  (transport_calls tr <= S k)%nat /\ retry_attempts tr = seq 0 (pred (transport_calls tr)).
Proof.
  intros Hr Hk.
  destruct (attemptLoop_run P W self url opts fu fuel 0 tr s Hr)
    as (n & _ & Hpre & _ & Hcalls & Hret & _).
  rewrite Hcalls. split; [|exact Hret].
  destruct (Nat.le_gt_cases n k) as [H|H]; [lia|].
  specialize (Hpre k H). cbn in Hpre. congruence.
Qed.

Lemma no_policy_no_decision (self : Call) (opts : RequestOptions) (o : Outcome) :
  cfg_retry (config self) = None -> opt_retry opts = None ->
  decisionFor self opts o = None.
Proof.
  intros Hc Ho. unfold decisionFor, callDecision, configRetry.
  rewrite Hc, Ho. destruct o; reflexivity.
Qed.

(** X26.  A call is made once and never retried when its method is not
    among the methods that may be retried (by default GET, OPTIONS and
    HEAD), or when neither the configuration nor the call has a retry
    policy: whatever the transport answers, the call returns after one
    transport invocation. *)
Theorem single_attempt_without_retry (P : Platform) (W : World) (self : Call)
  (url : string) (opts : RequestOptions) (u : URL P) (fuel : nat)
  (Hu : finalUrl P self url opts = Ok u)
  (Hno : methodAllowed self opts = false
         \/ (cfg_retry (config self) = None /\ opt_retry opts = None))
  (Hfuel : (0 < fuel)%nat) :
  exists tr s,
    request P W self url opts fuel = Some (tr, s)
    /\ transport_calls tr = 1%nat
    /\ retry_attempts tr = [].
Proof.
  assert (Hstop : willRetryNext P W self opts (URL_toString P u) 0 = false).
  { unfold willRetryNext. destruct Hno as [Hm | [Hc Ho]].
    - unfold within. now rewrite Hm.
    - rewrite (no_policy_no_decision self opts _ Hc Ho). cbn.
      apply andb_false_r. }
  unfold request. rewrite Hu.
  destruct (attemptLoop_returns P W self url opts (URL_toString P u) fuel 0 0)
    as (tr & s & Hr); [intros k Hk; lia | exact Hstop | exact Hfuel |].
  exists tr, s. split; [exact Hr|].
  destruct (calls_after_stop P W self url opts _ fuel tr s 0 Hr Hstop)
    as [Hle Hret].
  destruct (attemptLoop_run P W self url opts _ fuel 0 tr s Hr)
    as (n & _ & _ & _ & Hcalls & _).
  assert (E : transport_calls tr = 1%nat) by lia.
  split; [exact E|]. now rewrite Hret, E.
Qed.

Lemma single_attempt_without_retry_witness :
  exists tr s,
    Call_post TestPlatform.platform (always (respond 500))
      (createCall (budgeted 3 (of_Z 0))) "https://api.test/x" noOptions 5
    = Some (tr, s)
    /\ transport_calls tr = 1%nat
    /\ retry_attempts tr = [].
Proof.
  refine (single_attempt_without_retry TestPlatform.platform
            (always (respond 500)) (createCall (budgeted 3 (of_Z 0)))
            "https://api.test/x" (with_method POST noOptions) _ 5
            eq_refl (or_introl eq_refl) _).
  lia.
Defined.

(** X27.  The overall time budget is read at the top of every attempt: once
    the time passed since the start of the call is no longer below a
    (non-zero) [maxOverallTime], the attempt being made is the last one.  A
    budget of 0 is no budget at all. *)
Theorem exhausted_budget_stops_retries (P : Platform) (W : World)
  (self : Call) (url : string) (opts : RequestOptions) (m : number)
  (Hm : maxOverallTime self opts = Some m) :
  (truthy m = true ->
   forall k fuel tr s,
     ltb (of_Z (clock W k - startedAt W)) m = false ->
     request P W self url opts fuel = Some (tr, s) ->
     (transport_calls tr <= S k)%nat)
  /\ (truthy m = false -> forall k, withinBudget W self opts k = true).
Proof.
  split.
  - intros Ht k fuel tr s Hspent Hr. unfold request in Hr.
    destruct (finalUrl P self url opts) as [u|e].
    + apply (calls_after_stop P W self url opts _ fuel tr s k Hr).
      unfold willRetryNext, within, withinBudget.
      rewrite Hm, Ht, Hspent. cbn. now rewrite andb_false_r.
    + injection Hr as <- _. cbn. lia.
  - intros Hf k. unfold withinBudget. now rewrite Hm, Hf.
Qed.

Lemma exhausted_budget_stops_retries_witness :
  exists tr s,
    request TestPlatform.platform (ticking 400 (respond 500))
      (createCall (budgeted 10 (of_Z 1000))) "https://api.test/x" noOptions 20
    = Some (tr, s)
    /\ (transport_calls tr <= 4)%nat.
Proof.
  eexists _, _. split; [vm_compute; reflexivity|].
  refine (proj1 (exhausted_budget_stops_retries TestPlatform.platform
                   (ticking 400 (respond 500))
                   (createCall (budgeted 10 (of_Z 1000))) "https://api.test/x"
                   noOptions (of_Z 1000) eq_refl)
            eq_refl 3%nat 20%nat _ _ eq_refl eq_refl).
Defined.

Lemma allow_bound_strict (decision : option RetryDecision) (a : nat) :
  allow (allowAndDelayFromDecision decision a) = true ->
  (Z.of_nat a + 1 < 2 ^ 31)%Z.
Proof.
  destruct decision as [[b|x d]|]; cbn [allowAndDelayFromDecision allow].
  - intros H. apply andb_prop in H as [_ H]. apply Nat.ltb_lt in H. lia.
  - pose proof (ToInt32_lt x) as Hx.
    destruct (Z.ltb_spec (Z.of_nat a) (Z.max 0 (ToInt32 x))) as [H|H].
    + intros _. lia.
    + discriminate.
  - discriminate.
Qed.

(** X28.  No configuration makes a call retry for ever: every call returns,
    after at most [2^31] transport invocations, and each invocation but the
    last is followed by a granted retry. *)
Theorem every_call_ends (P : Platform) (W : World) (self : Call)
  (url : string) (opts : RequestOptions) :
  exists tr s,
    (forall fuel, (2 ^ 31 < Z.of_nat fuel)%Z ->
       request P W self url opts fuel = Some (tr, s))
    /\ (Z.of_nat (transport_calls tr) <= 2 ^ 31)%Z
    /\ retry_attempts tr = seq 0 (pred (transport_calls tr)).
Proof.
  set (fuel0 := Z.to_nat (2 ^ 31 + 1)).
  assert (H0 : (2 ^ 31 < Z.of_nat fuel0)%Z) by (unfold fuel0; lia).
  destruct (request_returns P W self url opts fuel0 H0) as (tr & s & Hr).
  exists tr, s. split; [|split].
  - intros fuel Hfuel. apply (request_fuel P W self url opts fuel0 fuel); [|exact Hr].
    unfold fuel0. lia.
  - unfold request in Hr. destruct (finalUrl P self url opts) as [u|e].
    + destruct (attemptLoop_run P W self url opts _ fuel0 0 tr s Hr)
        as (n & _ & Hpre & _ & Hcalls & _).
      rewrite Hcalls. destruct n as [|n]; [lia|].
      assert (Hn : willRetryNext P W self opts (URL_toString P u) n = true)
        by (apply (Hpre n); lia).
      unfold willRetryNext in Hn. apply andb_prop in Hn as [_ Hn].
      apply allow_bound_strict in Hn. lia.
    + injection Hr as <- _. cbn. lia.
  - unfold request in Hr. destruct (finalUrl P self url opts) as [u|e].
    + destruct (attemptLoop_run P W self url opts _ fuel0 0 tr s Hr)
        as (n & _ & _ & _ & Hcalls & Hret & _).
      now rewrite Hcalls.
    + injection Hr as <- _. reflexivity.
Qed.

Lemma handler_attempt_filter (l : list event) :
  omap handler_attempt (handler_calls l) = omap handler_attempt l.
Proof.
  unfold handler_calls. induction l as [|e l IH]; [reflexivity|].
  destruct e; cbn; rewrite ?IH; reflexivity.
Qed.

Lemma flat_map_singleton (l : list nat) : flat_map (fun k => [k]) l = l.
Proof. induction l as [|k l IH]; [reflexivity|]. cbn. now rewrite IH. Qed.

(** X29.  Without [once], a handler runs in every attempt: when every
    attempt of a call fails with a status that has a handler, the handlers
    are invoked once per transport invocation, attempt after attempt. *)
Theorem handler_fires_on_every_attempt_without_once (P : Platform) (W : World)
  (self : Call) (url : string) (opts : RequestOptions) (u : URL P)
  (fuel : nat) (tr : list event) (s : Settled)
  (Hu : finalUrl P self url opts = Ok u)
  (Hr : request P W self url opts fuel = Some (tr, s))
  (Honce : effectiveOnce self opts = false)
  (Hfail : forall k, exists res data h,
      outcome P W self opts (URL_toString P u) k = StatusFailure res data
      /\ pickStatusHandler (res_status res) (localOn opts) (globalOn self)
           codeToName = Some h) :
  omap handler_attempt tr = seq 0 (transport_calls tr).
Proof.
  unfold request in Hr. rewrite Hu in Hr.
  destruct (attemptLoop_run P W self url opts _ fuel 0 tr s Hr)
    as (n & _ & _ & _ & Hcalls & _ & _ & Htr).
  rewrite Hcalls, Htr. generalize (seq 0 (S n)). intros l.
  rewrite <- (flat_map_singleton l) at 2.
  induction l as [|k l IH]; [reflexivity|].
  cbn [flat_map]. rewrite omap_app, IH. f_equal.
  rewrite <- handler_attempt_filter.
  destruct (Hfail k) as (res & data & h & Ho & Hh).
  rewrite (status_failure_handler_calls P W self url opts _ k res data Ho), Hh.
  unfold fires. rewrite Honce. reflexivity.
Qed.

Lemma handler_fires_on_every_attempt_without_once_witness :
  exists tr s,
    request TestPlatform.platform (always (respond 500))
      (createCall (budgeted 2 (of_Z 0))) "https://api.test/x" noOptions 5
    = Some (tr, s)
    /\ omap handler_attempt tr = [0; 1; 2]%nat.
Proof.
  eexists _, _. split; [vm_compute; reflexivity|].
  refine (handler_fires_on_every_attempt_without_once TestPlatform.platform
            (always (respond 500)) (createCall (budgeted 2 (of_Z 0)))
            "https://api.test/x" noOptions _ 5 _ _ eq_refl eq_refl eq_refl _).
  intros k. eexists _, _, _. split; reflexivity.
Defined.


Lemma parseBody_no_hook (P : Platform) (self : Call) (opts : RequestOptions)
  (res : Response) :
  useProgressApi opts = false ->
  Forall (fun e => is_progress_hook e = false) (parseBody P self opts res).1.
Proof.
  intros Hu. unfold parseBody. rewrite Hu.
  assert (H : forall p,
            Forall (fun e => is_progress_hook e = false)
              (parseWithReader P res p opts false (cfg_progress (config self))).1).
  { intros p. apply parseWithReader_Forall; try discriminate. reflexivity. }
  destruct (parseAs opts res); try constructor;
    (destruct (wantsProgress opts); [apply H | constructor]).
Qed.

Lemma parseBody_no_onProgress (P : Platform) (self : Call)
  (opts : RequestOptions) (res : Response) :
  opt_onProgress opts = None ->
  Forall (fun e => is_onProgress e = false) (parseBody P self opts res).1.
Proof.
  intros Ho. unfold parseBody.
  assert (H : forall p u api,
            Forall (fun e => is_onProgress e = false)
              (parseWithReader P res p opts u api).1).
  { intros p u api. apply parseWithReader_Forall; try reflexivity.
    intros f i Hf. congruence. }
  destruct (parseAs opts res); try constructor;
    (destruct (wantsProgress opts); [apply H | constructor]).
Qed.

Lemma parseBody_untouched (P : Platform) (self : Call) (opts : RequestOptions)
  (res : Response) :
  opt_parseAs opts = Some as_response \/ opt_parseAs opts = Some as_stream ->
  (parseBody P self opts res).1 = [].
Proof.
  unfold parseBody, parseAs. intros [-> | ->]; reflexivity.
Qed.

Lemma react_no_progress (P : Platform) (W : World) (self : Call) (url : string)
  (opts : RequestOptions) (fu : string) (k : nat) (o : Outcome) :
  Forall (fun e => is_progress_hook e = false /\ is_onProgress e = false)
    (events_of (react P W self url opts fu k o)).
Proof.
  destruct o as [res data|err|res err|res data]; cbn [react].
  - unfold onSuccess.
    destruct (pickStatusHandler _ _ _ _), (mapped opts data res);
      repeat constructor.
  - unfold onNetworkFailure.
    destruct (within P W self opts k && _), (pickSpecial _ _ _), (suppress self opts);
      cbn [events_of]; try destruct (fires self opts _); repeat constructor.
  - unfold onParseFailure.
    destruct (within P W self opts k && _), (pickSpecial _ _ _), (suppress self opts);
      cbn [events_of]; try destruct (fires self opts _); repeat constructor.
  - unfold onStatusFailure.
    destruct (within P W self opts k && _), (pickStatusHandler _ _ _ _),
      (suppress self opts); try destruct (mapped opts data res);
      cbn [events_of]; try destruct (fires self opts _); repeat constructor.
Qed.

Lemma attemptOnce_events (P : Platform) (W : World) (self : Call)
  (url : string) (opts : RequestOptions) (fu : string) (k : nat) :
  exists reads,
    events_of (attemptOnce P W self url opts fu k)
    = EvFetch k fu (init P self opts) :: reads
      ++ events_of (react P W self url opts fu k (outcome P W self opts fu k))
    /\ (reads = []
        \/ exists res, reads = (parseBody P self opts res).1).
Proof.
  unfold attemptOnce, outcome. rewrite events_of_prepend.
  destruct (fetchImplementation W k fu (init P self opts)) as [res|err].
  - destruct (parseBody P self opts res) as [reads parsed] eqn:E.
    exists reads. rewrite events_of_prepend. cbn [snd]. split.
    + destruct parsed as [data|err]; [destruct (res_ok res)|]; reflexivity.
    + right. exists res. now rewrite E.
  - exists []. split; [reflexivity | now left].
Qed.

(** X30.  A call touches the progress channel of the configuration only
    when it sets [useProgressApi], and calls [onProgress] only when it has
    one; with [parseAs] 'response' or 'stream' it does neither, whatever it
    asks for. *)
Theorem progress_is_opt_in (P : Platform) (W : World) (self : Call)
  (url : string) (opts : RequestOptions) (fuel : nat) (tr : list event)
  (s : Settled)
  (Hr : request P W self url opts fuel = Some (tr, s)) :
  (useProgressApi opts = false -> count is_progress_hook tr = 0%nat)
  /\ (opt_onProgress opts = None -> count is_onProgress tr = 0%nat)
  /\ (opt_parseAs opts = Some as_response \/ opt_parseAs opts = Some as_stream ->
      count is_progress_hook tr = 0%nat /\ count is_onProgress tr = 0%nat).
Proof.
  assert (Hall : forall p : event -> bool,
            (forall k fu, p (EvFetch k fu (init P self opts)) = false) ->
            (forall e, is_progress_hook e = false /\ is_onProgress e = false ->
                       p e = false) ->
            (forall res, Forall (fun e => p e = false) (parseBody P self opts res).1) ->
            count p tr = 0%nat).
  { intros p Hfetch Hreact Hreads. apply count_none.
    unfold request in Hr. destruct (finalUrl P self url opts) as [u|e].
    - destruct (attemptLoop_run P W self url opts _ fuel 0 tr s Hr)
        as (n & _ & _ & _ & _ & _ & _ & Htr).
      rewrite Htr. generalize (seq 0 (S n)). intros l.
      induction l as [|k l IH]; [constructor|].
      cbn [flat_map]. apply Forall_app. split; [|exact IH].
      destruct (attemptOnce_events P W self url opts (URL_toString P u) k)
        as (reads & -> & Hreads').
      constructor; [apply Hfetch|]. apply Forall_app. split.
      + destruct Hreads' as [-> | [res ->]]; [constructor | apply Hreads].
      + eapply Forall_impl; [apply react_no_progress|]. exact Hreact.
    - injection Hr as <- _. constructor. }
  split; [|split].
  - intros Hu. apply Hall.
    + reflexivity.
    + intros e [H _]. exact H.
    + intros res. now apply parseBody_no_hook.
  - intros Ho. apply Hall.
    + reflexivity.
    + intros e [_ H]. exact H.
    + intros res. now apply parseBody_no_onProgress.
  - intros Hp. split; apply Hall; try reflexivity.
    + intros e [H _]. exact H.
    + intros res. rewrite (parseBody_untouched P self opts res Hp). constructor.
    + intros e [_ H]. exact H.
    + intros res. rewrite (parseBody_untouched P self opts res Hp). constructor.
Qed.

Lemma progress_is_opt_in_witness :
  exists tr s,
    request TestPlatform.platform (always (streamed 200 [] ["ab"; "cd"]))
      (createCall progressConfig) "https://api.test/x"
      (with_parseAs as_stream textWithProgress) 1
    = Some (tr, s)
    /\ count is_progress_hook tr = 0%nat /\ count is_onProgress tr = 0%nat.
Proof.
  eexists _, _. split; [vm_compute; reflexivity|].
  refine (proj2 (proj2 (progress_is_opt_in TestPlatform.platform
                          (always (streamed 200 [] ["ab"; "cd"]))
                          (createCall progressConfig) "https://api.test/x"
                          (with_parseAs as_stream textWithProgress) 1 _ _
                          eq_refl))
            (or_intror eq_refl)).
Defined.
